(** * The query engine of NLP-DYNAMIC-DATABASE, embedded in Rocq

    Source: [backend/api/services/query_engine.py]; the further sections
    embed [backend/api/services/document_processor.py],
    [backend/api/services/schema_discovery.py] and
    [backend/nlp/intent_model.py].

    Python values are embedded as follows.
    - [str] is [string]; the development covers ASCII text, on which
      [str.lower], [\w], [\s] and [\d] are the functions given below.
    - [int] is [Z]; a [float] is an element of an abstract type [F] whose
      operations are the variables of the section [Engine].  Only
      [int(0.95 * n)] is computed on binary64 numbers.
    - a [dict] is an association list in insertion order, [None] is [VNone],
      and a raised exception is the [Raise] result.
    - the database, the ingestion store, the embedding model and the clock
      are read through the record [world]. *)

From Stdlib Require Import List Bool Arith ZArith Lia Ascii String.
From Stdlib Require Import DecimalString DecimalZ PrimFloat FloatOps SpecFloat.
From Stdlib Require Import Permutation Sorted.
Import ListNotations.

Local Open Scope string_scope.
Local Open Scope bool_scope.

(** ** Python strings *)

Module Str.

Definition code (c : ascii) : nat := nat_of_ascii c.

Definition between (lo hi : nat) (c : ascii) : bool :=
  (lo <=? code c)%nat && (code c <=? hi)%nat.

Definition is_upper (c : ascii) : bool := between 65 90 c.
Definition is_lower (c : ascii) : bool := between 97 122 c.
Definition is_alpha (c : ascii) : bool := is_upper c || is_lower c.
Definition is_digit (c : ascii) : bool := between 48 57 c.

(** [\w] *)
Definition is_word (c : ascii) : bool :=
  is_alpha c || is_digit c || (code c =? 95)%nat.

(** [\s], which is also what [str.strip] removes *)
Definition is_space (c : ascii) : bool :=
  between 9 13 c || between 28 32 c.

Definition lower_char (c : ascii) : ascii :=
  if is_upper c then ascii_of_nat (code c + 32) else c.

(** [s.lower()] *)
Fixpoint lower (s : string) : string :=
  match s with
  | EmptyString => EmptyString
  | String c s' => String (lower_char c) (lower s')
  end.

(** [s.startswith(p)] *)
Fixpoint starts_with (p s : string) : bool :=
  match p, s with
  | EmptyString, _ => true
  | String a p', String b s' => Ascii.eqb a b && starts_with p' s'
  | String _ _, EmptyString => false
  end.

(** [t in s] *)
Fixpoint contains (t s : string) : bool :=
  starts_with t s ||
  match s with
  | EmptyString => false
  | String _ s' => contains t s'
  end.

(** [skip k s] is [s[k:]] *)
Fixpoint skip (k : nat) (s : string) : string :=
  match k, s with
  | O, _ => s
  | S k', String _ s' => skip k' s'
  | S _, EmptyString => EmptyString
  end.

(** [take k s] is [s[:k]] *)
Fixpoint take (k : nat) (s : string) : string :=
  match k, s with
  | S k', String c s' => String c (take k' s')
  | _, _ => EmptyString
  end.

(** The scan of [s.replace(p, r)] for a non-empty [p]: [k] characters of an
    occurrence already replaced are still to be passed over. *)
Fixpoint replace_go (p r : string) (k : nat) (s : string) : string :=
  match s with
  | EmptyString => EmptyString
  | String c s' =>
      match k with
      | S k' => replace_go p r k' s'
      | O =>
          if starts_with p s
          then r ++ replace_go p r (String.length p - 1) s'
          else String c (replace_go p r 0 s')
      end
  end.

(** With an empty [p] Python puts [r] before every character and at the
    end. *)
Fixpoint intersperse (r s : string) : string :=
  match s with
  | EmptyString => r
  | String c s' => r ++ String c (intersperse r s')
  end.

(** [s.replace(p, r)] *)
Definition replace (p r s : string) : string :=
  match p with
  | EmptyString => intersperse r s
  | String _ _ => replace_go p r 0 s
  end.

(** [sep.join(parts)] *)
Fixpoint join (sep : string) (parts : list string) : string :=
  match parts with
  | [] => EmptyString
  | [x] => x
  | x :: rest => x ++ sep ++ join sep rest
  end.

Fixpoint lstrip (s : string) : string :=
  match s with
  | String c s' => if is_space c then lstrip s' else s
  | EmptyString => EmptyString
  end.

Fixpoint rstrip (s : string) : string :=
  match s with
  | EmptyString => EmptyString
  | String c s' =>
      match rstrip s' with
      | EmptyString => if is_space c then EmptyString else String c EmptyString
      | t => String c t
      end
  end.

(** [s.strip()] *)
Definition strip (s : string) : string := rstrip (lstrip s).

(** [str(n)] for an [int] *)
Definition of_Z (n : Z) : string :=
  match n with
  | Z0 => "0"
  | _ => NilEmpty.string_of_int (Z.to_int n)
  end.

Definition of_nat (n : nat) : string := of_Z (Z.of_nat n).

Definition digit_val (c : ascii) : Z := Z.of_nat (code c - 48).

(** [int(s)] for a string of decimal digits *)
Definition to_Z (s : string) : Z :=
  fold_left (fun acc c => (10 * acc + digit_val c)%Z) (list_ascii_of_string s) 0%Z.

(** [x in xs] for a list of strings *)
Definition mem (x : string) (xs : list string) : bool :=
  existsb (String.eqb x) xs.

End Str.

(** ** Regular expressions of the [re] module

    A backtracking matcher in continuation-passing style with the priorities
    of [re]: the left alternative first, greedy repetition.  The matcher
    carries the character before the current position, which [\b] needs. *)

Module Re.

Inductive regex : Type :=
| Eps                          (* the empty pattern *)
| Chr (c : ascii)              (* a literal character *)
| Cls (f : ascii -> bool)      (* a character class *)
| Cat (r1 r2 : regex)          (* r1 r2 *)
| Alt (r1 r2 : regex)          (* r1 | r2 *)
| Star (r : regex)             (* r* *)
| Grp (n : nat) (r : regex)    (* capturing group number n *)
| WordB.                       (* \b *)

(** Captured groups, the latest capture of a number first. *)
Definition groups : Type := list (nat * string).

Fixpoint group (n : nat) (g : groups) : string :=
  match g with
  | [] => EmptyString
  | (m, s) :: g' => if (m =? n)%nat then s else group n g'
  end.

Definition word_opt (c : option ascii) : bool :=
  match c with
  | Some a => Str.is_word a
  | None => false
  end.

Definition head (s : string) : option ascii :=
  match s with
  | EmptyString => None
  | String c _ => Some c
  end.

(** [\b] holds between [prev] and the head of [s]. *)
Definition at_boundary (prev : option ascii) (s : string) : bool :=
  xorb (word_opt prev) (word_opt (head s)).

Fixpoint rmatch {X : Type} (r : regex) (prev : option ascii) (s : string)
    (g : groups) (k : option ascii -> string -> groups -> option X) : option X :=
  match r with
  | Eps => k prev s g
  | Chr c =>
      match s with
      | String a s' => if Ascii.eqb a c then k (Some a) s' g else None
      | EmptyString => None
      end
  | Cls f =>
      match s with
      | String a s' => if f a then k (Some a) s' g else None
      | EmptyString => None
      end
  | Cat r1 r2 => rmatch r1 prev s g (fun p' s' g' => rmatch r2 p' s' g' k)
  | Alt r1 r2 =>
      match rmatch r1 prev s g k with
      | Some x => Some x
      | None => rmatch r2 prev s g k
      end
  | Star r1 =>
      (fix loop (fuel : nat) (prev : option ascii) (s : string) (g : groups)
         : option X :=
         match fuel with
         | O => k prev s g
         | S fuel' =>
             match rmatch r1 prev s g
                     (fun p' s' g' =>
                        if (String.length s' <? String.length s)%nat
                        then loop fuel' p' s' g' else None) with
             | Some x => Some x
             | None => k prev s g
             end
         end) (String.length s) prev s g
  | Grp n r1 =>
      rmatch r1 prev s g
        (fun p' s' g' =>
           k p' s' ((n, Str.take (String.length s - String.length s') s) :: g'))
  | WordB => if at_boundary prev s then k prev s g else None
  end.

(** A match found at the current position: the groups, the character before
    the end of the match and the text after it. *)
Definition match_here (r : regex) (prev : option ascii) (s : string)
  : option (groups * option ascii * string) :=
  rmatch r prev s [] (fun p' s' g' => Some (g', p', s')).

Fixpoint search_from (r : regex) (prev : option ascii) (s : string)
  : option groups :=
  match match_here r prev s with
  | Some (g, _, _) => Some g
  | None =>
      match s with
      | String c s' => search_from r (Some c) s'
      | EmptyString => None
      end
  end.

(** [re.search(r, s)]: the groups of the leftmost match. *)
Definition search (r : regex) (s : string) : option groups :=
  search_from r None s.

(** [bool(re.search(r, s))] *)
Definition found (r : regex) (s : string) : bool :=
  match search r s with
  | Some _ => true
  | None => false
  end.

(** [re.findall(r, s)] for a pattern with the single group 1: the captures of
    the successive non-overlapping matches. *)
Fixpoint findall_go (fuel : nat) (r : regex) (prev : option ascii) (s : string)
  : list string :=
  match fuel with
  | O => []
  | S fuel' =>
      match match_here r prev s with
      | Some (g, p', s') =>
          if (String.length s' <? String.length s)%nat
          then group 1 g :: findall_go fuel' r p' s'
          else
            match s with
            | String c t => group 1 g :: findall_go fuel' r (Some c) t
            | EmptyString => [group 1 g]
            end
      | None =>
          match s with
          | String c t => findall_go fuel' r (Some c) t
          | EmptyString => []
          end
      end
  end.

Definition findall (r : regex) (s : string) : list string :=
  findall_go (S (String.length s)) r None s.

(** [re.sub(r, repl, s)] for a replacement text without group references. *)
Fixpoint sub_go (fuel : nat) (r : regex) (repl : string) (prev : option ascii)
    (s : string) : string :=
  match fuel with
  | O => s
  | S fuel' =>
      match match_here r prev s with
      | Some (_, p', s') =>
          if (String.length s' <? String.length s)%nat
          then repl ++ sub_go fuel' r repl p' s'
          else
            match s with
            | String c t => repl ++ String c (sub_go fuel' r repl (Some c) t)
            | EmptyString => repl
            end
      | None =>
          match s with
          | String c t => String c (sub_go fuel' r repl (Some c) t)
          | EmptyString => EmptyString
          end
      end
  end.

Definition sub (r : regex) (repl s : string) : string :=
  sub_go (S (String.length s)) r repl None s.

(** *** Pattern syntax *)

Fixpoint lit (s : string) : regex :=
  match s with
  | EmptyString => Eps
  | String c EmptyString => Chr c
  | String c s' => Cat (Chr c) (lit s')
  end.

Fixpoint cat (rs : list regex) : regex :=
  match rs with
  | [] => Eps
  | [r] => r
  | r :: rs' => Cat r (cat rs')
  end.

Fixpoint alt (rs : list regex) : regex :=
  match rs with
  | [] => Cls (fun _ => false)
  | [r] => r
  | r :: rs' => Alt r (alt rs')
  end.

Definition alts (ws : list string) : regex := alt (map lit ws).

Definition opt (r : regex) : regex := Alt r Eps.     (* r? *)
Definition plus (r : regex) : regex := Cat r (Star r). (* r+ *)
Definition ws0 : regex := Star (Cls Str.is_space).     (* \s* *)
Definition ws1 : regex := plus (Cls Str.is_space).     (* \s+ *)
Definition digit : regex := Cls Str.is_digit.          (* \d *)
Definition alpha : regex := Cls Str.is_alpha.          (* [a-zA-Z] *)
Definition digits4 : regex := cat [digit; digit; digit; digit]. (* \d{4} *)
Definition dquote : ascii := ascii_of_nat 34.
Definition squote : ascii := ascii_of_nat 39.
(** an optional single or double quote *)
Definition quote_opt : regex := opt (Alt (Chr squote) (Chr dquote)).

(** [\bw\b] *)
Definition word (w : string) : regex := cat [WordB; lit w; WordB].

End Re.

(** ** Python values, dictionaries and exceptions *)

(** The operations on [float] that the engine uses.  [f_mean xs] is
    [sum(xs) / len(xs)], [f_ge_threshold c] is [c >= 0.55], [f32] decodes the
    four bytes of a float32 and [np_dot] is [float(np.dot(u, v))]. *)
Class PyFloat (F : Type) : Type := {
  f_zero : F;
  f_lt : F -> F -> bool;
  f_mean : list F -> F;
  f_ge_threshold : F -> bool;
  f32 : Byte.byte -> Byte.byte -> Byte.byte -> Byte.byte -> F;
  np_dot : list F -> list F -> F
}.

#[warnings="-register-all"] Inductive value (F : Type) : Type :=
| VNone
| VInt (n : Z)
| VFloat (x : F)
| VStr (s : string)
| VList (xs : list (value F))
| VDict (kvs : list (string * value F)).

Arguments VNone {F}.
Arguments VInt {F} n.
Arguments VFloat {F} x.
Arguments VStr {F} s.
Arguments VList {F} xs.
Arguments VDict {F} kvs.

(** A [dict] with string keys, in insertion order. *)
Definition dict (F : Type) : Type := list (string * value F).

(** The outcome of a call that may raise; [Raise msg] carries [str(e)]. *)
Inductive result (A : Type) : Type :=
| Ok (a : A)
| Raise (msg : string).

Arguments Ok {A} a.
Arguments Raise {A} msg.

Module Dict.

Section Ops.
Context {V : Type}.

(** [d.get(k)], [None] for an absent key *)
Fixpoint get (k : string) (d : list (string * V)) : option V :=
  match d with
  | [] => None
  | (k', v) :: d' => if String.eqb k' k then Some v else get k d'
  end.

(** [k in d] *)
Definition has (k : string) (d : list (string * V)) : bool :=
  match get k d with
  | Some _ => true
  | None => false
  end.

Fixpoint update (k : string) (v : V) (d : list (string * V)) : list (string * V) :=
  match d with
  | [] => []
  | (k', v') :: d' =>
      if String.eqb k' k then (k', v) :: d' else (k', v') :: update k v d'
  end.

(** [d[k] = v]: a present key keeps its place, a new key goes last. *)
Definition set (k : string) (v : V) (d : list (string * V)) : list (string * V) :=
  if has k d then update k v d else d ++ [(k, v)].

Definition remove (k : string) (d : list (string * V)) : list (string * V) :=
  filter (fun kv => negb (String.eqb (fst kv) k)) d.

Definition keys (d : list (string * V)) : list string := map fst d.

End Ops.

End Dict.

(** ** Stable sorting

    [list.sort] and [sorted] are stable; they are modelled by insertion from
    the right, where [before y x] tells that [y] has to stay before a later
    [x]. *)

Fixpoint insert_by {A : Type} (before : A -> A -> bool) (x : A) (l : list A)
  : list A :=
  match l with
  | [] => [x]
  | y :: l' => if before y x then y :: insert_by before x l' else x :: l
  end.

Definition sort_by {A : Type} (before : A -> A -> bool) (l : list A) : list A :=
  fold_right (insert_by before) [] l.

(** [x or d] for an optional string *)
Definition str_or (x : option string) (d : string) : string :=
  match x with
  | Some (String c s) => String c s
  | _ => d
  end.

(** [f"{x}"] for an optional string *)
Definition fmt (x : option string) : string :=
  match x with
  | Some s => s
  | None => "None"
  end.

(** [bool(x)] for an optional string *)
Definition truthy (x : option string) : bool :=
  match x with
  | Some (String _ _) => true
  | _ => false
  end.

(** ** Classifier, normalisation, intent *)

Import Re.

Definition sql_keys : list string :=
  ["employee"; "employees"; "department"; "dept"; "hired"; "salary"; "role";
   "position"].

Definition doc_keys : list string :=
  ["resume"; "document"; "pdf"; "contract"; "clause"; "policy"; "termination"].

Definition skill_role_re : regex :=
  cat [WordB;
       Grp 1 (alts ["python"; "javascript"; "sql"; "nlp"; "ml"; "developer";
                    "engineer"; "manager"]);
       WordB].

(** [any(k in q for k in keys)] *)
Definition any_in (keys : list string) (q : string) : bool :=
  existsb (fun k => Str.contains k q) keys.

Definition has_sql (query : string) : bool :=
  let q := Str.lower query in
  any_in sql_keys q ||
  match findall skill_role_re q with
  | [] => false
  | _ :: _ => true
  end.

Definition has_doc (query : string) : bool :=
  any_in doc_keys (Str.lower query).

Definition _classify (query : string) : string :=
  if has_sql query && has_doc query then "hybrid"
  else if has_sql query then "sql"
  else if has_doc query then "document"
  else "sql".

Definition synonyms : list (string * string) :=
  [("dept", "department"); ("division", "department");
   ("compensation", "salary"); ("pay", "salary"); ("staff", "employees");
   ("emp", "employees"); ("departements", "departments")].

Definition _normalize_tokens (query : string) : string :=
  fold_left (fun q kv => sub (word (fst kv)) (snd kv) q) synonyms
    (Str.lower query).

Definition _infer_intent (q : string) : string :=
  if found (cat [WordB; Grp 1 (alts ["how many"; "count"; "number of"]); WordB]) q
  then "count"
  else if found (cat [WordB; lit "average"; ws1; lit "salary"; WordB]) q
          && found (word "department") q
  then "avg_by_dept"
  else if found (cat [WordB; lit "top"; ws0; plus digit; WordB]) q
          && found (cat [WordB;
                         Grp 1 (Alt (cat [lit "each"; ws1; lit "department"])
                                    (cat [lit "per"; ws1; lit "department"]));
                         WordB]) q
  then "top_paid_each_dept"
  else if found (cat [lit "email"; ws0; Alt (Chr ":") (Chr "=")]) q
          || found (cat [WordB; lit "id"; ws0; opt (Alt (Chr ":") (Chr "="));
                         ws0; plus digit; WordB]) q
          || found (cat [WordB; lit "which"; ws1; lit "employee"; WordB]) q
  then "find_one"
  else "select".

(** ** Filter extraction *)

Section Filters.
Context {F : Type}.

(** What one recognizer of [_infer_filters] does: the fragments it appends
    to [where] and the parameters it assigns. *)
Definition filter_step : Type := list string * list (string * value F).

Definition no_step : filter_step := ([], []).

Definition like (s : string) : value F := VStr ("%" ++ s ++ "%").

Definition hire_col_year : string := "strftime('%Y', E_HIRE_COL)".

Definition step_this_year (q : string) : filter_step :=
  if Str.contains "hired this year" q || found (word "this year") q
  then ([hire_col_year ++ " = strftime('%Y', 'now')"], [])
  else no_step.

Definition step_year_in (q : string) : filter_step :=
  match search (cat [lit "hired"; ws1; alts ["in"; "on"]; ws1; Grp 1 digits4]) q with
  | Some g => ([hire_col_year ++ " = :year_in"], [("year_in", VStr (group 1 g))])
  | None => no_step
  end.

Definition step_year_after (q : string) : filter_step :=
  match search (cat [lit "hired"; ws1; alts ["after"; "since"]; ws1; Grp 1 digits4]) q with
  | Some g => ([hire_col_year ++ " > :year_after"], [("year_after", VStr (group 1 g))])
  | None => no_step
  end.

Definition step_year_before (q : string) : filter_step :=
  match search (cat [lit "hired"; ws1; lit "before"; ws1; Grp 1 digits4]) q with
  | Some g => ([hire_col_year ++ " < :year_before"], [("year_before", VStr (group 1 g))])
  | None => no_step
  end.

Definition step_year_between (q : string) : filter_step :=
  match search (cat [lit "hired"; ws1; lit "between"; ws1; Grp 1 digits4; ws1;
                     lit "and"; ws1; Grp 2 digits4]) q with
  | Some g =>
      ([hire_col_year ++ " BETWEEN :year_b1 AND :year_b2"],
       [("year_b1", VStr (group 1 g)); ("year_b2", VStr (group 2 g))])
  | None => no_step
  end.

Definition skills_re : regex :=
  cat [WordB;
       Grp 1 (alts ["python"; "java"; "javascript"; "sql"; "nlp"; "ml"; "react";
                    "django"; "postgresql"]);
       WordB].

Definition skill_key (i : nat) : string := "skill_kw_" ++ Str.of_nat i.

Definition skill_fragment (i : nat) : string :=
  "(E_SKILLS_COL LIKE :" ++ skill_key i ++ " OR e.position LIKE :" ++ skill_key i ++ ")".

(** [for i, sk in enumerate(skills)], counting from [i] *)
Fixpoint skill_loop (i : nat) (skills : list string) : filter_step :=
  match skills with
  | [] => no_step
  | sk :: rest =>
      let '(ws, ps) := skill_loop (S i) rest in
      (skill_fragment i :: ws, (skill_key i, like sk) :: ps)
  end.

Definition step_skills (q : string) : filter_step :=
  skill_loop 0 (findall skills_re q).

Definition words_re : regex := Cat (plus alpha) (plus (Cat ws1 (plus alpha))).

Definition step_reports_to (q : string) : filter_step :=
  match search (cat [lit "reports"; ws1; lit "to"; ws1; quote_opt; Grp 1 words_re;
                     quote_opt]) q with
  | Some g =>
      (["lower(e.reports_to) = lower(:reports_to_name)"],
       [("reports_to_name", VStr (Str.strip (group 1 g)))])
  | None => no_step
  end.

Definition id_re (name : string) : regex :=
  cat [WordB; lit name; ws0; opt (Chr "="); ws0; Grp 1 (plus digit); WordB].

Definition step_id (q : string) : filter_step :=
  let mid :=
    match search (id_re "emp_id") q with
    | Some g => Some g
    | None => search (id_re "id") q
    end in
  match mid with
  | Some g => (["E_ID_COL = :id_exact"], [("id_exact", VInt (Str.to_Z (group 1 g)))])
  | None => no_step
  end.

Definition is_alnum (c : ascii) : bool := Str.is_alpha c || Str.is_digit c.

Definition one_of (cs : string) (c : ascii) : bool :=
  existsb (Ascii.eqb c) (list_ascii_of_string cs).

Definition email_re : regex :=
  Grp 1 (cat [plus (Cls (fun c => is_alnum c || one_of "._%+-" c)); Chr "@";
              plus (Cls (fun c => is_alnum c || one_of ".-" c)); Chr ".";
              alpha; alpha; Star alpha]).

Definition step_email (q : string) : filter_step :=
  match search email_re q with
  | Some g =>
      (["lower(E_EMAIL_COL) = lower(:email_exact)"],
       [("email_exact", VStr (group 1 g))])
  | None => no_step
  end.

Definition missing_words : regex := Grp 1 (alts ["no"; "missing"; "empty"]).

(** [\b(no|missing|empty)\s+] followed by [tail] and [\b] *)
Definition missing_re (tail : regex) : regex :=
  cat [WordB; missing_words; ws1; tail; WordB].

Definition plural (w : string) : regex := Cat (lit w) (opt (Chr "s")).

Definition wants_missing_email (q : string) : bool :=
  found (missing_re (plural "email")) q
  || found (missing_re (lit "email")) q
  || Str.contains "without email" q.

Definition step_missing_email (q : string) : filter_step :=
  if wants_missing_email q then (["EMAIL_IS_MISSING"], []) else no_step.

(** [_has_missing(patterns)] *)
Definition _has_missing (q : string) (patterns : list regex) : bool :=
  existsb (fun pat => found pat q) patterns.

Definition step_missing (q : string) (patterns : list regex) (marker : string)
  : filter_step :=
  if _has_missing q patterns then ([marker], []) else no_step.

Definition hire_or_join (n : nat) : regex := Grp n (alts ["hire"; "join"]).
Definition reports_to_tail : regex := cat [plural "report"; ws0; lit "to"].

Definition missing_steps (q : string) : list filter_step :=
  [ step_missing q [missing_re (lit "name"); cat [lit "without"; ws1; lit "name"]]
      "NAME_IS_MISSING";
    step_missing q [missing_re (plural "skill"); cat [lit "without"; ws1; plural "skill"]]
      "SKILLS_IS_MISSING";
    step_missing q [missing_re (plural "department"); missing_re (lit "department");
                    cat [lit "without"; ws1; lit "department"]]
      "DEPARTMENT_IS_MISSING";
    step_missing q [missing_re (plural "position"); missing_re (lit "position");
                    cat [lit "without"; ws1; lit "position"]]
      "POSITION_IS_MISSING";
    step_missing q [missing_re (lit "salary"); cat [lit "without"; ws1; lit "salary"]]
      "SALARY_IS_MISSING";
    step_missing q [missing_re (cat [hire_or_join 2; ws1; lit "date"]);
                    cat [lit "without"; ws1; hire_or_join 1; ws1; lit "date"]]
      "HIRE_DATE_IS_MISSING";
    step_missing q [missing_re reports_to_tail; cat [lit "without"; ws1; lit "manager"];
                    cat [lit "without"; ws1; reports_to_tail]]
      "REPORTS_TO_IS_MISSING" ].

Definition step_department (q : string) : filter_step :=
  match search (cat [lit "department"; ws1; opt (Cat (lit "is") ws1); quote_opt;
                     Grp 1 (plus alpha); quote_opt]) q with
  | Some g => (["d.name LIKE :dept_kw"], [("dept_kw", like (group 1 g))])
  | None => no_step
  end.

Definition position_re : regex :=
  cat [WordB;
       Grp 1 (alt [lit "senior"; lit "junior"; lit "developer"; lit "engineer";
                   lit "manager"; cat [lit "full"; ws0; lit "stack"];
                   lit "marketing"; lit "hr"]);
       WordB].

Definition pos_key (i : nat) : string := "pos_kw_" ++ Str.of_nat i.

(** [for i, p in enumerate(pos)], counting from [i]: the LIKE clauses and the
    parameters *)
Fixpoint pos_loop (i : nat) (pos : list string) : filter_step :=
  match pos with
  | [] => no_step
  | p :: rest =>
      let '(cs, ps) := pos_loop (S i) rest in
      (("e.position LIKE :" ++ pos_key i) :: cs, (pos_key i, like p) :: ps)
  end.

Definition step_position (q : string) : filter_step :=
  match findall position_re q with
  | [] => no_step
  | pos =>
      let '(clauses, ps) := pos_loop 0 pos in
      (["(" ++ Str.join " OR " clauses ++ ")"], ps)
  end.

Definition name_re : regex :=
  cat [WordB;
       alt [cat [lit "show"; ws1; lit "me"]; lit "find";
            Cat (lit "employee") (opt (Cat ws1 (lit "named")))];
       ws1; quote_opt;
       Grp 1 (Cat (plus alpha) (opt (Cat ws1 (plus alpha))));
       quote_opt; WordB].

Definition step_name (q : string) : filter_step :=
  match search name_re q with
  | Some g =>
      let n := Str.strip (group 1 g) in
      if (2 <=? String.length n)%nat
      then (["E_NAME_COL LIKE :name_like"], [("name_like", like n)])
      else no_step
  | None => no_step
  end.

(** The recognizers in the order in which [_infer_filters] runs them. *)
Definition filter_steps (q : string) : list filter_step :=
  [step_this_year q; step_year_in q; step_year_after q; step_year_before q;
   step_year_between q; step_skills q; step_reports_to q; step_id q;
   step_email q; step_missing_email q]
  ++ missing_steps q
  ++ [step_department q; step_position q; step_name q].

Definition where_list (q : string) : list string :=
  List.concat (map fst (filter_steps q)).

Definition assign_all (kvs : list (string * value F)) (d : dict F) : dict F :=
  fold_left (fun d kv => Dict.set (fst kv) (snd kv) d) kvs d.

Definition _infer_filters (q : string) : string * dict F :=
  (Str.join " AND " (where_list q),
   assign_all (List.concat (map snd (filter_steps q))) []).

End Filters.

(** ** Schema detection *)

(** A connected database: what the inspector reports and what executing a
    statement with bound parameters gives, [Raise] when the call raises. *)
Record database (F : Type) : Type := {
  db_tables : list string;
  db_columns : string -> list string;
  db_execute : string -> dict F -> result (list (dict F))
}.

Arguments db_tables {F} d.
Arguments db_columns {F} d t.
Arguments db_execute {F} d sql params.

(** The [emp] entry of a mapping; [None] is Python's [None]. *)
Record emp_map : Type := {
  e_id : string;
  e_name : string;
  e_email : option string;
  e_position : option string;
  e_salary : option string;
  e_hire_date : option string;
  e_skills : option string;
  e_dept_fk : option string;
  e_reports_to : option string
}.

(** The [dept] entry of a mapping. *)
Record dept_map : Type := {
  d_id : string;
  d_name : string
}.

Record mapping : Type := {
  emp_table : string;
  dept_table : option string;
  emp : emp_map;
  dept : option dept_map
}.

Definition default_mapping : mapping :=
  {| emp_table := "employees";
     dept_table := Some "departments";
     emp := {| e_id := "id"; e_name := "name"; e_email := Some "email";
               e_position := Some "position"; e_salary := Some "salary";
               e_hire_date := Some "hire_date"; e_skills := Some "skills";
               e_dept_fk := Some "department_id";
               e_reports_to := Some "reports_to" |};
     dept := Some {| d_id := "id"; d_name := "name" |} |}.

(** [name if name in cols else None] *)
Definition if_present (name : string) (cols : list string) : option string :=
  if Str.mem name cols then Some name else None.

(** [set(keys).issubset(cols)] *)
Definition issubset (keys cols : list string) : bool :=
  forallb (fun k => Str.mem k cols) keys.

Section Schema.
Context {F : Type}.

Definition _detect_schema (db : database F) : result mapping :=
  let tables := db_tables db in
  if Str.mem "employees" tables then
    let emp_cols := db_columns db "employees" in
    let dept_cols :=
      if Str.mem "departments" tables then db_columns db "departments" else [] in
    if issubset ["emp_id"; "full_name"; "dept_id"; "join_date"] emp_cols then
      Ok {| emp_table := "employees";
            dept_table := if_present "departments" tables;
            emp := {| e_id := "emp_id"; e_name := "full_name";
                      e_email := if_present "email" emp_cols;
                      e_position := Some "position";
                      e_salary := Some "annual_salary";
                      e_hire_date := Some "join_date";
                      e_skills := if_present "skills" emp_cols;
                      e_dept_fk := Some "dept_id";
                      e_reports_to := if_present "reports_to" emp_cols |};
            dept := if issubset ["dept_id"; "dept_name"] dept_cols
                    then Some {| d_id := "dept_id"; d_name := "dept_name" |}
                    else None |}
    else Ok default_mapping
  else if Str.mem "staff" tables then
    match db_columns db "staff" with
    | [] => Raise "list index out of range"
    | _ :: _ =>
        Ok {| emp_table := "staff";
              dept_table := None;
              emp := {| e_id := "id"; e_name := "name"; e_email := Some "email";
                        e_position := Some "role";
                        e_salary := Some "compensation";
                        e_hire_date := Some "hired_on";
                        e_skills := if_present "skills" (db_columns db "staff");
                        e_dept_fk := Some "department";
                        e_reports_to := Some "reports_to" |};
              dept := None |}
    end
  else if Str.mem "personnel" tables then
    let cols := db_columns db "personnel" in
    Ok {| emp_table := "personnel";
          dept_table := if Str.mem "divisions" tables then Some "divisions" else None;
          emp := {| e_id := "person_id"; e_name := "employee_name";
                    e_email := if_present "email" cols;
                    e_position := Some "title";
                    e_salary := Some "pay_rate";
                    e_hire_date := Some "start_date";
                    e_skills := if_present "skills" cols;
                    e_dept_fk := Some "division";
                    e_reports_to := if_present "reports_to" cols |};
          dept := if Str.mem "divisions" tables
                  then Some {| d_id := "division_code"; d_name := "division_name" |}
                  else None |}
  else Ok default_mapping.

End Schema.

(** ** The environment of the engine *)

(** A row of [chunks JOIN documents] in the ingestion store; [c_dim] is the
    INTEGER column [dim], [None] when it is NULL. *)
Record chunk_row (F : Type) : Type := {
  c_text : value F;
  c_embedding : list Byte.byte;
  c_dim : option Z;
  c_filename : value F;
  c_doc_type : value F
}.

Arguments c_text {F} c.
Arguments c_embedding {F} c.
Arguments c_dim {F} c.
Arguments c_filename {F} c.
Arguments c_doc_type {F} c.

(** What a call of the engine reads from outside.
    - [default_url]: the URL of [example.db] in the working directory.
    - [connect url]: the database behind the pooled engine of [url].
    - [ml_predict_intent]: the imported intent model, [None] when the import
      failed; it returns a label and a confidence.
    - [ingest_db]: [None] when [ingestion.db] does not exist, else the rows of
      the chunk query.
    - [count_documents], [count_chunks]: the two counts of [get_metrics].
    - [encode]: the normalised embedding of a text.
    - [elapsed]: [time.time() - t0] at the end of the call. *)
Record world (F : Type) : Type := {
  default_url : string;
  connect : string -> result (database F);
  ml_predict_intent : option (string -> result (string * F));
  ingest_db : option (result (list (chunk_row F)));
  count_documents : Z;
  count_chunks : Z;
  encode : string -> result (list F);
  elapsed : F
}.

Arguments default_url {F} w.
Arguments connect {F} w url.
Arguments ml_predict_intent {F} w.
Arguments ingest_db {F} w.
Arguments count_documents {F} w.
Arguments count_chunks {F} w.
Arguments encode {F} w text.
Arguments elapsed {F} w.

(** ** SQL synthesis *)

Definition entity_tables : list (string * string) :=
  [("contractors", "contractors"); ("vendor", "vendors"); ("vendors", "vendors");
   ("intern", "interns"); ("interns", "interns"); ("project", "projects");
   ("projects", "projects")].

(** The first entity keyword of the query whose table is absent. *)
Definition missing_entity (qn : string) (tables : list string) : option string :=
  match find (fun kt => found (word (fst kt)) qn && negb (Str.mem (snd kt) tables))
          entity_tables with
  | Some kt => Some (snd kt)
  | None => None
  end.

(** [where.replace(p, r)] guarded by [p in where] *)
Definition subst (p r where_ : string) : string :=
  if Str.contains p where_ then Str.replace p r where_ else where_.

(** [(e.col IS NULL OR e.col = '')] *)
Definition null_or_empty (col : string) : string :=
  "(e." ++ col ++ " IS NULL OR e." ++ col ++ " = '')".

Section Sql.
Context {F : Type} {FO : PyFloat F}.

Definition early (msg_key msg : string) : dict F :=
  [("type", VStr "sql"); ("sql", VNone); ("params", VDict []); ("rows", VList []);
   (msg_key, VStr msg); ("pagination", VNone)].

Definition missing_entity_error (table : string) : dict F :=
  early "error"
    ("error: not present in your database (missing entity: '" ++ table ++ "')").

Definition email_column_error : dict F :=
  early "error" "error: not present in your database (email column missing)".

Definition email_warning : dict F :=
  early "warning" "Email column not present; cannot filter for missing email.".

(** The intent used by [_run_sql]: the model's label when it is confident,
    else the caller's intent, else the rule-based one. *)
Definition effective_intent (w : world F) (qn intent : string) : string :=
  let ml_intent :=
    match ml_predict_intent w with
    | Some predict =>
        match predict qn with
        | Ok (pred, conf) => if f_ge_threshold conf then Some pred else None
        | Raise _ => None
        end
    | None => None
    end in
  str_or ml_intent (str_or (Some intent) (_infer_intent qn)).

(** The salary, hire-date and id placeholders of the filters. *)
Definition resolve_basic (e : emp_map) (where_ : string) : string :=
  let col_sal := str_or (e_salary e) "annual_salary" in
  let where_ := subst "e.salary_col" ("e." ++ col_sal) where_ in
  let where_ := subst "E_HIRE_COL" ("e." ++ str_or (e_hire_date e) "join_date") where_ in
  subst "E_ID_COL" ("e." ++ e_id e) where_.

(** The column placeholders of the filters. *)
Definition resolve_columns (e : emp_map) (where_ : string) : dict F + string :=
  let where_ := resolve_basic e where_ in
  if Str.contains "E_EMAIL_COL" where_ && negb (truthy (e_email e))
  then inl email_column_error
  else
    let where_ := subst "E_EMAIL_COL" ("e." ++ fmt (e_email e)) where_ in
    let where_ := subst "E_NAME_COL" ("e." ++ e_name e) where_ in
    let where_ :=
      if Str.contains "E_SKILLS_COL" where_ then
        if truthy (e_skills e)
        then Str.replace "E_SKILLS_COL" ("e." ++ fmt (e_skills e)) where_
        else Str.replace "E_SKILLS_COL LIKE" "0 /* no skills col */ LIKE" where_
      else where_ in
    inr where_.

(** [marker] becomes [present col] when the column exists and [1=0]
    otherwise. *)
Definition resolve_missing (marker : string) (col : option string)
    (present : string -> string) (where_ : string) : string :=
  if Str.contains marker where_ then
    if truthy col then Str.replace marker (present (fmt col)) where_
    else Str.replace marker "1=0" where_
  else where_.

(** The [..._IS_MISSING] placeholders. *)
Definition resolve_markers (e : emp_map) (where_ : string) : dict F + string :=
  if Str.contains "EMAIL_IS_MISSING" where_ && negb (truthy (e_email e))
  then inl email_warning
  else
    let where_ := subst "EMAIL_IS_MISSING" (null_or_empty (fmt (e_email e))) where_ in
    let where_ := subst "NAME_IS_MISSING" (null_or_empty (e_name e)) where_ in
    let where_ := resolve_missing "SKILLS_IS_MISSING" (e_skills e) null_or_empty where_ in
    let where_ :=
      resolve_missing "DEPARTMENT_IS_MISSING" (e_dept_fk e)
        (fun c => "(e." ++ c ++ " IS NULL)") where_ in
    let where_ := resolve_missing "POSITION_IS_MISSING" (e_position e) null_or_empty where_ in
    let where_ :=
      subst "SALARY_IS_MISSING"
        ("(e." ++ str_or (e_salary e) "annual_salary" ++ " IS NULL)") where_ in
    let where_ :=
      subst "HIRE_DATE_IS_MISSING"
        (null_or_empty (str_or (e_hire_date e) "join_date")) where_ in
    let where_ :=
      resolve_missing "REPORTS_TO_IS_MISSING"
        (Some (str_or (e_reports_to e) "reports_to")) null_or_empty where_ in
    inr where_.

End Sql.

Definition nonempty (s : string) : bool :=
  match s with
  | EmptyString => false
  | String _ _ => true
  end.

(** [dt and d]: the department table and its columns when both are there. *)
Definition dept_pair (m : mapping) : option (string * dept_map) :=
  match dept_table m, dept m with
  | Some (String c s), Some d => Some (String c s, d)
  | _, _ => None
  end.

Definition base_query (m : mapping) : string :=
  let e := emp m in
  let et := emp_table m in
  let dedup_cte :=
    if truthy (e_email e)
    then "WITH latest AS (SELECT " ++ fmt (e_email e) ++ " AS email, MAX("
         ++ e_id e ++ ") AS max_id FROM " ++ et ++ " GROUP BY "
         ++ fmt (e_email e) ++ ") "
    else EmptyString in
  let '(dept_join, select_cols) :=
    match dept_pair m with
    | Some (dt, d) =>
        (" LEFT JOIN " ++ dt ++ " d ON e." ++ fmt (e_dept_fk e) ++ " = d." ++ d_id d,
         ["e.*"; "d." ++ d_name d ++ " AS department"])
    | None => (EmptyString, ["e.*"; "e." ++ fmt (e_dept_fk e) ++ " AS department"])
    end in
  dedup_cte ++ "SELECT " ++ Str.join ", " select_cols ++ " "
  ++ "FROM " ++ et ++ " e "
  ++ (if nonempty dedup_cte then "JOIN latest l ON l.max_id = e." ++ e_id e ++ " "
      else EmptyString)
  ++ dept_join.

Definition from_departments_re : regex :=
  cat [WordB; lit "FROM"; ws1; lit "departments"; WordB].

Definition where_clause (where_ : string) : string :=
  if nonempty where_ then " WHERE " ++ where_ else EmptyString.

Section Build.
Context {F : Type}.

(** The direct listing of departments for a query that names departments
    and no employees, else the base query; with the filters and the
    parameters as they are afterwards. *)
Definition listing_or_base (m : mapping) (qn : string) (limit offset : Z)
    (where_ : string) (params : dict F) : string * string * dict F :=
  if found (cat [WordB; plural "department"; WordB]) qn
     && negb (found (cat [WordB; plural "employee"; WordB]) qn)
  then
    let dname := match dept m with Some d => d_name d | None => "dept_name" end in
    let did := match dept m with Some d => d_id d | None => "dept_id" end in
    let sql := "SELECT d." ++ did ++ " AS dept_id, d." ++ dname
               ++ " AS dept_name, d.manager_id FROM "
               ++ str_or (dept_table m) "departments" ++ " d" in
    let where_ :=
      if nonempty where_ && Str.contains "D_NAME_COL" where_
      then Str.replace "D_NAME_COL" ("d." ++ dname) where_ else where_ in
    let sql := sql ++ where_clause where_ in
    let sql := sql ++ " ORDER BY d." ++ did ++ " ASC LIMIT :limit OFFSET :offset" in
    (sql, where_,
     Dict.set "offset" (VInt (Z.max 0 offset))
       (Dict.set "limit" (VInt (Z.max 1 limit)) params))
  else (base_query m, where_, params).

(** The WHERE clause, added unless the statement reads [FROM departments]. *)
Definition add_where (m : mapping) (sql where_ : string) : string * string :=
  if nonempty where_ && negb (found from_departments_re sql) then
    let where_ :=
      if Str.contains "D_NAME_COL" where_ then
        match dept_pair m with
        | Some (_, d) => Str.replace "D_NAME_COL" ("d." ++ d_name d) where_
        | None => Str.replace "D_NAME_COL" ("e." ++ fmt (e_dept_fk (emp m))) where_
        end
      else where_ in
    (sql ++ " WHERE " ++ where_, where_)
  else (sql, where_).

(** The shape of the statement by intent: the statement, the companion count
    statement and the parameters. *)
Definition shape (m : mapping) (qn intent : string) (limit offset : Z)
    (sql where_ : string) (params : dict F) : string * option string * dict F :=
  let e := emp m in
  let et := emp_table m in
  let col_sal := str_or (e_salary e) "annual_salary" in
  let base := base_query m in
  let listing :=
    let count_sql := "SELECT COUNT(1) AS total FROM (" ++ sql ++ ") t" in
    let sql := sql ++ " ORDER BY e." ++ e_id e ++ " ASC LIMIT :limit OFFSET :offset" in
    let find_one := String.eqb intent "find_one" in
    (sql, Some count_sql,
     Dict.set "offset" (VInt (Z.max 0 (if find_one then 0 else offset)))
       (Dict.set "limit" (VInt (Z.max 1 (if find_one then 1 else limit))) params)) in
  match (if String.eqb intent "avg_by_dept" then dept_pair m else None) with
  | Some (dt, d) =>
      ("SELECT d." ++ d_name d ++ " AS department, AVG(e." ++ col_sal
       ++ ") AS avg_salary FROM " ++ et ++ " e LEFT JOIN " ++ dt ++ " d ON e."
       ++ fmt (e_dept_fk e) ++ " = d." ++ d_id d ++ where_clause where_
       ++ " GROUP BY d." ++ d_name d ++ " ORDER BY avg_salary DESC",
       None, params)
  | None =>
      if String.eqb intent "count" then
        ("SELECT COUNT(1) AS count FROM (" ++ base ++ where_clause where_ ++ ") t",
         None, params)
      else
        match (if String.eqb intent "top_paid_each_dept" then dept_pair m else None) with
        | Some (dt, d) =>
            let part :=
              "SELECT e." ++ e_id e ++ " AS id, e." ++ e_name e ++ " AS name, e."
              ++ col_sal ++ " AS salary, d." ++ d_name d ++ " AS department, "
              ++ "ROW_NUMBER() OVER (PARTITION BY d." ++ d_name d ++ " ORDER BY e."
              ++ col_sal ++ " DESC) AS rn "
              ++ "FROM " ++ et ++ " e LEFT JOIN " ++ dt ++ " d ON e."
              ++ fmt (e_dept_fk e) ++ " = d." ++ d_id d ++ where_clause where_ in
            let topn :=
              match search (cat [lit "top"; ws0; Grp 1 (plus digit)]) qn with
              | Some g => Str.to_Z (group 1 g)
              | None => 5%Z
              end in
            ("SELECT * FROM ( " ++ part
             ++ " ) z WHERE z.rn <= :topn ORDER BY z.department, z.salary DESC",
             None, Dict.set "topn" (VInt topn) params)
        | None =>
            if String.eqb intent "departments_list" && truthy (dept_table m)
            then (sql, None, params)
            else listing
        end
  end.

(** The statement, the companion count statement and the parameters. *)
Definition build_sql (m : mapping) (qn intent : string) (limit offset : Z)
    (where_ : string) (params : dict F) : string * option string * dict F :=
  let '(sql, where_, params) := listing_or_base m qn limit offset where_ params in
  let '(sql, where_) := add_where m sql where_ in
  shape m qn intent limit offset sql where_ params.

(** [result.scalar_one()] *)
Definition scalar_one (rows : list (dict F)) : result (value F) :=
  match rows with
  | [(_, v) :: _] => Ok v
  | [] => Raise "No row was found when one was required"
  | _ => Raise "Multiple rows were found when exactly one was required"
  end.

Definition get_or (k : string) (default : value F) (d : dict F) : value F :=
  match Dict.get k d with
  | Some v => v
  | None => default
  end.

Definition sql_envelope (sql : string) (params : dict F) (data : list (dict F))
    (pagination : value F) : dict F :=
  [("type", VStr "sql"); ("sql", VStr sql); ("params", VDict params);
   ("rows", VList (map VDict data)); ("pagination", pagination)].

(** The statements sent over the connection, in order, next to the outcome. *)
Definition execute (db : database F) (sql : string) (count_sql : option string)
    (params : dict F) : result (dict F) * list string :=
  match count_sql with
  | Some (String c cs) =>
      let count_sql := String c cs in
      match db_execute db count_sql params with
      | Raise msg => (Raise msg, [count_sql])
      | Ok counted =>
          match scalar_one counted with
          | Raise msg => (Raise msg, [count_sql])
          | Ok total =>
              match db_execute db sql params with
              | Raise msg => (Raise msg, [count_sql; sql])
              | Ok data =>
                  (Ok (sql_envelope sql params data
                         (VDict [("limit", get_or "limit" (VInt 0) params);
                                 ("offset", get_or "offset" (VInt 0) params);
                                 ("total", total)])),
                   [count_sql; sql])
              end
          end
      end
  | _ =>
      match db_execute db sql params with
      | Raise msg => (Raise msg, [sql])
      | Ok data => (Ok (sql_envelope sql params data VNone), [sql])
      end
  end.

End Build.

Section RunSql.
Context {F : Type} {FO : PyFloat F}.

(** [_run_sql]: the envelope or the exception, and the statements executed.
    The engine of a connection string and its inspection are read from
    [connect]; the two inspections of a call see the same tables.
    [active_connections] is raised before the statements run and lowered
    after them on every path. *)
Definition _run_sql (w : world F) (query_text : string)
    (connection_string : option string) (limit offset : Z) (intent : string)
  : result (dict F) * list string :=
  let conn_str := str_or connection_string (default_url w) in
  match connect w conn_str with
  | Raise msg => (Raise msg, [])
  | Ok db =>
      let qn := _normalize_tokens query_text in
      let '(where_, params) := _infer_filters qn in
      let intent := effective_intent w qn intent in
      match _detect_schema db with
      | Raise msg => (Raise msg, [])
      | Ok m =>
          match missing_entity qn (db_tables db) with
          | Some table => (Ok (missing_entity_error table), [])
          | None =>
              match resolve_columns (emp m) where_ with
              | inl env => (Ok env, [])
              | inr where_ =>
                  match resolve_markers (emp m) where_ with
                  | inl env => (Ok env, [])
                  | inr where_ =>
                      let '(sql, count_sql, params) :=
                        build_sql m qn intent limit offset where_ params in
                      execute db sql count_sql params
                  end
              end
          end
      end
  end.

(** ** Document search *)

(** [np.frombuffer(blob, dtype=np.float32)] *)
Fixpoint frombuffer (blob : list Byte.byte) : result (list F) :=
  match blob with
  | [] => Ok []
  | a :: b :: c :: d :: rest =>
      match frombuffer rest with
      | Ok v => Ok (f32 a b c d :: v)
      | Raise msg => Raise msg
      end
  | _ => Raise "buffer size must be a multiple of element size"
  end.

(** [float(np.dot(vec, q_vec))] of two one-dimensional arrays *)
Definition dot (vec q_vec : list F) : result F :=
  if (List.length vec =? List.length q_vec)%nat then Ok (np_dot vec q_vec)
  else Raise "shapes not aligned".

Definition doc_item (c : chunk_row F) (score : F) : dict F :=
  [("text", c_text c); ("filename", c_filename c); ("doc_type", c_doc_type c);
   ("score", VFloat score)].

(** [vec.shape[0] != dim] *)
Definition dim_differs (vec : list F) (dim : option Z) : bool :=
  match dim with
  | Some n => negb (Z.of_nat (List.length vec) =? n)%Z
  | None => true
  end.

(** The loop over the rows: the scored items in storage order. *)
Fixpoint score_rows (q_vec : list F) (rows : list (chunk_row F))
  : result (list (F * dict F)) :=
  match rows with
  | [] => Ok []
  | c :: rest =>
      match frombuffer (c_embedding c) with
      | Raise msg => Raise msg
      | Ok vec =>
          if dim_differs vec (c_dim c) then score_rows q_vec rest
          else
            match dot vec q_vec with
            | Raise msg => Raise msg
            | Ok score =>
                match score_rows q_vec rest with
                | Raise msg => Raise msg
                | Ok results => Ok ((score, doc_item c score) :: results)
                end
            end
      end
  end.

(** [results.sort(key=lambda x: x[0], reverse=True)]: the stable sort by
    decreasing key; an entry with a greater key stays before. *)
Definition sort_desc {A : Type} (l : list (F * A)) : list (F * A) :=
  sort_by (fun y x => f_lt (fst x) (fst y)) l.

(** [xs[start:start + count]] for [start, count >= 0] *)
Definition slice {A : Type} (start count : Z) (xs : list A) : list A :=
  firstn (Z.to_nat count) (skipn (Z.to_nat start) xs).

Definition _search_documents (w : world F) (query_text : string)
    (top_k offset : Z) : result (dict F) :=
  match ingest_db w with
  | None => Ok [("type", VStr "document"); ("results", VList [])]
  | Some stored =>
      match encode w query_text with
      | Raise msg => Raise msg
      | Ok q_vec =>
          match stored with
          | Raise msg => Raise msg
          | Ok rows =>
              match score_rows q_vec rows with
              | Raise msg => Raise msg
              | Ok results =>
                  let results := sort_desc results in
                  let total := Z.of_nat (List.length results) in
                  let start := Z.max 0 offset in
                  let page := map (fun x => VDict (snd x))
                                (slice start (Z.max 1 top_k) results) in
                  Ok [("type", VStr "document"); ("results", VList page);
                      ("pagination",
                       VDict [("limit", VInt (Z.max 1 top_k));
                              ("offset", VInt start); ("total", VInt total)])]
              end
          end
      end
  end.

Definition _merge_hybrid (sql_res doc_res : dict F) : dict F :=
  [("type", VStr "hybrid"); ("sql", VDict sql_res); ("documents", VDict doc_res)].

End RunSql.

(** ** The LRU cache *)

(** [_cache] is the [OrderedDict], least recently used entry first. *)
Record LRUCache (V : Type) : Type := {
  capacity : Z;
  _cache : list (string * V)
}.

Arguments capacity {V} _.
Arguments _cache {V} _.

Module LRU.

Section Cache.
Context {V : Type}.

(** [d.move_to_end(key)] for a present key *)
Definition move_to_end (key : string) (d : list (string * V)) : list (string * V) :=
  match Dict.get key d with
  | Some v => Dict.remove key d ++ [(key, v)]
  | None => d
  end.

(** [LRUCache.get]: the value, [None] for an absent key, and the cache
    afterwards. *)
Definition get (c : LRUCache V) (key : string) : option V * LRUCache V :=
  match Dict.get key (_cache c) with
  | None => (None, c)
  | Some v =>
      (Some v, {| capacity := capacity c; _cache := move_to_end key (_cache c) |})
  end.

(** [LRUCache.set] *)
Definition set (c : LRUCache V) (key : string) (v : V) : LRUCache V :=
  let d := if Dict.has key (_cache c) then move_to_end key (_cache c) else _cache c in
  let d := Dict.set key v d in
  {| capacity := capacity c;
     _cache := if (capacity c <? Z.of_nat (List.length d))%Z then tl d else d |}.

Definition empty (cap : Z) : LRUCache V := {| capacity := cap; _cache := [] |}.


End Cache.

End LRU.

(** ** State, history and metrics *)

Record metrics_state (F : Type) : Type := {
  total_queries : Z;
  cache_hits : Z;
  cache_misses : Z;
  exec_times : list F;
  active_queries : Z;
  active_connections : Z
}.

Arguments total_queries {F} m.
Arguments cache_hits {F} m.
Arguments cache_misses {F} m.
Arguments exec_times {F} m.
Arguments active_queries {F} m.
Arguments active_connections {F} m.

(** The module-level globals [_cache], [_history] and [_metrics]. *)
Record state (F : Type) : Type := {
  cache : LRUCache (dict F);
  history : list (dict F);
  metrics : metrics_state F
}.

Arguments cache {F} s.
Arguments history {F} s.
Arguments metrics {F} s.

(** [xs[i:]] with Python's reading of a negative [i]; note that [xs[-0:]] is
    [xs[0:]]. *)
Definition slice_from {A : Type} (i : Z) (xs : list A) : list A :=
  if (i <? 0)%Z then skipn (Z.to_nat (Z.of_nat (List.length xs) + i)) xs
  else skipn (Z.to_nat i) xs.

(** [if len(xs) > n: del xs[:-n]] *)
Definition trim {A : Type} (n : Z) (xs : list A) : list A :=
  if (n <? Z.of_nat (List.length xs))%Z then slice_from (- n) xs else xs.

Definition initial_state (F : Type) : state F :=
  {| cache := LRU.empty 100;
     history := [];
     metrics := {| total_queries := 0; cache_hits := 0; cache_misses := 0;
                   exec_times := []; active_queries := 0;
                   active_connections := 0 |} |}.

(** *** The cache key: [json.dumps(..., sort_keys=True)] *)

Definition dq : string := String Re.dquote EmptyString.
Definition backslash : ascii := ascii_of_nat 92.

Definition hex_digit (n : nat) : ascii :=
  if (n <? 10)%nat then ascii_of_nat (48 + n) else ascii_of_nat (87 + n).

Definition json_char (c : ascii) : string :=
  let n := Str.code c in
  let esc x := String backslash (String x EmptyString) in
  if (n =? 34)%nat then esc Re.dquote
  else if (n =? 92)%nat then esc backslash
  else if (n =? 10)%nat then esc "n"%char
  else if (n =? 13)%nat then esc "r"%char
  else if (n =? 9)%nat then esc "t"%char
  else if (n =? 8)%nat then esc "b"%char
  else if (n =? 12)%nat then esc "f"%char
  else if (n <? 32)%nat || (126 <? n)%nat then
    String backslash
      ("u00" ++ String (hex_digit (n / 16)) (String (hex_digit (n mod 16)) EmptyString))
  else String c EmptyString.

Fixpoint json_chars (s : string) : string :=
  match s with
  | EmptyString => EmptyString
  | String c s' => json_char c ++ json_chars s'
  end.

Definition json_str (s : string) : string := dq ++ json_chars s ++ dq.

Definition json_opt_str (s : option string) : string :=
  match s with
  | Some t => json_str t
  | None => "null"
  end.

Definition cache_key (user_query : string) (connection_string : option string)
    (limit : Z) : string :=
  "{" ++ json_str "cs" ++ ": " ++ json_opt_str connection_string ++ ", "
  ++ json_str "l" ++ ": " ++ Str.of_Z limit ++ ", "
  ++ json_str "q" ++ ": " ++ json_str user_query ++ "}".

(** *** [int(0.95 * n)] on binary64 numbers *)

(** [float(n)] for an [int] *)
Definition float_of_Z (n : Z) : float :=
  SF2Prim (binary_normalize prec emax n 0 false).

(** [int(x)] for a finite [float]: truncation towards zero *)
Definition int_of_float (x : float) : Z :=
  match Prim2SF x with
  | S754_finite s m e =>
      let v := if (0 <=? e)%Z then (Z.pos m * 2 ^ e)%Z
               else Z.shiftr (Z.pos m) (- e) in
      if s then (- v)%Z else v
  | _ => 0%Z
  end.

(** The binary64 number that the literal [0.95] denotes. *)
Definition lit_095 : float := 0x1.e666666666666p-1%float.

Definition int_095 (n : Z) : Z := int_of_float (PrimFloat.mul lit_095 (float_of_Z n)).

Section Api.
Context {F : Type} {FO : PyFloat F}.

Definition _record_time (x : F) (m : metrics_state F) : metrics_state F :=
  {| total_queries := total_queries m; cache_hits := cache_hits m;
     cache_misses := cache_misses m;
     exec_times := trim 500 (exec_times m ++ [x]);
     active_queries := active_queries m;
     active_connections := active_connections m |}.

(** [_inc("total_queries")], [_inc("cache_hits")], [_inc("cache_misses")] *)
Definition count_query (hit : bool) (m : metrics_state F) : metrics_state F :=
  {| total_queries := total_queries m + 1;
     cache_hits := if hit then cache_hits m + 1 else cache_hits m;
     cache_misses := if hit then cache_misses m else cache_misses m + 1;
     exec_times := exec_times m;
     active_queries := active_queries m;
     active_connections := active_connections m |}.

Definition with_metrics (env : dict F) (t : F) (outcome : string) : dict F :=
  Dict.set "metrics" (VDict [("elapsed_sec", VFloat t); ("cache", VStr outcome)]) env.

Definition history_entry (user_query : string) (t : F) (env : dict F)
    (outcome : string) : dict F :=
  [("q", VStr user_query); ("time", VFloat t); ("type", get_or "type" VNone env);
   ("cache", VStr outcome)].

(** [x or default] for an envelope computed or not *)
Definition env_or (x : option (dict F)) (default : dict F) : dict F :=
  match x with
  | Some (kv :: d) => kv :: d
  | _ => default
  end.

(** The envelope computed on a cache miss.  [_with_active_query] raises and
    lowers [active_queries] around each call, and [_run_sql] does the same
    with [active_connections]; both counters are back at their value when the
    call ends. *)
Definition compute (w : world F) (user_query : string)
    (connection_string : option string) (limit offset doc_limit doc_offset : Z)
  : dict F :=
  let qtype := _classify user_query in
  let sql_res :=
    if String.eqb qtype "sql" || String.eqb qtype "hybrid" then
      let intent := _infer_intent (_normalize_tokens user_query) in
      match fst (_run_sql w user_query connection_string limit offset intent) with
      | Ok env => Some env
      | Raise msg => Some [("type", VStr "sql"); ("error", VStr msg); ("rows", VList [])]
      end
    else None in
  let doc_res :=
    if String.eqb qtype "document" || String.eqb qtype "hybrid" then
      match _search_documents w user_query doc_limit doc_offset with
      | Ok env => Some env
      | Raise msg =>
          Some [("type", VStr "document"); ("error", VStr msg); ("results", VList [])]
      end
    else None in
  let no_sql : dict F := [("type", VStr "sql"); ("rows", VList [])] in
  let no_doc : dict F := [("type", VStr "document"); ("results", VList [])] in
  if String.eqb qtype "sql" then env_or sql_res no_sql
  else if String.eqb qtype "document" then env_or doc_res no_doc
  else _merge_hybrid (env_or sql_res no_sql) (env_or doc_res no_doc).

Definition process_query (w : world F) (st : state F) (user_query : string)
    (connection_string : option string) (limit offset doc_limit doc_offset : Z)
  : dict F * state F :=
  let key := cache_key user_query connection_string limit in
  let '(cached, c) := LRU.get (cache st) key in
  let t := elapsed w in
  match cached with
  | Some env =>
      (with_metrics env t "hit",
       {| cache := c;
          history := history st ++ [history_entry user_query t env "hit"];
          metrics := _record_time t (count_query true (metrics st)) |})
  | None =>
      let final :=
        compute w user_query connection_string limit offset doc_limit doc_offset in
      let final_with_metrics := with_metrics final t "miss" in
      (final_with_metrics,
       {| cache := LRU.set c key final;
          history :=
            trim 100
              (history st ++ [history_entry user_query t final_with_metrics "miss"]);
          metrics := _record_time t (count_query false (metrics st)) |})
  end.

Definition recent_history (st : state F) (limit : Z) : list (dict F) :=
  rev (slice_from (- limit) (history st)).

(** [sorted(times)]: the stable sort by increasing value *)
Definition sorted (l : list F) : list F := sort_by (fun y x => f_lt y x) l.

Definition avg_exec (times : list F) : F :=
  match times with
  | [] => f_zero
  | _ :: _ => f_mean times
  end.

Definition p95_index (n : Z) : Z := Z.min (n - 1) (int_095 n).

Definition p95_exec (times : list F) : F :=
  match times with
  | [] => f_zero
  | _ :: _ =>
      let s := sorted times in
      nth (Z.to_nat (p95_index (Z.of_nat (List.length s)))) s f_zero
  end.

Definition get_metrics (w : world F) (st : state F) : dict F :=
  let m := metrics st in
  let times := exec_times m in
  let '(docs, chunks) :=
    match ingest_db w with
    | Some _ => (count_documents w, count_chunks w)
    | None => (0%Z, 0%Z)
    end in
  [("total_queries", VInt (total_queries m)); ("cache_hits", VInt (cache_hits m));
   ("cache_misses", VInt (cache_misses m));
   ("active_queries", VInt (active_queries m));
   ("active_connections", VInt (active_connections m));
   ("avg_exec_sec", VFloat (avg_exec times));
   ("p95_exec_sec", VFloat (p95_exec times));
   ("recent_exec_times", VList (map VFloat (slice_from (-20) times)));
   ("indexed_documents", VInt docs); ("indexed_chunks", VInt chunks)].

End Api.

(** ** What the properties are stated with *)

(** [t] occurs in [s]. *)
Definition occurs (t s : string) : Prop := exists a b, s = a ++ t ++ b.

(** The order laws of [<] on floats that are not NaN. *)
Class FloatOrder (F : Type) {FO : PyFloat F} : Prop := {
  f_lt_asym : forall a b : F, f_lt a b = true -> f_lt b a = false;
  f_ge_trans : forall a b c : F, f_lt a b = false -> f_lt b c = false -> f_lt a c = false
}.

(** Equal keys: neither is below the other. *)
Definition same_key {F : Type} {FO : PyFloat F} (a b : F) : bool :=
  negb (f_lt a b) && negb (f_lt b a).

(** The dictionary stored under [k], empty when there is none. *)
Definition sub_dict {F : Type} (k : string) (env : dict F) : dict F :=
  match Dict.get k env with
  | Some (VDict d) => d
  | _ => []
  end.

(** Wherever the envelope binds or reports [name], in [params] or in
    [pagination], the value is [v]. *)
Definition bound {F : Type} (name : string) (env : dict F) (v : Z) : Prop :=
  forall x,
    Dict.get name (sub_dict "params" env) = Some x
    \/ Dict.get name (sub_dict "pagination" env) = Some x ->
    x = VInt v.

(** [x != k], used to drop a key from a key sequence *)
Definition differs (k : string) : string -> bool := fun x => negb (String.eqb x k).

(** The skills fragment of keyword [i] once its skills side can never
    match. *)
Definition never_matching (i : nat) : string :=
  "(0 /* no skills col */ LIKE :" ++ skill_key i ++ " OR e.position LIKE :"
  ++ skill_key i ++ ")".

(** No occurrence of [p] that starts before an occurrence of [t] reaches
    into it. *)
Definition left_safe (p t : string) : Prop :=
  forall x y, p = x ++ y -> y <> EmptyString ->
    Str.starts_with y t = false /\ Str.starts_with t y = false.

(** No occurrence of [p] starts inside an occurrence of [t]. *)
Definition right_safe (p t : string) : Prop :=
  forall u v, t = u ++ v -> v <> EmptyString ->
    Str.starts_with p v = false /\ Str.starts_with v p = false.

(** [t] is at the start of [s] or occurs in it after a space. *)
Definition marked (t s : string) : Prop :=
  Str.starts_with t s = true \/ occurs (" " ++ t) s.

(** The non-empty suffixes of a string, the longest first. *)
Fixpoint suffixes (s : string) : list string :=
  match s with
  | EmptyString => []
  | String _ s' => s :: suffixes s'
  end.

(** [p] and [t] cannot overlap: the decidable form of [left_safe] and
    [right_safe]. *)
Definition apart (p t : string) : bool :=
  forallb (fun y => negb (Str.starts_with y t) && negb (Str.starts_with t y)) (suffixes p)
  && forallb (fun v => negb (Str.starts_with p v) && negb (Str.starts_with v p)) (suffixes t).

(** [c in s] for a character *)
Fixpoint has (c : ascii) (s : string) : bool :=
  match s with
  | EmptyString => false
  | String a s' => Ascii.eqb a c || has c s'
  end.

(** [s] starts with the character [b]. *)
Definition first_is (b : ascii) (s : string) : bool :=
  match s with
  | String c _ => Ascii.eqb c b
  | EmptyString => false
  end.

(** [s] ends with the character [a]. *)
Fixpoint last_is (a : ascii) (s : string) : bool :=
  match s with
  | EmptyString => false
  | String c EmptyString => Ascii.eqb c a
  | String _ s' => last_is a s'
  end.

(** Nowhere in [s] is [a] immediately followed by [b]. *)
Fixpoint no_pair (a b : ascii) (s : string) : bool :=
  match s with
  | EmptyString => true
  | String c s' => negb (Ascii.eqb c a && first_is b s') && no_pair a b s'
  end.

(** A column name that brings no ["_E"] into a statement. *)
Definition plain_column (col : string) : bool :=
  no_pair "_" "E" col && negb (last_is "_" col).

Definition basic_columns (e : emp_map) : list string :=
  [str_or (e_salary e) "annual_salary"; str_or (e_hire_date e) "join_date"; e_id e].


(** An early return binds and reports nothing, and names no statement. *)
Definition unbound {F : Type} (env : dict F) : Prop :=
  sub_dict "params" env = [] /\ sub_dict "pagination" env = []
  /\ Dict.get "sql" env = Some VNone.

(** The limit and the offset that a listing binds. *)
Definition sql_limit (intent : string) (limit : Z) : Z :=
  Z.max 1 (if String.eqb intent "find_one" then 1 else limit).

Definition sql_offset (intent : string) (offset : Z) : Z :=
  Z.max 0 (if String.eqb intent "find_one" then 0 else offset).

(** [limit] and [offset] are bound to the clamped values or not at all; they
    are bound whenever there is a count statement, and there is one for the
    intent [find_one]. *)
Definition clamped {F : Type} (intent : string) (limit offset : Z)
    (count_sql : option string) (p : dict F) : Prop :=
  (forall x, Dict.get "limit" p = Some x -> x = VInt (sql_limit intent limit))
  /\ (forall x, Dict.get "offset" p = Some x -> x = VInt (sql_offset intent offset))
  /\ (truthy count_sql = true ->
      Dict.get "limit" p = Some (VInt (sql_limit intent limit))
      /\ Dict.get "offset" p = Some (VInt (sql_offset intent offset)))
  /\ (intent = "find_one" -> truthy count_sql = true).

(** No parameter is called [limit] or [offset]. *)
Definition safe_keys {F : Type} (kvs : list (string * value F)) : Prop :=
  Forall (fun kv => fst kv <> "limit" /\ fst kv <> "offset") kvs.

Section Ranking.
Context {F : Type} {FO : PyFloat F}.

(** The number of float32 values in the blob of a chunk. *)
Definition vec_len (c : chunk_row F) : nat := List.length (c_embedding c) / 4.

(** The vector of a chunk whose blob decodes. *)
Definition vector_of (c : chunk_row F) : list F :=
  match frombuffer (c_embedding c) with
  | Ok v => v
  | Raise _ => []
  end.

(** The vector of the chunk has the recorded dimensionality. *)
Definition survives (c : chunk_row F) : bool :=
  match c_dim c with
  | Some n => (Z.of_nat (vec_len c) =? n)%Z
  | None => false
  end.

(** The surviving chunks in storage order, each with the dot product of its
    vector and the query vector as score. *)
Definition scored (q_vec : list F) (rows : list (chunk_row F)) : list (F * dict F) :=
  map (fun c => (np_dot (vector_of c) q_vec,
                 doc_item c (np_dot (vector_of c) q_vec)))
    (filter survives rows).

End Ranking.

(** The key sequence of a cache after [set] of [k]. *)
Definition truncate (cap : Z) (l : list string) : list string :=
  if (cap <? Z.of_nat (List.length l))%Z then tl l else l.

Definition keys_after_set (cap : Z) (l : list string) (k : string) : list string :=
  truncate cap (filter (differs k) l ++ [k]).

(** A cache holds no more entries than its capacity. *)
Definition within_capacity {V : Type} (c : LRUCache V) : Prop :=
  (Z.of_nat (List.length (_cache c)) <= capacity c)%Z.


(** The index that floor(0.95 * (n - 1)), clamped to the window, selects. *)
Definition p95_index_n_minus_1 (n : Z) : Z :=
  Z.max 0 (Z.min (n - 1) (19 * (n - 1) / 20)).

(** ** A concrete instance for running the engine

    Numbers are integers here: a confidence counts hundredths and a float32
    is read as its first byte. *)

#[export] Instance ZFloat : PyFloat Z := {
  f_zero := 0%Z;
  f_lt := Z.ltb;
  f_mean := fun xs => (fold_left Z.add xs 0 / Z.of_nat (List.length xs))%Z;
  f_ge_threshold := fun c => (55 <=? c)%Z;
  f32 := fun a _ _ _ => Z.of_N (Byte.to_N a);
  np_dot := fun u v => fold_left Z.add (map (fun p => fst p * snd p)%Z (combine u v)) 0%Z
}.

Module Sample.

Definition one_row : list (dict Z) := [[("n", VInt 1)]].

(** The simplified employees dialect without email and skills columns, and
    no vendors table. *)
Definition plain_db : database Z :=
  {| db_tables := ["employees"; "departments"];
     db_columns := fun t =>
       if String.eqb t "employees"
       then ["emp_id"; "full_name"; "dept_id"; "join_date"; "position"; "annual_salary"]
       else ["dept_id"; "dept_name"; "manager_id"];
     db_execute := fun _ _ => Ok one_row |}.

Definition x01 : Byte.byte := Byte.x01.
Definition x02 : Byte.byte := Byte.x02.
Definition x03 : Byte.byte := Byte.x03.
Definition x00 : Byte.byte := Byte.x00.

Definition chunk (name : string) (blob : list Byte.byte) (dim : Z) : chunk_row Z :=
  {| c_text := VStr name; c_embedding := blob; c_dim := Some dim;
     c_filename := VStr "cv.pdf"; c_doc_type := VStr "resume" |}.

(** Three chunks of dimension 2 and one whose blob does not have the
    recorded dimension. *)
Definition chunks : list (chunk_row Z) :=
  [chunk "a" [x01; x00; x00; x00; x02; x00; x00; x00] 2;
   chunk "b" [x03; x00; x00; x00; x01; x00; x00; x00] 2;
   chunk "short" [x03; x00; x00; x00] 2;
   chunk "c" [x02; x00; x00; x00; x01; x00; x00; x00] 2].

Definition the_world (store : option (result (list (chunk_row Z)))) : world Z :=
  {| default_url := "sqlite:///example.db";
     connect := fun _ => Ok plain_db;
     ml_predict_intent := None;
     ingest_db := store;
     count_documents := 1;
     count_chunks := 4;
     encode := fun _ => Ok [1%Z; 1%Z];
     elapsed := 3%Z |}.

Definition w : world Z := the_world None.
Definition w_docs : world Z := the_world (Some (Ok chunks)).

(** [n] successive calls of [process_query] with the same arguments. *)
Fixpoint repeat_query (n : nat) (st : state Z) (q : string) : state Z :=
  match n with
  | O => st
  | S n' => repeat_query n' (snd (process_query w st q None 50 0 8 0)) q
  end.

Definition times_1_to_20 : list Z := map Z.of_nat (seq 1 20).

Definition state_with_times (times : list Z) : state Z :=
  {| cache := LRU.empty 100;
     history := [];
     metrics := {| total_queries := 0; cache_hits := 0; cache_misses := 0;
                   exec_times := times; active_queries := 0;
                   active_connections := 0 |} |}.

(** The mapping that [_detect_schema] gives for [plain_db]. *)
Definition plain_mapping : mapping :=
  {| emp_table := "employees"; dept_table := Some "departments";
     emp := {| e_id := "emp_id"; e_name := "full_name"; e_email := None;
               e_position := Some "position"; e_salary := Some "annual_salary";
               e_hire_date := Some "join_date"; e_skills := None;
               e_dept_fk := Some "dept_id"; e_reports_to := None |};
     dept := Some {| d_id := "dept_id"; d_name := "dept_name" |} |}.

(** The envelope of a skills query on [plain_db]. *)
Definition python_env : dict Z :=
  Eval vm_compute in
    match fst (_run_sql w "Python developers" None 50 0 "select") with
    | Ok env => env
    | Raise _ => []
    end.

(** The envelope of a [find_one] lookup with limit 0 and offset -4. *)
Definition find_one_env : dict Z :=
  Eval vm_compute in
    match fst (_run_sql w "which employee has id 7" None 0 (-4) "find_one") with
    | Ok env => env
    | Raise _ => []
    end.

End Sample.

(** ** Resetting the metrics *)

(** [reset_metrics]: the state afterwards; the call returns [{"ok": True}]. *)
Definition reset_metrics {F : Type} (st : state F) : state F :=
  {| cache := cache st;
     history := history st;
     metrics := {| total_queries := 0; cache_hits := 0; cache_misses := 0;
                   exec_times := []; active_queries := 0;
                   active_connections := 0 |} |}.

(** Worlds for running the engine with a database that cannot be reached. *)
Module Outage.

Definition w_down : world Z :=
  {| default_url := "sqlite:///example.db";
     connect := fun _ => Raise "unable to open database file";
     ml_predict_intent := None;
     ingest_db := Some (Ok Sample.chunks);
     count_documents := 1;
     count_chunks := 4;
     encode := fun _ => Ok [1%Z; 1%Z];
     elapsed := 3%Z |}.

End Outage.

(** A database of the staff dialect whose table has no email column. *)
Module Staffed.

Definition staff_db : database Z :=
  {| db_tables := ["staff"; "documents"];
     db_columns := fun _ => ["id"; "name"; "role"; "compensation"; "hired_on";
                             "department"; "reports_to"];
     db_execute := fun _ _ => Ok Sample.one_row |}.

Definition w_staff : world Z :=
  {| default_url := "sqlite:///staff.db";
     connect := fun _ => Ok staff_db;
     ml_predict_intent := None;
     ingest_db := None;
     count_documents := 0;
     count_chunks := 0;
     encode := fun _ => Ok [1%Z; 1%Z];
     elapsed := 3%Z |}.

End Staffed.

(** ** What the further properties are stated with *)

(** The fragments that [_infer_filters] appends as they are. *)
Definition fixed_fragments : list string :=
  ["strftime('%Y', E_HIRE_COL) = strftime('%Y', 'now')";
   "strftime('%Y', E_HIRE_COL) = :year_in";
   "strftime('%Y', E_HIRE_COL) > :year_after";
   "strftime('%Y', E_HIRE_COL) < :year_before";
   "strftime('%Y', E_HIRE_COL) BETWEEN :year_b1 AND :year_b2";
   "lower(e.reports_to) = lower(:reports_to_name)";
   "E_ID_COL = :id_exact";
   "lower(E_EMAIL_COL) = lower(:email_exact)";
   "EMAIL_IS_MISSING"; "NAME_IS_MISSING"; "SKILLS_IS_MISSING";
   "DEPARTMENT_IS_MISSING"; "POSITION_IS_MISSING"; "SALARY_IS_MISSING";
   "HIRE_DATE_IS_MISSING"; "REPORTS_TO_IS_MISSING";
   "d.name LIKE :dept_kw";
   "E_NAME_COL LIKE :name_like"].

Definition position_clause (i : nat) : string := "e.position LIKE :" ++ pos_key i.

(** The fragment of [n] position keywords. *)
Definition position_fragment (n : nat) : string :=
  "(" ++ Str.join " OR " (map position_clause (seq 0 n)) ++ ")".

(** A fragment made of fixed text and numbered parameter names only. *)
Definition templated (f : string) : Prop :=
  In f fixed_fragments
  \/ (exists i, f = skill_fragment i)
  \/ (exists n, f = position_fragment (S n)).

(** [s] is [l] with some entries left out. *)
Inductive subseq {A : Type} : list A -> list A -> Prop :=
| subseq_nil : subseq [] []
| subseq_skip (x : A) (s l : list A) : subseq s l -> subseq s (x :: l)
| subseq_keep (x : A) (s l : list A) : subseq s l -> subseq (x :: s) (x :: l).

(** The parameter names that [_infer_filters] can assign for [n] skills and
    [m] position keywords, in the order of assignment. *)
Definition parameter_names (n m : nat) : list string :=
  (["year_in"; "year_after"; "year_before"; "year_b1"; "year_b2"]
   ++ map skill_key (seq 0 n)
   ++ ["reports_to_name"; "id_exact"; "email_exact"; "dept_kw"]
   ++ map pos_key (seq 0 m)
   ++ ["name_like"])%list.

(** What the recognizers of [_infer_filters] assign, in order. *)
Definition assigned {F : Type} (q : string) : list (string * value F) :=
  List.concat (map snd (filter_steps q)).

(** Every character of [s] satisfies [p]. *)
Fixpoint every (p : ascii -> bool) (s : string) : bool :=
  match s with
  | EmptyString => true
  | String c s' => p c && every p s'
  end.

(** The value of a lower-case hexadecimal digit. *)
Definition hex_val (c : ascii) : option nat :=
  let n := Str.code c in
  if Str.is_digit c then Some (n - 48)
  else if Str.between 97 102 c then Some (n - 87)
  else None.

(** The character that a JSON string body starts with, decoded, and the
    rest; [None] at the closing quote. *)
Definition json_unchar (s : string) : option (ascii * string) :=
  match s with
  | EmptyString => None
  | String c rest =>
      if Ascii.eqb c backslash then
        match rest with
        | EmptyString => None
        | String e rest' =>
            if Ascii.eqb e Re.dquote then Some (Re.dquote, rest')
            else if Ascii.eqb e backslash then Some (backslash, rest')
            else if Ascii.eqb e "n" then Some (ascii_of_nat 10, rest')
            else if Ascii.eqb e "r" then Some (ascii_of_nat 13, rest')
            else if Ascii.eqb e "t" then Some (ascii_of_nat 9, rest')
            else if Ascii.eqb e "b" then Some (ascii_of_nat 8, rest')
            else if Ascii.eqb e "f" then Some (ascii_of_nat 12, rest')
            else
              match rest' with
              | String _ (String _ (String h1 (String h2 rest''))) =>
                  match hex_val h1, hex_val h2 with
                  | Some a, Some b => Some (ascii_of_nat (16 * a + b), rest'')
                  | _, _ => None
                  end
              | _ => None
              end
        end
      else if Ascii.eqb c Re.dquote then None
      else Some (c, rest)
  end.

(** ** Document ingestion

    Source: [backend/api/services/document_processor.py]. *)

(** [s.endswith(suffix)] *)
Fixpoint ends_with (suffix s : string) : bool :=
  String.eqb suffix s ||
  match s with
  | EmptyString => false
  | String _ s' => ends_with suffix s'
  end.

Definition _detect_doc_type (filename : string) (content_type : option string)
  : string :=
  let fname := Str.lower filename in
  (* [content_type and k in content_type.lower()] *)
  let in_type k :=
    match content_type with
    | Some t => nonempty t && Str.contains k (Str.lower t)
    | None => false
    end in
  if ends_with ".pdf" fname || in_type "pdf" then "pdf"
  else if ends_with ".docx" fname || in_type "word" then "docx"
  else if ends_with ".csv" fname || in_type "csv" then "csv"
  else "txt".

(** The newline character and the text made of it. *)
Definition nl_char : ascii := ascii_of_nat 10.
Definition nl : string := String nl_char EmptyString.

Definition py_len (s : string) : Z := Z.of_nat (String.length s).

(** One turn of the loop of [_chunk_by_size] on the chunks so far and the
    buffer. *)
Definition chunk_step (max_chars : Z) (st : list string * string) (u : string)
  : list string * string :=
  let '(chunks, buf) := st in
  if (py_len buf + py_len u + 1 <=? max_chars)%Z
  then (chunks, if nonempty buf then buf ++ nl ++ u else u)
  else ((if nonempty buf then chunks ++ [Str.strip buf] else chunks)%list, u).

(** [if buf: chunks.append(buf.strip())] *)
Definition flush (st : list string * string) : list string :=
  let '(chunks, buf) := st in
  (if nonempty buf then chunks ++ [Str.strip buf] else chunks)%list.

Definition _chunk_by_size (units : list string) (max_chars : Z) : list string :=
  filter nonempty (flush (fold_left (chunk_step max_chars) units ([], EmptyString))).

(** [re.split] for a pattern without groups that matches no empty text.
    [at_ prev s] is the end of a match that starts here: the character
    before the end and the text after it. *)
Fixpoint re_split_go (fuel : nat) (at_ : option ascii -> string -> option (option ascii * string))
    (prev : option ascii) (s piece : string) : list string :=
  match fuel with
  | O => [piece ++ s]
  | S fuel' =>
      match at_ prev s with
      | Some (p', s') => piece :: re_split_go fuel' at_ p' s' EmptyString
      | None =>
          match s with
          | EmptyString => [piece]
          | String c t => re_split_go fuel' at_ (Some c) t (piece ++ String c EmptyString)
          end
      end
  end.

Definition re_split (at_ : option ascii -> string -> option (option ascii * string))
    (s : string) : list string :=
  re_split_go (S (String.length s)) at_ None s EmptyString.

(** The matches of a pattern [r]. *)
Definition plainly (r : Re.regex) (prev : option ascii) (s : string)
  : option (option ascii * string) :=
  match Re.match_here r prev s with
  | Some (_, p', s') => Some (p', s')
  | None => None
  end.

(** The matches of [r(?=ahead)], followed by [\b] when [boundary] is set. *)
Definition lookahead (r ahead : Re.regex) (boundary : bool) (prev : option ascii)
    (s : string) : option (option ascii * string) :=
  Re.rmatch r prev s []
    (fun p' s' _ =>
       match Re.match_here ahead p' s' with
       | Some _ =>
           if negb boundary || Re.at_boundary p' s' then Some (p', s') else None
       | None => None
       end).

(** [\n\s*] *)
Definition break_re : Re.regex := Re.Cat (Re.Chr nl_char) Re.ws0.

Definition section_words : list string :=
  ["skills"; "experience"; "education"; "projects"].

(** The line boundaries of [str.splitlines] other than [\r]. *)
Definition is_linebreak (c : ascii) : bool :=
  let n := Str.code c in
  (n =? 10)%nat || (n =? 11)%nat || (n =? 12)%nat || Str.between 28 30 c.

(** [s.splitlines()] *)
Fixpoint splitlines_go (s line : string) : list string :=
  match s with
  | EmptyString => if nonempty line then [line] else []
  | String c t =>
      if (Str.code c =? 13)%nat then
        match t with
        | String d t' =>
            if (Str.code d =? 10)%nat then line :: splitlines_go t' EmptyString
            else line :: splitlines_go t EmptyString
        | EmptyString => [line]
        end
      else if is_linebreak c then line :: splitlines_go t EmptyString
      else splitlines_go t (line ++ String c EmptyString)
  end.

Definition splitlines (s : string) : list string := splitlines_go s EmptyString.

(** [[c.strip() for c in parts if c.strip()]] *)
Definition stripped (parts : list string) : list string :=
  filter nonempty (map Str.strip parts).

Definition dynamic_chunking (content doc_type : string) : list string :=
  let content := Str.strip content in
  if negb (nonempty content) then []
  else if Str.mem doc_type ["pdf"; "docx"; "txt"] then
    let lowered := Str.lower content in
    let resume :=
      if any_in section_words lowered
      then stripped (re_split (lookahead break_re (Re.alts section_words) true) lowered)
      else [] in
    match resume with
    | _ :: _ => resume
    | [] =>
        if Re.found (Re.cat [Re.Chr nl_char; Re.ws0; Re.plus Re.digit; Re.Chr ".";
                             Re.ws1]) content
        then
          stripped
            (re_split (lookahead break_re (Re.Cat (Re.plus Re.digit) (Re.Chr ".")) false)
               content)
        else
          _chunk_by_size
            (re_split (plainly (Re.cat [Re.Chr nl_char; Re.ws0; Re.Chr nl_char])) content)
            800
    end
  else if String.eqb doc_type "csv" then _chunk_by_size (splitlines content) 800
  else _chunk_by_size [content] 800.

(** [k] newlines *)
Fixpoint newlines (k : nat) : string :=
  match k with
  | O => EmptyString
  | S k' => nl ++ newlines k'
  end.

(** The chunk that a group of units makes. *)
Definition chunk_of (g : list string) : string := Str.strip (Str.join nl g).

(** The state of the loop after the units of [done] and of the group [g]. *)
Definition loop_state (st : list string * string) (done : list (list string))
    (g : list string) : Prop :=
  filter nonempty (fst st) = filter nonempty (map chunk_of done)
  /\ exists k, Str.join nl g = newlines k ++ snd st.

(** ** Schema discovery

    Source: [backend/api/services/schema_discovery.py]. *)

(** A column as the inspector reports it: its name and the text of its
    type, [_safe_str(c.get('type'))]. *)
Record column_info : Type := {
  col_name : string;
  col_type : string
}.

(** A foreign key as the inspector reports it; [None] is a missing entry or
    [None]. *)
Record foreign_key : Type := {
  constrained_columns : option (list string);
  referred_table : option string;
  referred_columns : option (list string);
  fk_name : option string
}.

Record inspector : Type := {
  get_table_names : result (list string);
  get_columns : string -> result (list column_info);
  get_foreign_keys : string -> result (list foreign_key)
}.

(** What [make_url] gives: [get_backend_name()] and [database]. *)
Record url : Type := {
  backend_name : string;
  url_database : option string
}.

(** What [analyze_database] reads from outside: [make_url], [os.path.isabs],
    [os.path.join(os.getcwd(), p)], [os.path.exists], and the engine created,
    connected to and inspected. *)
Record host : Type := {
  make_url : string -> result url;
  isabs : string -> bool;
  in_cwd : string -> string;
  path_exists : string -> bool;
  inspect_engine : string -> result inspector
}.

(** The body of the [try] block: it raises for a SQLite file that does not
    exist. *)
Definition sqlite_file_check (h : host) (connection_string : string) : result unit :=
  match make_url h connection_string with
  | Raise msg => Raise msg
  | Ok u =>
      if Str.starts_with "sqlite" (backend_name u) then
        let db_path := str_or (url_database u) EmptyString in
        if nonempty db_path && negb (String.eqb db_path ":memory:") then
          let db_path_to_check :=
            if negb (isabs h db_path) then in_cwd h db_path else db_path in
          if negb (path_exists h db_path_to_check)
          then Raise ("SQLite database file not found: " ++ db_path)
          else Ok tt
        else Ok tt
      else Ok tt
  end.

(** [x or []] for an optional list *)
Definition list_or (x : option (list string)) : list string :=
  match x with
  | Some l => l
  | None => []
  end.

Section Discovery.
Context {F : Type}.

Definition opt_str (x : option string) : value F :=
  match x with
  | Some s => VStr s
  | None => VNone
  end.

Definition strs (l : list string) : value F := VList (map VStr l).

(** [columns[table] = [...]] for the tables in order *)
Fixpoint collect_columns (insp : inspector) (tables : list string) (columns : dict F)
  : result (dict F) :=
  match tables with
  | [] => Ok columns
  | table :: rest =>
      match get_columns insp table with
      | Raise msg => Raise msg
      | Ok cols_info =>
          collect_columns insp rest
            (Dict.set table
               (strs (map (fun c => col_name c ++ ":" ++ col_type c) cols_info))
               columns)
      end
  end.

Definition relationship (table : string) (fk : foreign_key) : dict F :=
  [("from_table", VStr table);
   ("from_columns", strs (list_or (constrained_columns fk)));
   ("to_table", opt_str (referred_table fk));
   ("to_columns", strs (list_or (referred_columns fk)));
   ("name", opt_str (fk_name fk))].

Fixpoint collect_relationships (insp : inspector) (tables : list string)
    (relationships : list (dict F)) : result (list (dict F)) :=
  match tables with
  | [] => Ok relationships
  | table :: rest =>
      match get_foreign_keys insp table with
      | Raise msg => Raise msg
      | Ok fks =>
          collect_relationships insp rest
            (relationships ++ map (relationship table) fks)%list
      end
  end.

(** [sorted(names)] for table names: by code points, stable *)
Definition sorted_names (names : list string) : list string :=
  sort_by (fun y x => String.ltb y x) names.

(** [analyze_database] after its [try] block. *)
Definition reflect_schema (h : host) (connection_string : string) : result (dict F) :=
  match inspect_engine h connection_string with
  | Raise msg => Raise msg
  | Ok insp =>
      match get_table_names insp with
      | Raise msg => Raise msg
      | Ok names =>
          let tables := sorted_names names in
          match collect_columns insp tables [] with
          | Raise msg => Raise msg
          | Ok columns =>
              match collect_relationships insp tables [] with
              | Raise msg => Raise msg
              | Ok relationships =>
                  Ok [("tables", strs tables); ("columns", VDict columns);
                      ("relationships", VList (map VDict relationships))]
              end
          end
      end
  end.

(** [analyze_database]: whatever the [try] block raises is passed over. *)
Definition analyze_database (h : host) (connection_string : string) : result (dict F) :=
  match sqlite_file_check h connection_string with
  | Ok _ => reflect_schema h connection_string
  | Raise _ => reflect_schema h connection_string
  end.

End Discovery.

(** ** The intent model

    Source: [backend/nlp/intent_model.py]. *)

Section IntentModel.
Context {F : Type} {FO : PyFloat F}.

(** The store of labelled examples: the rows of [embeddings] and
    [labels]. *)
Record intent_store : Type := {
  embeddings : list (list F);
  labels : list string
}.

(** [corpus @ q] *)
Fixpoint matvec (corpus : list (list F)) (q : list F) : result (list F) :=
  match corpus with
  | [] => Ok []
  | row :: rest =>
      match dot row q with
      | Raise msg => Raise msg
      | Ok x =>
          match matvec rest q with
          | Raise msg => Raise msg
          | Ok xs => Ok (x :: xs)
          end
      end
  end.

(** The scan of [np.argmax] from index [i], over values that are not NaN: the
    index and the value of the first maximum, [best] being the one so far. *)
Fixpoint argmax_from (i : nat) (best : nat * F) (xs : list F) : nat * F :=
  match xs with
  | [] => best
  | x :: rest => argmax_from (S i) (if f_lt (snd best) x then (i, x) else best) rest
  end.

(** [int(np.argmax(sims))] with [sims[idx]] *)
Definition argmax (sims : list F) : result (nat * F) :=
  match sims with
  | [] => Raise "attempt to get argmax of an empty sequence"
  | x :: rest => Ok (argmax_from 1 (0%nat, x) rest)
  end.

(** [predict_intent] on the store [s]; [encode] is the embedding of the
    lower-cased text. *)
Definition predict_intent (s : intent_store) (encode : string -> result (list F))
    (text : string) : result (string * F) :=
  match encode (Str.lower text) with
  | Raise msg => Raise msg
  | Ok q =>
      match matvec (embeddings s) q with
      | Raise msg => Raise msg
      | Ok sims =>
          match argmax sims with
          | Raise msg => Raise msg
          | Ok (idx, conf) =>
              match nth_error (labels s) idx with
              | Some label => Ok (label, conf)
              | None => Raise "list index out of range"
              end
          end
      end
  end.

(** [best] is the first maximum of the values [seen]. *)
Definition first_max (best : nat * F) (seen : list F) : Prop :=
  nth_error seen (fst best) = Some (snd best)
  /\ Forall (fun v => f_lt (snd best) v = false) seen
  /\ forall j v, (j < fst best)%nat -> nth_error seen j = Some v ->
       f_lt v (snd best) = true.

End IntentModel.

Arguments intent_store F : clear implicits.

(** A database of two tables behind a SQLite URL whose file is reported
    present or missing. *)
Module Discovered.

Definition insp : inspector :=
  {| get_table_names := Ok ["employees"; "departments"];
     get_columns := fun t =>
       if String.eqb t "employees"
       then Ok [{| col_name := "emp_id"; col_type := "INTEGER" |};
                {| col_name := "dept_id"; col_type := "INTEGER" |}]
       else Ok [{| col_name := "dept_id"; col_type := "INTEGER" |}];
     get_foreign_keys := fun t =>
       if String.eqb t "employees"
       then Ok [{| constrained_columns := Some ["dept_id"];
                   referred_table := Some "departments";
                   referred_columns := Some ["dept_id"];
                   fk_name := None |}]
       else Ok [] |}.

Definition the_host (file_exists : bool) : host :=
  {| make_url := fun _ => Ok {| backend_name := "sqlite"; url_database := Some "example.db" |};
     isabs := fun _ => false;
     in_cwd := fun p => "/srv/" ++ p;
     path_exists := fun _ => file_exists;
     inspect_engine := fun _ => Ok insp |}.

(** Three examples with the similarities 2, 5 and 5 to the query. *)
Definition store : intent_store Z :=
  {| embeddings := [[1; 0]; [2; 1]; [1; 3]]%Z;
     labels := ["count"; "select"; "find_one"] |}.

Definition encode (_ : string) : result (list Z) := Ok [2; 1]%Z.

End Discovered.

(** ** The ingestion store

    The tables of [ingestion.db] as [document_processor.py] fills them.  A
    row of [jobs] is a dictionary from its columns to their values; the
    statements sent to SQLite are taken to succeed. *)

Record document_row : Type := {
  document_id : Z;
  document_job : string;
  document_filename : string;
  document_type : string
}.

Record chunk_entry : Type := {
  chunk_document : Z;
  chunk_index : Z;
  chunk_text : string;
  chunk_embedding : list Byte.byte;
  chunk_dim : Z
}.

(** [documents_seq] is the last id that AUTOINCREMENT gave to a document;
    deleting rows does not lower it. *)
Record storage (F : Type) : Type := {
  st_jobs : list (dict F);
  st_documents : list document_row;
  st_chunks : list chunk_entry;
  documents_seq : Z
}.

Arguments st_jobs {F} s.
Arguments st_documents {F} s.
Arguments st_chunks {F} s.
Arguments documents_seq {F} s.

(** What ingestion reads from outside: the clock, [clock k] being what the
    call number [k] of [time.time()] returns; [_extract_text] with the
    parsers behind it; and the embedding model on one batch, which gives the
    float32 bytes of each vector and [vecs.shape[1]].  The functions that
    read the clock take the number [t] of calls made before. *)
Record ingest_env (F : Type) : Type := {
  clock : nat -> F;
  extract_text : list Byte.byte -> string -> result string;
  encode_batch : list string -> result (list (list Byte.byte) * Z)
}.

Arguments clock {F} _ _.
Arguments extract_text {F} _ _ _.
Arguments encode_batch {F} _ _.

Section Ingestion.
Context {F : Type}.

(** [init_storage]: the tables are created when they are not there;
    [None] is the state without [ingestion.db]. *)
Definition init_storage (s : option (storage F)) : storage F :=
  match s with
  | Some x => x
  | None => {| st_jobs := []; st_documents := []; st_chunks := []; documents_seq := 0 |}
  end.

(** [WHERE id = ?] on a row of [jobs] *)
Definition has_id (job_id : string) (row : dict F) : bool :=
  match Dict.get "id" row with
  | Some (VStr x) => String.eqb x job_id
  | _ => false
  end.

(** [INSERT OR REPLACE INTO jobs]: a row with the same id is replaced.  The
    tuple of values reads the clock twice, for [created_at] and then for
    [updated_at]. *)
Definition _insert_job (env : ingest_env F) (t : nat) (s : storage F)
    (job_id : string) (total_files : Z) : storage F :=
  {| st_jobs :=
       (filter (fun row => negb (has_id job_id row)) (st_jobs s)
        ++ [[("id", VStr job_id); ("status", VStr "running");
             ("total_files", VInt total_files); ("processed_files", VInt 0);
             ("created_at", VFloat (clock env t));
             ("updated_at", VFloat (clock env (S t)));
             ("error", VNone)]])%list;
     st_documents := st_documents s;
     st_chunks := st_chunks s;
     documents_seq := documents_seq s |}.



(** The rows [(document_id, i, chunks[i], embeddings[i], dim)] from index
    [i] on. *)
Fixpoint chunk_rows (document_id : Z) (i : Z) (chunks : list string)
    (embeddings : list (list Byte.byte)) (dim : Z) : result (list chunk_entry) :=
  match chunks with
  | [] => Ok []
  | c :: chunks' =>
      match embeddings with
      | [] => Raise "list index out of range"
      | e :: embeddings' =>
          match chunk_rows document_id (i + 1) chunks' embeddings' dim with
          | Raise msg => Raise msg
          | Ok rows =>
              Ok ({| chunk_document := document_id; chunk_index := i; chunk_text := c;
                     chunk_embedding := e; chunk_dim := dim |} :: rows)
          end
      end
  end.

Definition _insert_chunks (s : storage F) (document_id : Z) (chunks : list string)
    (embeddings : list (list Byte.byte)) (dim : Z) : result (storage F) :=
  match chunk_rows document_id 0 chunks embeddings dim with
  | Raise msg => Raise msg
  | Ok rows =>
      Ok {| st_jobs := st_jobs s;
            st_documents := st_documents s;
            st_chunks := (st_chunks s ++ rows)%list;
            documents_seq := documents_seq s |}
  end.

(** [chunks[i : i + batch_size]] for [i] in [range(0, len(chunks),
    batch_size)] *)
Fixpoint batches (fuel : nat) (batch_size : nat) (chunks : list string)
  : list (list string) :=
  match fuel, chunks with
  | S fuel', _ :: _ =>
      firstn batch_size chunks :: batches fuel' batch_size (skipn batch_size chunks)
  | _, _ => []
  end.

(** The loop of [_embed_chunks] over the batches. *)
Fixpoint embed_batches (env : ingest_env F) (bs : list (list string))
    (all_blobs : list (list Byte.byte)) (dim : option Z)
  : result (list (list Byte.byte) * option Z) :=
  match bs with
  | [] => Ok (all_blobs, dim)
  | batch :: rest =>
      match encode_batch env batch with
      | Raise msg => Raise msg
      | Ok (blobs, d) =>
          embed_batches env rest (all_blobs ++ blobs)%list
            (match dim with Some x => Some x | None => Some d end)
      end
  end.

Definition _embed_chunks (env : ingest_env F) (chunks : list string) (batch_size : Z)
  : result (list (list Byte.byte) * Z) :=
  if (batch_size =? 0)%Z then Raise "range() arg 3 must not be zero"
  else
    let bs :=
      if (batch_size <? 0)%Z then []
      else batches (List.length chunks) (Z.to_nat batch_size) chunks in
    match embed_batches env bs [] None with
    | Raise msg => Raise msg
    | Ok (all_blobs, dim) =>
        Ok (all_blobs, match dim with Some d => d | None => 0%Z end)
    end.




Definition create_job_record (env : ingest_env F) (t : nat) (s : option (storage F))
    (job_id : string) (total_files : Z) : storage F :=
  _insert_job env t (init_storage s) job_id total_files.

(** [row[i]] of a selected row *)
Definition column (i : nat) (row : dict F) : value F :=
  match nth_error row i with
  | Some (_, v) => v
  | None => VNone
  end.

(** [get_job_status]: the status; the store afterwards is
    [init_storage s]. *)
Definition get_job_status (s : option (storage F)) (job_id : string) : dict F :=
  match find (has_id job_id) (st_jobs (init_storage s)) with
  | None => [("job_id", VStr job_id); ("status", VStr "not_found")]
  | Some row =>
      [("job_id", column 0 row); ("status", column 1 row);
       ("total_files", column 2 row); ("processed_files", column 3 row);
       ("created_at", column 4 row); ("updated_at", column 5 row);
       ("error", column 6 row)]
  end.

(** [reset_ingestion]: the three tables are emptied. *)
Definition reset_ingestion (s : option (storage F)) : storage F :=
  {| st_jobs := []; st_documents := []; st_chunks := [];
     documents_seq := documents_seq (init_storage s) |}.

End Ingestion.

(** The row of a job as [get_job_status] reports it. *)
Definition job_status {F : Type} (job_id status : string) (total processed : Z)
    (created updated : F) (error : value F) : dict F :=
  [("job_id", VStr job_id); ("status", VStr status); ("total_files", VInt total);
   ("processed_files", VInt processed); ("created_at", VFloat created);
   ("updated_at", VFloat updated); ("error", error)].

(** The row of a job in the table [jobs]. *)
Definition job_row {F : Type} (job_id status : string) (total processed : Z)
    (created updated : F) (error : value F) : dict F :=
  [("id", VStr job_id); ("status", VStr status); ("total_files", VInt total);
   ("processed_files", VInt processed); ("created_at", VFloat created);
   ("updated_at", VFloat updated); ("error", error)].

(** An embedding model that gives every text the same one-dimensional
    vector, and a clock that advances by one at each read. *)
Module Uploads.

Definition blob : list Byte.byte := [Byte.x01; Byte.x00; Byte.x00; Byte.x00].

Definition env : ingest_env Z :=
  {| clock := fun k => (7 + Z.of_nat k)%Z;
     extract_text := fun _ _ => Ok "text";
     encode_batch := fun batch => Ok (map (fun _ => blob) batch, 1%Z) |}.

End Uploads.

(** ** What the statements about routing, pagination and keys are stated with *)

(** The last character of [s]. *)
Fixpoint last_char (s : string) : option ascii :=
  match s with
  | EmptyString => None
  | String c EmptyString => Some c
  | String _ s' => last_char s'
  end.

(** [w] stands in [s] as a word: neither the character before it nor the
    one after it is a letter, a digit or an underscore. *)
Definition word_occurs (w s : string) : Prop :=
  exists a b,
    s = a ++ w ++ b
    /\ word_opt (last_char a) = false /\ word_opt (head b) = false.

(** The character before the position reached after reading [k]. *)
Definition before_end (prev : option ascii) (k : string) : option ascii :=
  match last_char k with
  | Some c => Some c
  | None => prev
  end.

(** The envelope binds [limit] and [offset] in [params] to [lim] and [off]
    and reports the same two values in [pagination]. *)
Definition listed {F : Type} (env : dict F) (lim off : Z) : Prop :=
  Dict.get "limit" (sub_dict "params" env) = Some (VInt lim)
  /\ Dict.get "offset" (sub_dict "params" env) = Some (VInt off)
  /\ Dict.get "limit" (sub_dict "pagination" env) = Some (VInt lim)
  /\ Dict.get "offset" (sub_dict "pagination" env) = Some (VInt off).

(** The intents whose statement can be an aggregate without a page. *)
Definition aggregate_intents : list string :=
  ["avg_by_dept"; "count"; "top_paid_each_dept"; "departments_list"].

(** The columns that the two resolution steps write into the filters. *)
Definition written_columns (e : emp_map) : list string :=
  basic_columns e ++ [fmt (e_email e); e_name e; fmt (e_skills e)].

(** Every character of the text is an ASCII character. *)
Definition ascii_text (s : string) : bool :=
  every (fun c => (Str.code c <? 128)%nat) s.

(** * Properties *)

(** ** Dictionaries *)

Section DictFacts.
Context {V : Type}.
Implicit Types (d : list (string * V)) (k : string) (v : V).

Lemma get_none_keys d k : Dict.get k d = None <-> ~ In k (Dict.keys d).
Proof.
  induction d as [|[k' v'] d IH]; simpl.
  - tauto.
  - destruct (String.eqb_spec k' k) as [->|Hne].
    + split; [discriminate | intros H; exfalso; apply H; now left].
    + rewrite IH. split; [intros H [E|I]; [congruence | tauto] | tauto].
Qed.

Lemma has_keys d k : Dict.has k d = true <-> In k (Dict.keys d).
Proof.
  unfold Dict.has. destruct (Dict.get k d) eqn:E.
  - split; [intros _ | reflexivity].
    destruct (in_dec string_dec k (Dict.keys d)) as [I|N]; [exact I|].
    apply get_none_keys in N. congruence.
  - split; [discriminate|]. intros I. apply get_none_keys in E. contradiction.
Qed.

Lemma keys_app d1 d2 : Dict.keys (d1 ++ d2)%list = (Dict.keys d1 ++ Dict.keys d2)%list.
Proof. apply map_app. Qed.

Lemma keys_update d k v : Dict.keys (Dict.update k v d) = Dict.keys d.
Proof.
  induction d as [|[k' v'] d IH]; simpl; [reflexivity|].
  destruct (String.eqb k' k); simpl; [reflexivity | now rewrite IH].
Qed.

Lemma keys_remove d k :
  Dict.keys (Dict.remove k d) = filter (fun x => negb (String.eqb x k)) (Dict.keys d).
Proof.
  induction d as [|[k' v'] d IH]; simpl; [reflexivity|].
  destruct (String.eqb k' k); simpl; [exact IH | now rewrite IH].
Qed.

Lemma get_app d1 d2 k :
  Dict.get k (d1 ++ d2)%list =
  match Dict.get k d1 with Some v => Some v | None => Dict.get k d2 end.
Proof.
  induction d1 as [|[k' v'] d1 IH]; simpl; [reflexivity|].
  destruct (String.eqb k' k); [reflexivity | exact IH].
Qed.

Lemma get_remove_same d k : Dict.get k (Dict.remove k d) = None.
Proof.
  apply get_none_keys. rewrite keys_remove, filter_In.
  intros [_ H]. rewrite String.eqb_refl in H. discriminate.
Qed.

Lemma get_update_same d k v :
  Dict.has k d = true -> Dict.get k (Dict.update k v d) = Some v.
Proof.
  unfold Dict.has. induction d as [|[k' v'] d IH]; simpl; [discriminate|].
  destruct (String.eqb k' k) eqn:E; simpl; rewrite E; [reflexivity | exact IH].
Qed.

Lemma get_update_other d k k' v :
  k' <> k -> Dict.get k' (Dict.update k v d) = Dict.get k' d.
Proof.
  intros Hne. induction d as [|[k0 v0] d IH]; simpl; [reflexivity|].
  destruct (String.eqb_spec k0 k) as [->|N]; simpl.
  - destruct (String.eqb_spec k k'); [congruence | reflexivity].
  - destruct (String.eqb k0 k'); [reflexivity | exact IH].
Qed.

Lemma get_set_same d k v : Dict.get k (Dict.set k v d) = Some v.
Proof.
  unfold Dict.set. destruct (Dict.has k d) eqn:H.
  - now apply get_update_same.
  - rewrite get_app. unfold Dict.has in H.
    destruct (Dict.get k d); [discriminate|]. simpl. now rewrite String.eqb_refl.
Qed.

Lemma get_set_other d k k' v : k' <> k -> Dict.get k' (Dict.set k v d) = Dict.get k' d.
Proof.
  intros Hne. unfold Dict.set. destruct (Dict.has k d).
  - now apply get_update_other.
  - rewrite get_app. destruct (Dict.get k' d); [reflexivity|]. simpl.
    destruct (String.eqb_spec k k'); [congruence | reflexivity].
Qed.

Lemma keys_set d k v :
  Dict.keys (Dict.set k v d) = if Dict.has k d then Dict.keys d else (Dict.keys d ++ [k])%list.
Proof.
  unfold Dict.set. destruct (Dict.has k d).
  - apply keys_update.
  - now rewrite keys_app.
Qed.

End DictFacts.

(** ** The LRU cache *)



Lemma filter_differs_id (l : list string) (k : string) :
  ~ In k l -> filter (differs k) l = l.
Proof.
  induction l as [|x l IH]; simpl; intros H; [reflexivity|].
  unfold differs at 1. destruct (String.eqb_spec x k) as [->|N]; simpl.
  - exfalso. apply H. now left.
  - rewrite IH; [reflexivity | tauto].
Qed.

Lemma in_filter_differs (l : list string) (k x : string) :
  In x (filter (differs k) l) <-> In x l /\ x <> k.
Proof.
  rewrite filter_In. unfold differs.
  destruct (String.eqb_spec x k); simpl; intuition congruence.
Qed.

Lemma keys_tl {V : Type} (d : list (string * V)) : Dict.keys (tl d) = tl (Dict.keys d).
Proof. now destruct d. Qed.

Lemma keys_move_to_end {V : Type} (d : list (string * V)) (k : string) :
  Dict.has k d = true ->
  Dict.keys (LRU.move_to_end k d) = (filter (differs k) (Dict.keys d) ++ [k])%list.
Proof.
  unfold Dict.has, LRU.move_to_end. destruct (Dict.get k d); [intros _ | discriminate].
  now rewrite keys_app, keys_remove.
Qed.

Lemma has_move_to_end {V : Type} (d : list (string * V)) (k : string) :
  Dict.has k d = true -> Dict.has k (LRU.move_to_end k d) = true.
Proof.
  intros H. apply has_keys. rewrite keys_move_to_end by exact H.
  apply in_or_app. right. now left.
Qed.

Lemma keys_lru_set {V : Type} (c : LRUCache V) (k : string) (v : V) :
  Dict.keys (_cache (LRU.set c k v)) = keys_after_set (capacity c) (Dict.keys (_cache c)) k.
Proof.
  unfold LRU.set, keys_after_set, truncate. simpl.
  set (d := if Dict.has k (_cache c) then LRU.move_to_end k (_cache c) else _cache c).
  assert (K : Dict.keys (Dict.set k v d)
              = (filter (differs k) (Dict.keys (_cache c)) ++ [k])%list).
  { rewrite keys_set. subst d. destruct (Dict.has k (_cache c)) eqn:H.
    - rewrite has_move_to_end by exact H. now apply keys_move_to_end.
    - rewrite H. rewrite filter_differs_id; [reflexivity|].
      intros I. apply has_keys in I. congruence. }
  fold (differs k). rewrite <- K. unfold Dict.keys at 2. rewrite length_map.
  destruct (capacity c <? Z.of_nat (List.length (Dict.set k v d)))%Z;
    [apply keys_tl | reflexivity].
Qed.

Lemma capacity_lru_set {V : Type} (c : LRUCache V) (k : string) (v : V) :
  capacity (LRU.set c k v) = capacity c.
Proof. reflexivity. Qed.

Lemma length_keys_after_set (cap : Z) (l : list string) (k : string) :
  (Z.of_nat (List.length l) <= cap)%Z ->
  (Z.of_nat (List.length (keys_after_set cap l k)) <= cap)%Z.
Proof.
  intros H. unfold keys_after_set, truncate.
  set (l' := (filter _ l ++ [k])%list).
  assert (L : (List.length l' <= S (List.length l))%nat).
  { subst l'. rewrite length_app. simpl. pose proof (filter_length_le (differs k) l). lia. }
  destruct (Z.ltb_spec cap (Z.of_nat (List.length l'))); [|lia].
  destruct l'; simpl in *; lia.
Qed.

Lemma within_capacity_set {V : Type} (c : LRUCache V) (k : string) (v : V) :
  within_capacity c -> within_capacity (LRU.set c k v).
Proof.
  unfold within_capacity. intros H.
  rewrite <- (length_map fst (_cache (LRU.set c k v))).
  change (map fst ?d) with (Dict.keys d). rewrite keys_lru_set, capacity_lru_set.
  apply length_keys_after_set. unfold Dict.keys. now rewrite length_map.
Qed.











Lemma update_last {V : Type} (pre : list (string * V)) (k : string) (v0 v : V) :
  Dict.get k pre = None ->
  Dict.update k v (pre ++ [(k, v0)]) = (pre ++ [(k, v)])%list.
Proof.
  induction pre as [|[k' v'] pre IH]; simpl.
  - now rewrite String.eqb_refl.
  - destruct (String.eqb k' k); [discriminate|]. intros H. now rewrite IH.
Qed.

(** After [set] the key is the last entry and occurs nowhere else. *)
Lemma set_puts_last {V : Type} (d : list (string * V)) (k : string) (v : V) :
  exists pre,
    Dict.get k pre = None /\
    Dict.set k v (if Dict.has k d then LRU.move_to_end k d else d)
    = (pre ++ [(k, v)])%list.
Proof.
  destruct (Dict.has k d) eqn:H.
  - exists (Dict.remove k d). split; [apply get_remove_same|].
    unfold Dict.set. rewrite has_move_to_end by exact H.
    unfold LRU.move_to_end. unfold Dict.has in H.
    destruct (Dict.get k d); [|discriminate].
    apply update_last, get_remove_same.
  - exists d. unfold Dict.set. rewrite H. split; [|reflexivity].
    unfold Dict.has in H. now destruct (Dict.get k d).
Qed.

Lemma lru_get_after_set {V : Type} (c : LRUCache V) (k : string) (v : V) :
  (1 <= capacity c)%Z -> Dict.get k (_cache (LRU.set c k v)) = Some v.
Proof.
  intros H. unfold LRU.set. simpl.
  destruct (set_puts_last (_cache c) k v) as [pre [N ->]].
  assert (G : forall p : list (string * V),
             Dict.get k p = None -> Dict.get k (p ++ [(k, v)]) = Some v).
  { intros p Hp. rewrite get_app, Hp. simpl. now rewrite String.eqb_refl. }
  destruct (Z.ltb_spec (capacity c) (Z.of_nat (List.length (pre ++ [(k, v)]))));
    [|now apply G].
  destruct pre as [|[k' v'] pre]; simpl in *; [lia|].
  destruct (String.eqb k' k); [discriminate | now apply G].
Qed.

Lemma get_move_to_end {V : Type} (d : list (string * V)) (k : string) (v : V) :
  Dict.get k d = Some v -> Dict.get k (LRU.move_to_end k d) = Some v.
Proof.
  intros H. unfold LRU.move_to_end. rewrite H, get_app, get_remove_same. simpl.
  now rewrite String.eqb_refl.
Qed.

Section ProcessQuery.
Context {F : Type} {FO : PyFloat F}.
Implicit Types (w : world F) (st : state F) (env : dict F).

Lemma get_with_metrics env (t : F) (outcome k : string) :
  k <> "metrics" -> Dict.get k (with_metrics env t outcome) = Dict.get k env.
Proof. intros H. unfold with_metrics. now apply get_set_other. Qed.

Lemma metrics_with_metrics env (t : F) (outcome : string) :
  Dict.get "metrics" (with_metrics env t outcome)
  = Some (VDict [("elapsed_sec", VFloat t); ("cache", VStr outcome)]).
Proof. apply get_set_same. Qed.

Lemma process_query_hit w st q cs l o dl do env :
  Dict.get (cache_key q cs l) (_cache (cache st)) = Some env ->
  process_query w st q cs l o dl do
  = (with_metrics env (elapsed w) "hit",
     {| cache := {| capacity := capacity (cache st);
                    _cache := LRU.move_to_end (cache_key q cs l) (_cache (cache st)) |};
        history := history st ++ [history_entry q (elapsed w) env "hit"];
        metrics := _record_time (elapsed w) (count_query true (metrics st)) |}).
Proof. intros H. unfold process_query, LRU.get. now rewrite H. Qed.

Lemma process_query_miss w st q cs l o dl do :
  Dict.get (cache_key q cs l) (_cache (cache st)) = None ->
  process_query w st q cs l o dl do
  = (with_metrics (compute w q cs l o dl do) (elapsed w) "miss",
     {| cache := LRU.set (cache st) (cache_key q cs l) (compute w q cs l o dl do);
        history :=
          trim 100
            (history st ++
             [history_entry q (elapsed w)
                (with_metrics (compute w q cs l o dl do) (elapsed w) "miss") "miss"]);
        metrics := _record_time (elapsed w) (count_query false (metrics st)) |}).
Proof. intros H. unfold process_query, LRU.get. now rewrite H. Qed.

(** Every call leaves its envelope in the cache under the key of its query
    text, connection string and row limit. *)
Lemma process_query_caches w st q cs l o dl do :
  (1 <= capacity (cache st))%Z ->
  exists env outcome,
    fst (process_query w st q cs l o dl do) = with_metrics env (elapsed w) outcome
    /\ Dict.get (cache_key q cs l)
         (_cache (cache (snd (process_query w st q cs l o dl do)))) = Some env
    /\ (Dict.get (cache_key q cs l) (_cache (cache st)) = None -> outcome = "miss").
Proof.
  intros H. destruct (Dict.get (cache_key q cs l) (_cache (cache st))) as [env|] eqn:G.
  - exists env, "hit". rewrite (process_query_hit _ _ _ _ _ _ _ _ _ G). simpl.
    split; [reflexivity|]. split; [now apply get_move_to_end | discriminate].
  - exists (compute w q cs l o dl do), "miss". rewrite (process_query_miss _ _ _ _ _ _ _ _ G).
    simpl. split; [reflexivity|]. split; [now apply lru_get_after_set | reflexivity].
Qed.

End ProcessQuery.

(** ** Stable sorting *)

Section SortBy.
Context {A : Type} (before : A -> A -> bool).

Hypothesis before_asym : forall a b, before a b = true -> before b a = false.
Hypothesis before_trans :
  forall a b c, before b a = false -> before c b = false -> before c a = false.

Lemma insert_by_perm (x : A) (l : list A) : Permutation (insert_by before x l) (x :: l).
Proof.
  induction l as [|y l IH]; simpl; [reflexivity|].
  destruct (before y x); [|reflexivity].
  rewrite IH. apply perm_swap.
Qed.

Lemma sort_by_perm (l : list A) : Permutation (sort_by before l) l.
Proof.
  induction l as [|x l IH]; simpl; [reflexivity|].
  rewrite insert_by_perm. now constructor.
Qed.

Lemma sort_by_length (l : list A) : List.length (sort_by before l) = List.length l.
Proof. apply Permutation_length, sort_by_perm. Qed.

Lemma insert_by_sorted (x : A) (l : list A) :
  StronglySorted (fun a b => before b a = false) l ->
  StronglySorted (fun a b => before b a = false) (insert_by before x l).
Proof.
  induction 1 as [|y l Hs IH Hy]; simpl.
  - repeat constructor.
  - destruct (before y x) eqn:E.
    + constructor; [exact IH|].
      rewrite Forall_forall in *. intros z Hz.
      apply (Permutation_in _ (insert_by_perm x l)) in Hz. destruct Hz as [<-|Hz].
      * now apply before_asym.
      * now apply Hy.
    + constructor; [now constructor|]. constructor; [exact E|].
      rewrite Forall_forall in *. intros z Hz.
      apply (before_trans x y z); [exact E | now apply Hy].
Qed.

Lemma sort_by_sorted (l : list A) :
  StronglySorted (fun a b => before b a = false) (sort_by before l).
Proof.
  induction l as [|x l IH]; simpl; [constructor | now apply insert_by_sorted].
Qed.

(** Entries that [p] selects and that are pairwise tied keep their order. *)
Lemma sort_by_stable (p : A -> bool) (l : list A) :
  (forall x y, p x = true -> p y = true -> before y x = false) ->
  filter p (sort_by before l) = filter p l.
Proof.
  intros Htie.
  assert (Hins : forall x m, filter p (insert_by before x m) = filter p (x :: m)).
  { intros x m. induction m as [|y m IH]; [reflexivity|]. simpl insert_by.
    destruct (before y x) eqn:E; [|reflexivity].
    simpl in *. rewrite IH. destruct (p x) eqn:Px, (p y) eqn:Py; try reflexivity.
    rewrite (Htie x y Px Py) in E. discriminate. }
  induction l as [|x l IH]; simpl; [reflexivity|].
  rewrite Hins. simpl. now rewrite IH.
Qed.

End SortBy.

Section FloatSort.
Context {F : Type} {FO : PyFloat F} {FL : FloatOrder F}.

Lemma sorted_increasing (l : list F) :
  StronglySorted (fun a b => f_lt b a = false) (sorted l).
Proof.
  apply (sort_by_sorted (fun y x => f_lt y x)).
  - apply f_lt_asym.
  - intros a b c H1 H2. exact (f_ge_trans c b a H2 H1).
Qed.

Lemma sort_desc_decreasing {A : Type} (l : list (F * A)) :
  StronglySorted (fun a b => f_lt (fst a) (fst b) = false) (sort_desc l).
Proof.
  apply (sort_by_sorted (fun y x => f_lt (fst x) (fst y))).
  - intros a b. apply f_lt_asym.
  - intros a b c H1 H2. exact (f_ge_trans (fst a) (fst b) (fst c) H1 H2).
Qed.

Lemma sort_desc_stable {A : Type} (s : F) (l : list (F * A)) :
  filter (fun x => same_key s (fst x)) (sort_desc l)
  = filter (fun x => same_key s (fst x)) l.
Proof.
  apply sort_by_stable. intros x y Hx Hy. unfold same_key in *.
  apply andb_prop in Hx, Hy. destruct Hx as [_ Hx], Hy as [Hy _].
  apply negb_true_iff in Hx, Hy. exact (f_ge_trans (fst x) s (fst y) Hx Hy).
Qed.

End FloatSort.

#[export] Instance ZFloat_order : FloatOrder Z.
Proof.
  split; simpl; intros.
  - apply Z.ltb_lt in H. apply Z.ltb_ge. lia.
  - apply Z.ltb_ge in H, H0. apply Z.ltb_ge. lia.
Qed.

Section Idempotence.
Context {F : Type} {FO : PyFloat F}.
Implicit Types (w : world F) (st : state F).

(** C2: two successive calls with the same arguments: the second response
    is a cache hit and agrees with the first on every field but [metrics], in
    particular on [rows] and [results]; the first response is a miss when
    the key was not cached before. *)
Theorem process_query_idempotent w1 w2 st q cs l o dl do :
  (1 <= capacity (cache st))%Z ->
  Dict.get (cache_key q cs l) (_cache (cache st)) = None ->
  let r1 := fst (process_query w1 st q cs l o dl do) in
  let st1 := snd (process_query w1 st q cs l o dl do) in
  let r2 := fst (process_query w2 st1 q cs l o dl do) in
  Dict.get "metrics" r1
  = Some (VDict [("elapsed_sec", VFloat (elapsed w1)); ("cache", VStr "miss")])
  /\ Dict.get "metrics" r2
     = Some (VDict [("elapsed_sec", VFloat (elapsed w2)); ("cache", VStr "hit")])
  /\ Dict.get "rows" r2 = Dict.get "rows" r1
  /\ Dict.get "results" r2 = Dict.get "results" r1
  /\ (forall k, k <> "metrics" -> Dict.get k r2 = Dict.get k r1).
Proof.
  intros Hcap Hnew r1 st1 r2.
  destruct (process_query_caches w1 st q cs l o dl do Hcap) as [env [out [E1 [G Hmiss]]]].
  fold r1 in E1. fold st1 in G.
  assert (E2 : r2 = with_metrics env (elapsed w2) "hit").
  { subst r2. now rewrite (process_query_hit _ _ _ _ _ _ _ _ _ G). }
  rewrite (Hmiss Hnew) in E1.
  assert (Hk : forall k, k <> "metrics" -> Dict.get k r2 = Dict.get k r1).
  { intros k Hk. rewrite E1, E2, !get_with_metrics by exact Hk. reflexivity. }
  repeat split.
  - rewrite E1. apply metrics_with_metrics.
  - rewrite E2. apply metrics_with_metrics.
  - apply Hk. discriminate.
  - apply Hk. discriminate.
  - exact Hk.
Qed.

(** C4: a call that differs from the previous one only in [offset],
    [doc_limit] or [doc_offset] computes the same cache key, so it is a hit
    and returns the envelope of the previous call. *)
Theorem cache_hit_ignores_pagination w1 w2 st q cs l o1 dl1 do1 o2 dl2 do2 :
  (1 <= capacity (cache st))%Z ->
  let r1 := fst (process_query w1 st q cs l o1 dl1 do1) in
  let st1 := snd (process_query w1 st q cs l o1 dl1 do1) in
  let r2 := fst (process_query w2 st1 q cs l o2 dl2 do2) in
  exists env outcome,
    r1 = with_metrics env (elapsed w1) outcome
    /\ Dict.get (cache_key q cs l) (_cache (cache st1)) = Some env
    /\ r2 = with_metrics env (elapsed w2) "hit".
Proof.
  intros Hcap r1 st1 r2.
  destruct (process_query_caches w1 st q cs l o1 dl1 do1 Hcap) as [env [out [E1 [G _]]]].
  exists env, out. split; [exact E1|]. split; [exact G|].
  subst r2. now rewrite (process_query_hit _ _ _ _ _ _ _ _ _ G).
Qed.

End Idempotence.

Lemma process_query_idempotent_witness :
  let r1 := fst (process_query Sample.w (initial_state Z) "show employees" None 50 0 8 0) in
  let st1 := snd (process_query Sample.w (initial_state Z) "show employees" None 50 0 8 0) in
  let r2 := fst (process_query Sample.w_docs st1 "show employees" None 50 0 8 0) in
  Dict.get "metrics" r1
  = Some (VDict [("elapsed_sec", VFloat 3%Z); ("cache", VStr "miss")])
  /\ Dict.get "metrics" r2
     = Some (VDict [("elapsed_sec", VFloat 3%Z); ("cache", VStr "hit")])
  /\ Dict.get "rows" r2 = Dict.get "rows" r1
  /\ Dict.get "results" r2 = Dict.get "results" r1
  /\ (forall k, k <> "metrics" -> Dict.get k r2 = Dict.get k r1).
Proof.
  apply (process_query_idempotent Sample.w Sample.w_docs (initial_state Z)
           "show employees" None 50 0 8 0).
  - simpl. lia.
  - reflexivity.
Defined.

Lemma cache_hit_ignores_pagination_witness :
  let r1 := fst (process_query Sample.w (initial_state Z) "show employees" None 50 0 8 0) in
  let st1 := snd (process_query Sample.w (initial_state Z) "show employees" None 50 0 8 0) in
  let r2 := fst (process_query Sample.w st1 "show employees" None 50 20 3 5) in
  exists env outcome,
    r1 = with_metrics env 3%Z outcome
    /\ Dict.get (cache_key "show employees" None 50) (_cache (cache st1)) = Some env
    /\ r2 = with_metrics env 3%Z "hit".
Proof.
  apply (cache_hit_ignores_pagination Sample.w Sample.w (initial_state Z)
           "show employees" None 50 0 8 0 20 3 5).
  simpl. lia.
Defined.

(** ** History and the latency window *)

Lemma slice_from_last {A : Type} (n : Z) (xs : list A) :
  (0 < n)%Z ->
  slice_from (- n) xs = skipn (List.length xs - Z.to_nat n) xs.
Proof.
  intros H. unfold slice_from. destruct (Z.ltb_spec (- n) 0); [|lia].
  f_equal. lia.
Qed.

Lemma trim_length {A : Type} (n : Z) (xs : list A) :
  (0 < n)%Z -> (Z.of_nat (List.length (trim n xs)) <= n)%Z.
Proof.
  intros H. unfold trim. destruct (Z.ltb_spec n (Z.of_nat (List.length xs))); [|lia].
  rewrite slice_from_last by exact H. rewrite length_skipn. lia.
Qed.

Section History.
Context {F : Type} {FO : PyFloat F}.
Implicit Types (w : world F) (st : state F).

Lemma record_time_window (x : F) (m : metrics_state F) :
  (Z.of_nat (List.length (exec_times (_record_time x m))) <= 500)%Z.
Proof. simpl. apply trim_length. lia. Qed.

(** The miss path trims the history to 100 entries. *)
Lemma history_after_miss w st q cs l o dl do :
  Dict.get (cache_key q cs l) (_cache (cache st)) = None ->
  (List.length (history (snd (process_query w st q cs l o dl do))) <= 100)%nat.
Proof.
  intros H. rewrite (process_query_miss _ _ _ _ _ _ _ _ H). simpl.
  pose proof (trim_length 100
    (history st ++
     [history_entry q (elapsed w)
        (with_metrics (compute w q cs l o dl do) (elapsed w) "miss") "miss"])%list).
  lia.
Qed.

(** The hit path appends and returns without trimming. *)
Lemma history_after_hit w st q cs l o dl do env :
  Dict.get (cache_key q cs l) (_cache (cache st)) = Some env ->
  List.length (history (snd (process_query w st q cs l o dl do)))
  = S (List.length (history st)).
Proof.
  intros H. rewrite (process_query_hit _ _ _ _ _ _ _ _ _ H). simpl.
  rewrite length_app. simpl. lia.
Qed.

(** For a positive [limit], [recent_history] gives the last [limit] entries,
    the most recent first. *)
Lemma recent_history_positive st (limit : Z) :
  (0 < limit)%Z ->
  recent_history st limit
  = rev (skipn (List.length (history st) - Z.to_nat limit) (history st))
  /\ (Z.of_nat (List.length (recent_history st limit)) <= limit)%Z.
Proof.
  intros H. unfold recent_history. rewrite slice_from_last by exact H.
  split; [reflexivity|]. rewrite length_rev, length_skipn. lia.
Qed.

(** [recent_history(0)] gives the whole history. *)
Lemma recent_history_zero st : recent_history st 0 = rev (history st).
Proof. reflexivity. Qed.

End History.

(** C9 (the code departs from it): after one miss and 100 hits of the same
    query the history holds 101 entries. *)
Lemma history_exceeds_100_on_hits :
  List.length (history (Sample.repeat_query 101 (initial_state Z) "show employees"))
  = 101%nat.
Proof. vm_compute. reflexivity. Qed.

(** ** Metrics *)

Lemma int_095_table (n : Z) : (0 <= n <= 500)%Z -> int_095 n = (19 * n / 20)%Z.
Proof.
  intros H.
  assert (T : forallb (fun k => (int_095 (Z.of_nat k) =? 19 * Z.of_nat k / 20)%Z)
                (seq 0 501) = true) by (vm_compute; reflexivity).
  rewrite forallb_forall in T. specialize (T (Z.to_nat n)).
  rewrite Z2Nat.id in T by lia. apply Z.eqb_eq, T, in_seq. lia.
Qed.

Section Metrics.
Context {F : Type} {FO : PyFloat F} {FL : FloatOrder F}.

Lemma sorted_length (l : list F) : List.length (sorted l) = List.length l.
Proof. apply sort_by_length. Qed.

Lemma avg_exec_spec (times : list F) :
  avg_exec times
  = if (Z.of_nat (List.length times) =? 0)%Z then f_zero else f_mean times.
Proof. now destruct times. Qed.

Lemma p95_exec_spec (times : list F) :
  (Z.of_nat (List.length times) <= 500)%Z ->
  p95_exec times
  = if (Z.of_nat (List.length times) =? 0)%Z then f_zero
    else nth (Z.to_nat (Z.min (Z.of_nat (List.length times) - 1)
                          (19 * Z.of_nat (List.length times) / 20)))
           (sorted times) f_zero.
Proof.
  intros H. destruct times as [|t ts]; [reflexivity|].
  assert (N : (Z.of_nat (List.length (t :: ts)) =? 0)%Z = false)
    by (apply Z.eqb_neq; simpl; lia).
  rewrite N.
  change (p95_exec (t :: ts))
    with (nth (Z.to_nat (p95_index (Z.of_nat (List.length (sorted (t :: ts))))))
            (sorted (t :: ts)) f_zero).
  unfold p95_index. rewrite !sorted_length, int_095_table by lia.
  reflexivity.
Qed.

(** C8 (as amended): over a window of [n <= 500] latencies [get_metrics]
    reports as the average the mean of the window and as the 95th percentile
    the element of index [min(n - 1, floor(0.95 * n))] of the sorted copy of
    the window; both are [0.0] for an empty window. *)
Theorem get_metrics_latency (w : world F) (st : state F) :
  let times := exec_times (metrics st) in
  let n := Z.of_nat (List.length times) in
  (n <= 500)%Z ->
  Permutation (sorted times) times
  /\ StronglySorted (fun a b => f_lt b a = false) (sorted times)
  /\ Dict.get "avg_exec_sec" (get_metrics w st)
     = Some (VFloat (if (n =? 0)%Z then f_zero else f_mean times))
  /\ Dict.get "p95_exec_sec" (get_metrics w st)
     = Some (VFloat (if (n =? 0)%Z then f_zero
                     else nth (Z.to_nat (Z.min (n - 1) (19 * n / 20)))
                            (sorted times) f_zero)).
Proof.
  intros times n Hn. split; [apply sort_by_perm|]. split; [apply sorted_increasing|].
  unfold get_metrics. fold times.
  rewrite (avg_exec_spec times), (p95_exec_spec times Hn). fold n.
  destruct (ingest_db w); split; reflexivity.
Qed.

End Metrics.

Lemma get_metrics_latency_witness :
  let times := [5; 3; 9; 1]%Z in
  Permutation (sorted times) times
  /\ StronglySorted (fun a b => f_lt b a = false) (sorted times)
  /\ Dict.get "avg_exec_sec" (get_metrics Sample.w (Sample.state_with_times times))
     = Some (VFloat 4%Z)
  /\ Dict.get "p95_exec_sec" (get_metrics Sample.w (Sample.state_with_times times))
     = Some (VFloat 9%Z).
Proof.
  exact (get_metrics_latency Sample.w (Sample.state_with_times [5; 3; 9; 1]%Z)
           ltac:(simpl; lia)).
Defined.

(** C8, as stated, fails for a window of 20 latencies: the reported
    percentile is the element of index 19 of the sorted copy, not the one of
    index floor(0.95 * 19) = 18. *)
Lemma p95_is_not_at_index_of_n_minus_1 :
  let times := Sample.times_1_to_20 in
  Dict.get "p95_exec_sec" (get_metrics Sample.w (Sample.state_with_times times))
  <> Some (VFloat (nth (Z.to_nat (p95_index_n_minus_1 20)) (sorted times) f_zero)).
Proof. vm_compute. discriminate. Qed.

(** ** Strings *)

Lemma append_nil_r (s : string) : s ++ EmptyString = s.
Proof. induction s; simpl; [reflexivity | now f_equal]. Qed.

Lemma append_assoc (a b c : string) : (a ++ b) ++ c = a ++ b ++ c.
Proof. induction a; simpl; [reflexivity | now f_equal]. Qed.

Lemma length_append (a b : string) :
  String.length (a ++ b) = (String.length a + String.length b)%nat.
Proof. induction a; simpl; [reflexivity | now f_equal]. Qed.

Lemma starts_with_spec (p s : string) :
  Str.starts_with p s = true <-> exists b, s = p ++ b.
Proof.
  revert s. induction p as [|a p IH]; intros s; simpl.
  - split; [intros _; now exists s | reflexivity].
  - destruct s as [|c s].
    + split; [discriminate | intros [b H]; discriminate].
    + rewrite andb_true_iff, IH. split.
      * intros [E [b ->]]. apply Ascii.eqb_eq in E. subst. now exists b.
      * intros [b [= -> ->]]. split; [apply Ascii.eqb_refl | now exists b].
Qed.

Lemma starts_with_append (p b : string) : Str.starts_with p (p ++ b) = true.
Proof. apply starts_with_spec. now exists b. Qed.

Lemma contains_spec (t s : string) : Str.contains t s = true <-> occurs t s.
Proof.
  unfold occurs. induction s as [|c s IH].
  - simpl. rewrite orb_false_r, starts_with_spec. split.
    + intros [b H]. now exists EmptyString, b.
    + intros [a [b H]]. destruct a; [now exists b | discriminate].
  - cbn [Str.contains]. rewrite orb_true_iff, IH, starts_with_spec. split.
    + intros [[b H] | [a [b H]]].
      * now exists EmptyString, b.
      * exists (String c a), b. simpl. now f_equal.
    + intros [a [b H]]. destruct a as [|c' a]; simpl in H.
      * left. now exists b.
      * right. injection H as _ H. now exists a, b.
Qed.

Lemma occurs_inside (t a b : string) : occurs t (a ++ t ++ b).
Proof. now exists a, b. Qed.

Lemma occurs_trans (t s u : string) : occurs t s -> occurs s u -> occurs t u.
Proof.
  intros [a [b ->]] [a' [b' ->]]. exists (a' ++ a), (b ++ b').
  now rewrite !append_assoc.
Qed.

Lemma any_in_spec (keys : list string) (q : string) :
  any_in keys q = true <-> exists k, In k keys /\ occurs k q.
Proof.
  unfold any_in. rewrite existsb_exists.
  split; intros [k [I H]]; exists k; (split; [exact I|]); now apply contains_spec.
Qed.

(** ** The router *)


Lemma last_char_cons (c : ascii) (k : string) : last_char (String c k) <> None.
Proof.
  revert c. induction k as [|d k IH]; intros c; [discriminate|].
  change (last_char (String c (String d k))) with (last_char (String d k)). apply IH.
Qed.

Lemma before_end_cons (p p' : option ascii) (c d : ascii) (k : string) :
  before_end p (String c (String d k)) = before_end p' (String d k).
Proof.
  unfold before_end.
  change (last_char (String c (String d k))) with (last_char (String d k)).
  pose proof (last_char_cons d k). now destruct (last_char (String d k)).
Qed.

Lemma rmatch_lit_iff {X : Type} (k : string) :
  forall (prev : option ascii) (s : string) (g : groups)
         (cont : option ascii -> string -> groups -> option X) (x : X),
    rmatch (lit k) prev s g cont = Some x
    <-> exists s', s = k ++ s' /\ cont (before_end prev k) s' g = Some x.
Proof.
  induction k as [|c k IH]; intros prev s g cont x.
  - simpl. split; [intros H; now exists s | now intros [s' [-> H]]].
  - destruct k as [|d k].
    + cbn [lit rmatch]. unfold before_end. cbn [last_char]. split.
      * destruct s as [|a s]; [discriminate|].
        destruct (Ascii.eqb_spec a c) as [->|]; [|discriminate].
        intros H. now exists s.
      * intros [s' [-> H]]. simpl. now rewrite Ascii.eqb_refl.
    + change (lit (String c (String d k))) with (Cat (Chr c) (lit (String d k))).
      cbn [rmatch]. split.
      * destruct s as [|a s]; [discriminate|].
        destruct (Ascii.eqb_spec a c) as [->|]; [|discriminate].
        intros H. apply IH in H. destruct H as [s' [-> H]]. exists s'.
        split; [reflexivity|]. now rewrite (before_end_cons prev (Some c)).
      * intros [s' [-> H]]. cbn [append]. rewrite Ascii.eqb_refl. apply IH.
        exists s'. split; [reflexivity|].
        now rewrite <- (before_end_cons prev (Some c) c).
Qed.

Lemma rmatch_alts_some {X : Type} (ws : list string) (prev : option ascii)
    (s : string) (g : groups) (cont : option ascii -> string -> groups -> option X)
    (x : X) :
  rmatch (alts ws) prev s g cont = Some x ->
  exists w, In w ws /\ rmatch (lit w) prev s g cont = Some x.
Proof.
  unfold alts. induction ws as [|w ws IH]; simpl.
  - destruct s; discriminate.
  - destruct ws as [|w' ws].
    + intros H. exists w. now split; [left|].
    + cbn [map alt rmatch] in *.
      destruct (rmatch (lit w) prev s g cont) eqn:E.
      * intros [= ->]. exists w. now split; [left|].
      * intros H. destruct (IH H) as [v [I Hv]]. exists v. split; [now right | exact Hv].
Qed.

Lemma rmatch_alts_in {X : Type} (ws : list string) (w : string) (prev : option ascii)
    (s : string) (g : groups) (cont : option ascii -> string -> groups -> option X)
    (x : X) :
  In w ws -> rmatch (lit w) prev s g cont = Some x ->
  exists y, rmatch (alts ws) prev s g cont = Some y.
Proof.
  unfold alts. induction ws as [|v ws IH]; [contradiction|]. intros I H.
  destruct ws as [|v' ws].
  - destruct I as [->|[]]. now exists x.
  - cbn [map alt rmatch] in *.
    destruct (rmatch (lit v) prev s g cont) eqn:E; [now eexists|].
    destruct I as [->|I]; [congruence|]. now apply IH.
Qed.

(** A pattern [\b(w1|...|wn)\b] of words matches at a position exactly when
    one of the words stands there as a word. *)
Lemma match_here_words (ws : list string) (prev : option ascii) (s : string) :
  Forall (fun w => word_opt (head w) = true /\ word_opt (last_char w) = true) ws ->
  match_here (cat [WordB; Grp 1 (alts ws); WordB]) prev s <> None
  <-> exists w b, In w ws /\ s = w ++ b
                  /\ word_opt prev = false /\ word_opt (head b) = false.
Proof.
  intros Hw. rewrite Forall_forall in Hw. unfold match_here. cbn [cat rmatch]. split.
  - destruct (at_boundary prev s) eqn:B; [|congruence].
    destruct (rmatch (alts ws) prev s [] _) as [x|] eqn:E; [|congruence]. intros _.
    apply rmatch_alts_some in E. destruct E as [w [I E]].
    apply rmatch_lit_iff in E. destruct E as [b [-> E]].
    destruct (Hw w I) as [H1 H2].
    exists w, b. split; [exact I|]. split; [reflexivity|].
    unfold at_boundary in B. 
    assert (Hh : head (w ++ b) = head w) by (destruct w; [discriminate | reflexivity]).
    rewrite Hh, H1 in B. split; [now destruct (word_opt prev)|].
    destruct (at_boundary (before_end prev w) b) eqn:B2; [|discriminate].
    unfold at_boundary, before_end in B2.
    destruct (last_char w); [|discriminate]. cbn [word_opt] in H2.
    change (word_opt (Some a)) with (Str.is_word a) in B2. rewrite H2 in B2.
    now destruct (word_opt (head b)).
  - intros [w [b [I [-> [P B]]]]]. destruct (Hw w I) as [H1 H2].
    assert (Hh : head (w ++ b) = head w) by (destruct w; [discriminate | reflexivity]).
    unfold at_boundary at 1. rewrite Hh, H1, P. cbn [xorb].
    destruct (last_char w) as [c|] eqn:La; [|discriminate H2].
    cbn [word_opt] in H2.
    match goal with
    | |- context [rmatch (alts ws) ?p ?s ?g ?k] =>
        assert (E2 : rmatch (lit w) p s g k
                     = Some ([(1%nat, Str.take (String.length (w ++ b) - String.length b)
                                        (w ++ b))], Some c, b))
    end.
    { apply rmatch_lit_iff. exists b. split; [reflexivity|].
      unfold at_boundary, before_end. rewrite La.
      cbn [word_opt]. rewrite H2, B. reflexivity. }
    destruct (rmatch_alts_in ws w _ _ _ _ _ I E2) as [y ->]. discriminate.
Qed.

Lemma last_char_snoc (a : string) (c : ascii) :
  last_char (a ++ String c EmptyString) = Some c.
Proof.
  induction a as [|d a IH]; [reflexivity|]. cbn [append last_char].
  rewrite IH. destruct (a ++ String c EmptyString) eqn:E; [|reflexivity].
  destruct a; discriminate.
Qed.

(** [findall] finds something exactly when the pattern matches at some
    position. *)
Lemma findall_go_nonempty (r : regex) :
  forall fuel prev s,
    (String.length s < fuel)%nat ->
    findall_go fuel r prev s <> []
    <-> exists a b, s = a ++ b
                    /\ match_here r (before_end prev a) b <> None.
Proof.
  induction fuel as [|fuel IH]; intros prev s L; [lia|].
  cbn [findall_go].
  destruct (match_here r prev s) as [[[g p'] s']|] eqn:M.
  - split.
    + intros _. exists EmptyString, s. split; [reflexivity|].
      unfold before_end. cbn [last_char]. congruence.
    + intros _. destruct (String.length s' <? String.length s)%nat; [discriminate|].
      destruct s; discriminate.
  - destruct s as [|c t].
    + split; [congruence|]. intros [a [b [E H]]].
      destruct a; [|discriminate]. simpl in E. subst b.
      unfold before_end in H. cbn [last_char] in H. congruence.
    + cbn [String.length] in L. rewrite IH by lia. split.
      * intros [a [b [-> H]]]. exists (String c a), b. split; [reflexivity|].
        destruct a as [|d a]; [exact H|].
        now rewrite (before_end_cons prev (Some c) c d a).
      * intros [a [b [E H]]]. destruct a as [|c' a].
        { simpl in E. subst b. unfold before_end in H. cbn [last_char] in H.
          congruence. }
        injection E as <- ->. exists a, b. split; [reflexivity|].
        destruct a as [|d a]; [exact H|].
        now rewrite <- (before_end_cons prev (Some c) c d a).
Qed.

Lemma findall_words (ws : list string) (s : string) :
  Forall (fun w => word_opt (head w) = true /\ word_opt (last_char w) = true) ws ->
  findall (cat [WordB; Grp 1 (alts ws); WordB]) s <> []
  <-> exists w, In w ws /\ word_occurs w s.
Proof.
  intros Hw. unfold findall. rewrite findall_go_nonempty by lia. split.
  - intros [a [b [-> H]]]. apply (match_here_words ws _ _ Hw) in H.
    destruct H as [w [b' [I [-> [P B]]]]]. exists w. split; [exact I|].
    exists a, b'. split; [reflexivity|]. split; [|exact B].
    unfold before_end in P. now destruct (last_char a).
  - intros [w [I [a [b [-> [P B]]]]]]. exists a, (w ++ b). split; [reflexivity|].
    apply (match_here_words ws _ _ Hw). exists w, b. repeat split; try assumption.
    unfold before_end. now destruct (last_char a).
Qed.

(** C7: with a structured signal being one of the eight keywords anywhere in
    the lower-cased query or one of the eight skill and role tokens standing
    in it as a word, and a document signal one of the seven document keywords
    anywhere in it, the route is [hybrid] exactly when both signals are
    present, [document] exactly when only the document signal is, and [sql]
    exactly when there is no document signal, that is with only structured
    signals or with none.  The query of the scenario is routed to [sql]; a
    skill token next to a document keyword gives [hybrid], and a token inside
    a longer word does not count. *)
Theorem classify_by_signals (q : string) :
  let structured :=
    (exists k, In k ["employee"; "employees"; "department"; "dept"; "hired"; "salary";
                     "role"; "position"]
               /\ occurs k (Str.lower q))
    \/ (exists t, In t ["python"; "javascript"; "sql"; "nlp"; "ml"; "developer";
                        "engineer"; "manager"]
                  /\ word_occurs t (Str.lower q)) in
  let document :=
    exists k, In k ["resume"; "document"; "pdf"; "contract"; "clause"; "policy";
                    "termination"]
              /\ occurs k (Str.lower q) in
  (_classify q = "hybrid" <-> structured /\ document)
  /\ (_classify q = "sql" <-> (structured /\ ~ document) \/ (~ structured /\ ~ document))
  /\ (_classify q = "document" <-> ~ structured /\ document)
  /\ _classify "Python developers in Marketing" = "sql"
  /\ _classify "Python resume" = "hybrid"
  /\ _classify "developers resume" = "document".
Proof.
  intros structured document.
  assert (D : has_doc q = true <-> document) by apply any_in_spec.
  assert (S : has_sql q = true <-> structured).
  { unfold has_sql, structured. rewrite orb_true_iff, any_in_spec.
    assert (W : Re.findall skill_role_re (Str.lower q) <> []
                <-> exists t, In t ["python"; "javascript"; "sql"; "nlp"; "ml";
                                    "developer"; "engineer"; "manager"]
                              /\ word_occurs t (Str.lower q)).
    { apply findall_words. repeat (apply Forall_cons; [split; reflexivity|]).
      apply Forall_nil. }
    rewrite <- W. destruct (Re.findall skill_role_re (Str.lower q));
      intuition congruence. }
  assert (R : _classify q
              = if has_sql q then if has_doc q then "hybrid" else "sql"
                else if has_doc q then "document" else "sql").
  { unfold _classify. now destruct (has_sql q), (has_doc q). }
  rewrite R. clear R.
  split; [|split; [|split; [|split; [|split]]]]; try reflexivity.
  all: destruct (has_sql q), (has_doc q).
  all: try (split; [discriminate|]).
  all: try (split; [intros _|reflexivity]).
  all: intuition (try discriminate; try congruence).
Qed.

(** ** The entity guard *)

Lemma missing_entity_found (qn : string) (tables : list string) (kw table : string) :
  In (kw, table) entity_tables ->
  Re.found (Re.word kw) qn = true ->
  Str.mem table tables = false ->
  exists t, missing_entity qn tables = Some t /\ Str.mem t tables = false.
Proof.
  intros I Hf Hm. unfold missing_entity.
  destruct (find _ entity_tables) as [[k t]|] eqn:E.
  - exists t. split; [reflexivity|]. apply find_some in E. destruct E as [_ E].
    simpl in E. apply andb_prop in E. destruct E as [_ E]. now apply negb_true_iff.
  - exfalso. apply (find_none _ _ E) in I. simpl in I. now rewrite Hf, Hm in I.
Qed.

Section EntityGuard.
Context {F : Type} {FO : PyFloat F}.

(** C1: when the normalised query contains an entity keyword as a word and
    the table of that keyword is not in the connected schema, [_run_sql]
    returns the [sql] envelope with a missing-entity error, [rows] empty and
    [sql] set to [None], and no statement is executed. *)
Theorem run_sql_missing_entity (w : world F) (q : string) (cs : option string)
    (limit offset : Z) (intent : string) (db : database F) (m : mapping)
    (kw table : string) :
  connect w (str_or cs (default_url w)) = Ok db ->
  _detect_schema db = Ok m ->
  In (kw, table) entity_tables ->
  Re.found (Re.word kw) (_normalize_tokens q) = true ->
  Str.mem table (db_tables db) = false ->
  exists t env,
    _run_sql w q cs limit offset intent = (Ok env, [])
    /\ Str.mem t (db_tables db) = false
    /\ Dict.get "type" env = Some (VStr "sql")
    /\ Dict.get "error" env
       = Some (VStr ("error: not present in your database (missing entity: '"
                     ++ t ++ "')"))
    /\ Dict.get "rows" env = Some (VList [])
    /\ Dict.get "sql" env = Some VNone
    /\ Dict.get "warning" env = None.
Proof.
  intros Hc Hd Hin Hf Hm.
  destruct (missing_entity_found _ _ _ _ Hin Hf Hm) as [t [E Ht]].
  exists t, (missing_entity_error t). unfold _run_sql. rewrite Hc.
  destruct (_infer_filters (_normalize_tokens q)) as [where_ params].
  rewrite Hd, E. repeat split; assumption.
Qed.

End EntityGuard.

Lemma run_sql_missing_entity_witness :
  exists t env,
    _run_sql Sample.w "List all Vendors" None 50 0 "select" = (Ok env, [])
    /\ Str.mem t (db_tables Sample.plain_db) = false
    /\ Dict.get "type" env = Some (VStr "sql")
    /\ Dict.get "error" env
       = Some (VStr ("error: not present in your database (missing entity: '"
                     ++ t ++ "')"))
    /\ Dict.get "rows" env = Some (VList [])
    /\ Dict.get "sql" env = Some VNone
    /\ Dict.get "warning" env = None.
Proof.
  apply (run_sql_missing_entity Sample.w "List all Vendors" None 50 0 "select"
           Sample.plain_db
           {| emp_table := "employees"; dept_table := Some "departments";
              emp := {| e_id := "emp_id"; e_name := "full_name"; e_email := None;
                        e_position := Some "position";
                        e_salary := Some "annual_salary";
                        e_hire_date := Some "join_date"; e_skills := None;
                        e_dept_fk := Some "dept_id"; e_reports_to := None |};
              dept := Some {| d_id := "dept_id"; d_name := "dept_name" |} |}
           "vendors" "vendors").
  - reflexivity.
  - reflexivity.
  - simpl. tauto.
  - reflexivity.
  - reflexivity.
Defined.

(** ** Pagination parameters *)

Section Pagination.
Context {F : Type} {FO : PyFloat F}.
Implicit Types (p : dict F).

Lemma clamped_unbound intent limit offset p :
  Dict.get "limit" p = None -> Dict.get "offset" p = None ->
  intent <> "find_one" ->
  clamped intent limit offset None p.
Proof.
  intros Hl Ho Hi. unfold clamped. rewrite Hl, Ho.
  repeat split; try discriminate. intros E. contradiction.
Qed.

Lemma clamped_topn intent limit offset p (n : Z) :
  clamped intent limit offset None p ->
  clamped intent limit offset None (Dict.set "topn" (VInt n) p).
Proof.
  unfold clamped. rewrite !get_set_other by discriminate. tauto.
Qed.

Lemma clamped_both intent limit offset p (c : option string) (x y : Z) :
  y = sql_limit intent limit -> x = sql_offset intent offset ->
  (truthy c = false -> intent <> "find_one") ->
  clamped intent limit offset c
    (Dict.set "offset" (VInt x) (Dict.set "limit" (VInt y) p)).
Proof.
  intros -> -> Hc. unfold clamped.
  rewrite get_set_same, get_set_other, get_set_same by discriminate.
  repeat split; try congruence.
  intros E. destruct (truthy c); [reflexivity | now destruct Hc].
Qed.

Lemma clamped_both_topn intent limit offset p (x y n : Z) :
  y = sql_limit intent limit -> x = sql_offset intent offset ->
  intent <> "find_one" ->
  clamped intent limit offset None
    (Dict.set "topn" (VInt n) (Dict.set "offset" (VInt x) (Dict.set "limit" (VInt y) p))).
Proof.
  intros Hy Hx Hi. apply clamped_topn, clamped_both; auto.
Qed.

Ltac clamp Hl Ho :=
  cbn [fst snd];
  first
    [ apply clamped_both_topn; [reflexivity | reflexivity | discriminate]
    | apply clamped_both;
      [reflexivity | reflexivity
      | first [intros _; discriminate | intros E; simpl in E; discriminate E]]
    | apply clamped_topn, clamped_unbound; [exact Hl | exact Ho | discriminate]
    | apply clamped_unbound; [exact Hl | exact Ho | discriminate] ].

Lemma build_sql_clamped (m : mapping) (qn intent : string) (limit offset : Z)
    (where_ : string) p :
  Dict.get "limit" p = None -> Dict.get "offset" p = None ->
  let r := build_sql m qn intent limit offset where_ p in
  clamped intent limit offset (snd (fst r)) (snd r).
Proof.
  intros Hl Ho. unfold build_sql, listing_or_base, add_where, shape.
  destruct (Re.found _ qn && negb (Re.found _ qn)) eqn:Dept.
  all: cbv beta iota zeta.
  all: destruct (nonempty _ && negb (Re.found from_departments_re _)).
  all: cbv beta iota zeta.
  all: destruct (String.eqb_spec intent "avg_by_dept") as [->|Ha].
  all: try (destruct (dept_pair m) as [[dt d]|]).
  all: cbv beta iota zeta.
  all: try (clamp Hl Ho).
  all: destruct (String.eqb_spec intent "count") as [Hc|Hc]; try discriminate Hc;
    try subst intent.
  all: try (clamp Hl Ho).
  all: destruct (String.eqb_spec intent "top_paid_each_dept") as [Ht|Ht];
    try discriminate Ht; try subst intent.
  all: cbv beta iota zeta.
  all: try (clamp Hl Ho).
  all: destruct (String.eqb_spec intent "departments_list") as [Hd|Hd];
    try discriminate Hd; try subst intent.
  all: try (destruct (truthy (dept_table m))).
  all: cbv beta iota zeta; cbn [andb].
  all: try (clamp Hl Ho).
Qed.

Lemma skill_loop_safe (skills : list string) :
  forall i, safe_keys (snd (skill_loop (F := F) i skills)).
Proof.
  induction skills as [|sk rest IH]; intros i; simpl; [constructor|].
  specialize (IH (S i)). destruct (skill_loop (S i) rest) as [ws ps].
  constructor; [split; discriminate | exact IH].
Qed.

Lemma pos_loop_safe (pos : list string) :
  forall i, safe_keys (snd (pos_loop (F := F) i pos)).
Proof.
  induction pos as [|x rest IH]; intros i; simpl; [constructor|].
  specialize (IH (S i)). destruct (pos_loop (S i) rest) as [ws ps].
  constructor; [split; discriminate | exact IH].
Qed.

Ltac step_safe :=
  repeat match goal with
         | |- context [match ?x with _ => _ end] => destruct x
         end;
  cbn [snd no_step]; repeat constructor; cbn [fst]; discriminate.

Lemma filter_steps_safe (q : string) :
  Forall (fun st : filter_step (F := F) => safe_keys (snd st)) (filter_steps q).
Proof.
  unfold filter_steps, missing_steps. cbn [app].
  repeat (apply Forall_cons || apply Forall_nil).
  all: unfold safe_keys.
  all: try (unfold step_this_year, step_year_in, step_year_after, step_year_before,
            step_year_between, step_reports_to, step_id, step_email,
            step_missing_email, step_missing, step_department, step_name;
            step_safe).
  - apply skill_loop_safe.
  - unfold step_position. destruct (Re.findall position_re q) as [|x pos];
      [constructor|].
    pose proof (pos_loop_safe (x :: pos) 0) as H.
    destruct (pos_loop 0 (x :: pos)) as [cs ps]. exact H.
Qed.

Lemma assign_all_absent (k : string) (kvs : list (string * value F)) :
  forall d : dict F,
    Dict.get k d = None -> Forall (fun kv => fst kv <> k) kvs ->
    Dict.get k (assign_all kvs d) = None.
Proof.
  unfold assign_all. induction kvs as [|[k' v] kvs IH]; intros d Hd Hk; simpl.
  - exact Hd.
  - inversion Hk as [|? ? Hne Hk']; subst. apply IH; [|exact Hk'].
    rewrite get_set_other; [exact Hd | simpl in Hne; congruence].
Qed.

Lemma infer_filters_keys (q : string) :
  Dict.get "limit" (snd (_infer_filters (F := F) q)) = None
  /\ Dict.get "offset" (snd (_infer_filters (F := F) q)) = None.
Proof.
  assert (S : safe_keys (List.concat (map snd (filter_steps (F := F) q)))).
  { pose proof (filter_steps_safe q) as H. unfold safe_keys in *.
    induction H as [|st l Hs _ IH]; simpl; [constructor|].
    apply Forall_app. split; [exact Hs | exact IH]. }
  unfold _infer_filters. cbn [snd].
  split; apply assign_all_absent; try reflexivity.
  all: eapply Forall_impl; [|exact S]; simpl; tauto.
Qed.

End Pagination.

Section Clamping.
Context {F : Type} {FO : PyFloat F}.

Lemma bound_unbound (name : string) (env : dict F) (v : Z) :
  unbound env -> bound name env v.
Proof. intros [H1 [H2 _]] x. rewrite H1, H2. intros [H|H]; discriminate H. Qed.

Lemma sub_dict_params (sql : string) (ps : dict F) (data : list (dict F))
    (pg : value F) :
  sub_dict "params" (sql_envelope sql ps data pg) = ps.
Proof. reflexivity. Qed.

Lemma sub_dict_pagination (sql : string) (ps : dict F) (data : list (dict F))
    (pg : value F) :
  sub_dict "pagination" (sql_envelope sql ps data pg)
  = match pg with VDict d => d | _ => [] end.
Proof. reflexivity. Qed.

(** What an envelope of [execute] binds and reports. *)
Lemma execute_clamped (db : database F) (sql : string) (count_sql : option string)
    (ps : dict F) (intent : string) (limit offset : Z) (env : dict F) :
  clamped intent limit offset count_sql ps ->
  fst (execute db sql count_sql ps) = Ok env ->
  bound "limit" env (sql_limit intent limit)
  /\ bound "offset" env (sql_offset intent offset)
  /\ (intent = "find_one" ->
      Dict.get "limit" (sub_dict "params" env) = Some (VInt 1)
      /\ Dict.get "offset" (sub_dict "params" env) = Some (VInt 0)
      /\ Dict.get "limit" (sub_dict "pagination" env) = Some (VInt 1)
      /\ Dict.get "offset" (sub_dict "pagination" env) = Some (VInt 0)).
Proof.
  intros [Hl [Ho [Hc Hf]]] He. unfold execute in He.
  destruct count_sql as [[|c cs]|].
  - destruct (db_execute db sql ps) as [data|]; [|discriminate He].
    injection He as <-. unfold bound. rewrite sub_dict_params, sub_dict_pagination.
    repeat split.
    + intros x [H|H]; [now apply Hl | discriminate H].
    + intros x [H|H]; [now apply Ho | discriminate H].
    + specialize (Hf H). discriminate Hf.
    + specialize (Hf H). discriminate Hf.
    + specialize (Hf H). discriminate Hf.
    + specialize (Hf H). discriminate Hf.
  - destruct (Hc eq_refl) as [Gl Go].
    destruct (db_execute db (String c cs) ps) as [counted|]; [|discriminate He].
    destruct (scalar_one counted) as [total|]; [|discriminate He].
    destruct (db_execute db sql ps) as [data|]; [|discriminate He].
    injection He as <-. unfold bound. rewrite sub_dict_params, sub_dict_pagination.
    unfold get_or. rewrite Gl, Go.
    assert (E1 : intent = "find_one" -> sql_limit intent limit = 1%Z)
      by (intros ->; reflexivity).
    assert (E0 : intent = "find_one" -> sql_offset intent offset = 0%Z)
      by (intros ->; reflexivity).
    repeat split.
    + intros x [H|H]; [| simpl in H]; injection H as <-; reflexivity.
    + intros x [H|H]; [| simpl in H]; injection H as <-; reflexivity.
    + now rewrite <- (E1 H).
    + now rewrite <- (E0 H).
    + simpl. now rewrite (E1 H).
    + simpl. now rewrite (E0 H).
  - destruct (db_execute db sql ps) as [data|]; [|discriminate He].
    injection He as <-. unfold bound. rewrite sub_dict_params, sub_dict_pagination.
    repeat split.
    + intros x [H|H]; [now apply Hl | discriminate H].
    + intros x [H|H]; [now apply Ho | discriminate H].
    + specialize (Hf H). discriminate Hf.
    + specialize (Hf H). discriminate Hf.
    + specialize (Hf H). discriminate Hf.
    + specialize (Hf H). discriminate Hf.
Qed.

Lemma resolve_columns_early (e : emp_map) (where_ : string) (env : dict F) :
  resolve_columns e where_ = inl env -> env = email_column_error.
Proof.
  unfold resolve_columns. cbv zeta.
  destruct (Str.contains "E_EMAIL_COL" _ && negb (truthy (e_email e))); congruence.
Qed.

Lemma resolve_markers_early (e : emp_map) (where_ : string) (env : dict F) :
  resolve_markers e where_ = inl env -> env = email_warning.
Proof.
  unfold resolve_markers. cbv zeta.
  destruct (Str.contains "EMAIL_IS_MISSING" _ && negb (truthy (e_email e))); congruence.
Qed.

(** The envelopes of [_run_sql]: an early return or the result of
    [execute] on what [build_sql] produced. *)
Lemma run_sql_cases (w : world F) (q : string) (cs : option string)
    (limit offset : Z) (intent : string) (env : dict F) :
  fst (_run_sql w q cs limit offset intent) = Ok env ->
  unbound env
  \/ (exists db m where_,
        let qn := _normalize_tokens q in
        let r := build_sql m qn (effective_intent w qn intent) limit offset where_
                   (snd (_infer_filters qn)) in
        fst (execute db (fst (fst r)) (snd (fst r)) (snd r)) = Ok env).
Proof.
  unfold _run_sql. destruct (connect w _) as [db|]; [|discriminate].
  destruct (_infer_filters (_normalize_tokens q)) as [where0 params] eqn:EF.
  destruct (_detect_schema db) as [m|]; [|discriminate].
  destruct (missing_entity _ _) as [t|].
  { intros [= <-]. left. repeat split. }
  destruct (resolve_columns (emp m) where0) as [e1|where1] eqn:E1.
  { apply resolve_columns_early in E1. subst. intros [= <-]. left. repeat split. }
  destruct (resolve_markers (emp m) where1) as [e2|where2] eqn:E2.
  { apply resolve_markers_early in E2. subst. intros [= <-]. left. repeat split. }
  intros H. right. exists db, m, where2. cbv zeta. cbn [snd].
  destruct (build_sql m _ _ limit offset where2 params) as [[sql count_sql] ps].
  exact H.
Qed.

End Clamping.

Section Clamped.
Context {F : Type} {FO : PyFloat F}.

Lemma run_sql_clamped (w : world F) (q : string) (cs : option string)
    (limit offset : Z) (intent : string) (env : dict F) :
  fst (_run_sql w q cs limit offset intent) = Ok env ->
  let eff := effective_intent w (_normalize_tokens q) intent in
  bound "limit" env (sql_limit eff limit)
  /\ bound "offset" env (sql_offset eff offset)
  /\ (eff = "find_one" ->
      forall stmt, Dict.get "sql" env = Some (VStr stmt) ->
      Dict.get "limit" (sub_dict "params" env) = Some (VInt 1)
      /\ Dict.get "offset" (sub_dict "params" env) = Some (VInt 0)
      /\ Dict.get "limit" (sub_dict "pagination" env) = Some (VInt 1)
      /\ Dict.get "offset" (sub_dict "pagination" env) = Some (VInt 0)).
Proof.
  intros H eff. apply run_sql_cases in H. destruct H as [U | [db [m [where_ H]]]].
  - split; [now apply bound_unbound|]. split; [now apply bound_unbound|].
    intros _ stmt Hs. destruct U as [_ [_ U]]. congruence.
  - cbv zeta in H. fold eff in H.
    destruct (infer_filters_keys (F := F) (_normalize_tokens q)) as [Kl Ko].
    pose proof (build_sql_clamped m (_normalize_tokens q) eff limit offset where_ _ Kl Ko)
      as C.
    cbv zeta in C.
    destruct (execute_clamped _ _ _ _ _ _ _ _ C H) as [B1 [B2 B3]].
    split; [exact B1|]. split; [exact B2|]. intros E stmt _. now apply B3.
Qed.

Lemma search_documents_clamped (w : world F) (q : string) (top_k offset : Z)
    (env : dict F) :
  _search_documents w q top_k offset = Ok env ->
  bound "limit" env (Z.max 1 top_k)
  /\ bound "offset" env (Z.max 0 offset)
  /\ (ingest_db w <> None ->
      Dict.get "limit" (sub_dict "pagination" env) = Some (VInt (Z.max 1 top_k))
      /\ Dict.get "offset" (sub_dict "pagination" env) = Some (VInt (Z.max 0 offset))).
Proof.
  unfold _search_documents. destruct (ingest_db w) as [stored|].
  - destruct (encode w q) as [q_vec|]; [|discriminate].
    destruct stored as [rows|]; [|discriminate].
    destruct (score_rows q_vec rows) as [results|]; [|discriminate].
    intros [= <-]. unfold bound, sub_dict. simpl. repeat split.
    + intros x [H|H]; [discriminate H | now injection H as <-].
    + intros x [H|H]; [discriminate H | now injection H as <-].
  - intros [= <-]. unfold bound, sub_dict. simpl. repeat split.
    + intros x [H|H]; discriminate H.
    + intros x [H|H]; discriminate H.
    + contradiction.
    + contradiction.
Qed.

End Clamped.

Section Listed.
Context {F : Type} {FO : PyFloat F}.

(** Every intent other than the four aggregate ones gets the listing shape,
    which has a count statement. *)
Lemma build_sql_counts (m : mapping) (qn intent : string) (limit offset : Z)
    (where_ : string) (p : dict F) :
  Str.mem intent aggregate_intents = false ->
  truthy (snd (fst (build_sql m qn intent limit offset where_ p))) = true.
Proof.
  unfold Str.mem, aggregate_intents. cbn [existsb]. intros H.
  repeat (apply orb_false_elim in H; destruct H as [?E H]).
  unfold build_sql.
  destruct (listing_or_base m qn limit offset where_ p) as [[sql1 w1] p1].
  destruct (add_where m sql1 w1) as [sql2 w2].
  unfold shape. cbv zeta. rewrite E, E0, E1, E2. reflexivity.
Qed.

(** An envelope of [execute] has a pagination exactly when there was a count
    statement, and then binds and reports the clamped values. *)
Lemma execute_listed (db : database F) (sql : string) (count_sql : option string)
    (ps : dict F) (intent : string) (limit offset : Z) (env : dict F) :
  clamped intent limit offset count_sql ps ->
  fst (execute db sql count_sql ps) = Ok env ->
  truthy count_sql = true \/ (exists pg, Dict.get "pagination" env = Some (VDict pg)) ->
  listed env (sql_limit intent limit) (sql_offset intent offset).
Proof.
  intros [Hl [Ho [Hc Hf]]] He. unfold execute in He.
  destruct count_sql as [[|c cs]|].
  - destruct (db_execute db sql ps) as [data|]; [|discriminate He].
    injection He as <-. intros [T|[pg T]]; discriminate T.
  - destruct (Hc eq_refl) as [Gl Go].
    destruct (db_execute db (String c cs) ps) as [counted|]; [|discriminate He].
    destruct (scalar_one counted) as [total|]; [|discriminate He].
    destruct (db_execute db sql ps) as [data|]; [|discriminate He].
    injection He as <-. intros _. unfold listed.
    rewrite sub_dict_params, sub_dict_pagination. unfold get_or. rewrite Gl, Go.
    repeat split; assumption.
  - destruct (db_execute db sql ps) as [data|]; [|discriminate He].
    injection He as <-. intros [T|[pg T]]; discriminate T.
Qed.

Lemma run_sql_listed (w : world F) (q : string) (cs : option string)
    (limit offset : Z) (intent : string) (env : dict F) (stmt : string) :
  fst (_run_sql w q cs limit offset intent) = Ok env ->
  Dict.get "sql" env = Some (VStr stmt) ->
  let eff := effective_intent w (_normalize_tokens q) intent in
  Str.mem eff aggregate_intents = false
  \/ (exists pg, Dict.get "pagination" env = Some (VDict pg)) ->
  listed env (sql_limit eff limit) (sql_offset eff offset).
Proof.
  intros H Hs eff Hp. apply run_sql_cases in H.
  destruct H as [U | [db [m [where_ H]]]].
  - destruct U as [_ [_ U]]. congruence.
  - cbv zeta in H. fold eff in H.
    destruct (infer_filters_keys (F := F) (_normalize_tokens q)) as [Kl Ko].
    pose proof (build_sql_clamped m (_normalize_tokens q) eff limit offset where_ _ Kl Ko)
      as C.
    cbv zeta in C. apply (execute_listed _ _ _ _ _ _ _ _ C H).
    destruct Hp as [Hp|Hp]; [left | now right].
    now apply build_sql_counts.
Qed.

Lemma search_documents_page (w : world F) (q : string) (top_k offset : Z)
    (env : dict F) (results : list (value F)) :
  _search_documents w q top_k offset = Ok env ->
  Dict.get "results" env = Some (VList results) ->
  (Z.of_nat (List.length results) <= Z.max 1 top_k)%Z.
Proof.
  unfold _search_documents. destruct (ingest_db w) as [stored|].
  - destruct (encode w q) as [q_vec|]; [|discriminate].
    destruct stored as [rows|]; [|discriminate].
    destruct (score_rows q_vec rows) as [scored|]; [|discriminate].
    intros [= <-]. cbn [Dict.get]. simpl. intros [= <-].
    rewrite length_map. unfold slice. rewrite length_firstn. lia.
  - intros [= <-]. simpl. intros [= <-]. simpl. lia.
Qed.

(** C10: an envelope of [_run_sql] that names a statement binds [limit]
    and [offset] and reports them in its pagination whenever the effective
    intent is none of the four aggregate intents, and whenever it has a
    pagination at all; the values are [max(1, limit)] and [max(0, offset)],
    hence 1 for a requested page size below 1 and 0 for a negative offset,
    and with the intent [find_one] they are 1 and 0 whatever was requested.
    Nowhere does an envelope bind or report another value.
    [_search_documents] reports [max(1, top_k)] and [max(0, offset)] whenever
    there is a store, and returns at most [max(1, top_k)] results. *)
Theorem pagination_clamped :
  (forall (w : world F) (q : string) (cs : option string) (limit offset : Z)
          (intent : string) (env : dict F),
      fst (_run_sql w q cs limit offset intent) = Ok env ->
      let eff := effective_intent w (_normalize_tokens q) intent in
      let find_one := String.eqb eff "find_one" in
      let lim := Z.max 1 (if find_one then 1 else limit) in
      let off := Z.max 0 (if find_one then 0 else offset) in
      bound "limit" env lim
      /\ bound "offset" env off
      /\ ((limit < 1)%Z -> bound "limit" env 1)
      /\ ((offset < 0)%Z -> bound "offset" env 0)
      /\ (find_one = true ->
          bound "limit" env 1 /\ bound "offset" env 0
          /\ forall stmt, Dict.get "sql" env = Some (VStr stmt) ->
             Dict.get "limit" (sub_dict "params" env) = Some (VInt 1)
             /\ Dict.get "offset" (sub_dict "params" env) = Some (VInt 0)
             /\ Dict.get "limit" (sub_dict "pagination" env) = Some (VInt 1)
             /\ Dict.get "offset" (sub_dict "pagination" env) = Some (VInt 0))
      /\ (forall stmt,
            Dict.get "sql" env = Some (VStr stmt) ->
            Str.mem eff ["avg_by_dept"; "count"; "top_paid_each_dept";
                         "departments_list"] = false
            \/ (exists pg, Dict.get "pagination" env = Some (VDict pg)) ->
            listed env lim off
            /\ ((limit < 1)%Z -> listed env 1 off)
            /\ ((offset < 0)%Z -> listed env lim 0)))
  /\ (forall (w : world F) (q : string) (top_k offset : Z) (env : dict F),
        _search_documents w q top_k offset = Ok env ->
        bound "limit" env (Z.max 1 top_k)
        /\ bound "offset" env (Z.max 0 offset)
        /\ ((top_k < 1)%Z -> bound "limit" env 1)
        /\ ((offset < 0)%Z -> bound "offset" env 0)
        /\ (ingest_db w <> None ->
            Dict.get "limit" (sub_dict "pagination" env) = Some (VInt (Z.max 1 top_k))
            /\ Dict.get "offset" (sub_dict "pagination" env)
               = Some (VInt (Z.max 0 offset)))
        /\ (forall results,
              Dict.get "results" env = Some (VList results) ->
              (Z.of_nat (List.length results) <= Z.max 1 top_k)%Z)).
Proof.
  split.
  - intros w q cs limit offset intent env H eff find_one lim off.
    destruct (run_sql_clamped w q cs limit offset intent env H) as [B1 [B2 B3]].
    unfold sql_limit, sql_offset in B1, B2. fold eff find_one lim off in B1, B2.
    split; [exact B1|]. split; [exact B2|]. split; [|split; [|split]].
    + intros L. replace 1%Z with lim by (unfold lim; destruct find_one; lia). exact B1.
    + intros L. replace 0%Z with off by (unfold off; destruct find_one; lia). exact B2.
    + intros E. unfold lim, off in B1, B2. rewrite E in B1, B2.
      split; [exact B1|]. split; [exact B2|].
      apply B3. now apply String.eqb_eq.
    + intros stmt Hs Hp.
      pose proof (run_sql_listed w q cs limit offset intent env stmt H Hs Hp) as K.
      unfold sql_limit, sql_offset in K. fold eff find_one lim off in K.
      split; [exact K|]. split; intros L.
      * replace 1%Z with lim by (unfold lim; destruct find_one; lia). exact K.
      * replace 0%Z with off by (unfold off; destruct find_one; lia). exact K.
  - intros w q top_k offset env H.
    destruct (search_documents_clamped w q top_k offset env H) as [B1 [B2 B3]].
    split; [exact B1|]. split; [exact B2|]. split; [|split; [|split; [exact B3|]]].
    + intros L. replace 1%Z with (Z.max 1 top_k) by lia. exact B1.
    + intros L. replace 0%Z with (Z.max 0 offset) by lia. exact B2.
    + intros results. now apply (search_documents_page w q top_k offset env).
Qed.

End Listed.

Lemma pagination_clamped_witness :
  (exists env,
     fst (_run_sql Sample.w "show employees" None 0 (-4) "select") = Ok env
     /\ listed env 1 0)
  /\ fst (_run_sql Sample.w "which employee has id 7" None 0 (-4) "find_one")
     = Ok Sample.find_one_env
  /\ Dict.get "limit" (sub_dict "pagination" Sample.find_one_env) = Some (VInt 1)
  /\ Dict.get "offset" (sub_dict "pagination" Sample.find_one_env) = Some (VInt 0).
Proof.
  split.
  - destruct (fst (_run_sql Sample.w "show employees" None 0 (-4) "select"))
      as [env|msg] eqn:R; [|vm_compute in R; discriminate R].
    exists env. split; [reflexivity|].
    destruct (proj1 (pagination_clamped (F := Z)) _ _ _ _ _ _ _ R)
      as [_ [_ [_ [_ [_ H]]]]].
    assert (S : exists stmt, Dict.get "sql" env = Some (VStr stmt)).
    { vm_compute in R. injection R as <-. eexists. reflexivity. }
    destruct S as [stmt S].
    destruct (H stmt S) as [K _]; [left; vm_compute; reflexivity|].
    exact K.
  - assert (R : fst (_run_sql Sample.w "which employee has id 7" None 0 (-4) "find_one")
                = Ok Sample.find_one_env) by (vm_compute; reflexivity).
    split; [exact R|].
    destruct (proj1 (pagination_clamped (F := Z)) _ _ _ _ _ _ _ R)
      as [_ [_ [_ [_ [H _]]]]].
    assert (E : String.eqb
                  (effective_intent Sample.w
                     (_normalize_tokens "which employee has id 7") "find_one")
                  "find_one" = true) by (vm_compute; reflexivity).
    destruct (H E) as [_ [_ H']].
    destruct (H' _ eq_refl) as [_ [_ [H1 H2]]]. split; [exact H1 | exact H2].
Defined.

(** ** Document search *)

Section Search.
Context {F : Type} {FO : PyFloat F}.

Lemma frombuffer_length (n : nat) :
  forall blob : list Byte.byte,
    List.length blob = (4 * n)%nat ->
    exists v, frombuffer blob = Ok v /\ List.length v = n.
Proof.
  induction n as [|n IH]; intros blob H.
  - destruct blob; [|discriminate H]. now exists [].
  - destruct blob as [|a [|b [|c [|d rest]]]]; simpl in H; try lia.
    destruct (IH rest) as [v [E L]]; [lia|].
    exists (f32 a b c d :: v). simpl. rewrite E. split; [reflexivity | now rewrite L].
Qed.

Lemma frombuffer_well_formed (c : chunk_row F) :
  (List.length (c_embedding c) mod 4 = 0)%nat ->
  frombuffer (c_embedding c) = Ok (vector_of c)
  /\ List.length (vector_of c) = vec_len c.
Proof.
  intros H. unfold vector_of, vec_len.
  destruct (frombuffer_length (List.length (c_embedding c) / 4) (c_embedding c))
    as [v [E L]].
  - pose proof (Nat.div_mod_eq (List.length (c_embedding c)) 4). lia.
  - rewrite E. split; [reflexivity | exact L].
Qed.

Lemma dim_differs_survives (c : chunk_row F) :
  List.length (vector_of c) = vec_len c ->
  dim_differs (vector_of c) (c_dim c) = negb (survives c).
Proof.
  intros L. unfold dim_differs, survives. rewrite L. now destruct (c_dim c).
Qed.

(** On well-formed blobs whose surviving vectors have the length of the
    query vector the loop raises nothing and scores the survivors. *)
Lemma score_rows_scored (q_vec : list F) (rows : list (chunk_row F)) :
  Forall (fun c => (List.length (c_embedding c) mod 4 = 0)%nat) rows ->
  Forall (fun c => survives c = true -> vec_len c = List.length q_vec) rows ->
  score_rows q_vec rows = Ok (scored q_vec rows).
Proof.
  unfold scored. induction rows as [|c rows IH]; intros Hw Hs; [reflexivity|].
  inversion Hw as [|? ? Hc Hw']; inversion Hs as [|? ? Hd Hs']; subst.
  destruct (frombuffer_well_formed c Hc) as [E L].
  cbn [score_rows filter]. rewrite E, (dim_differs_survives c L).
  destruct (survives c) eqn:S; cbn [negb].
  - unfold dot. rewrite L, (Hd eq_refl), Nat.eqb_refl, (IH Hw' Hs'). reflexivity.
  - now apply IH.
Qed.

End Search.

(** ** Sorting and mapping *)

Lemma insert_by_map {A B : Type} (g : A -> B) (bA : A -> A -> bool)
    (bB : B -> B -> bool) :
  (forall x y, bB (g x) (g y) = bA x y) ->
  forall x l, insert_by bB (g x) (map g l) = map g (insert_by bA x l).
Proof.
  intros H x l. induction l as [|y l IH]; [reflexivity|].
  cbn [map insert_by]. rewrite H. destruct (bA y x); [|reflexivity].
  cbn [map]. now rewrite IH.
Qed.

Lemma sort_by_map {A B : Type} (g : A -> B) (bA : A -> A -> bool)
    (bB : B -> B -> bool) :
  (forall x y, bB (g x) (g y) = bA x y) ->
  forall l, sort_by bB (map g l) = map g (sort_by bA l).
Proof.
  intros H l. induction l as [|x l IH]; [reflexivity|].
  cbn [map sort_by fold_right]. fold (sort_by bB (map g l)). fold (sort_by bA l).
  rewrite IH. now apply insert_by_map.
Qed.

Lemma slice_map {A B : Type} (g : A -> B) (start count : Z) (l : list A) :
  slice start count (map g l) = map g (slice start count l).
Proof. unfold slice. now rewrite skipn_map, firstn_map. Qed.

Section Ranked.
Context {F : Type} {FO : PyFloat F}.

Lemma frombuffer_ragged (n : nat) :
  forall blob : list Byte.byte,
    (List.length blob < 4 * S n)%nat -> (List.length blob mod 4 <> 0)%nat ->
    exists msg, frombuffer (F := F) blob = Raise msg.
Proof.
  induction n as [|n IH]; intros blob L M.
  - destruct blob as [|a [|b [|c [|d rest]]]]; simpl in L, M; try lia;
      try (eexists; reflexivity).
  - destruct blob as [|a [|b [|c [|d rest]]]]; try (eexists; reflexivity).
    + now contradiction M.
    + destruct (IH rest) as [msg E].
      * simpl in L. lia.
      * change (List.length (a :: b :: c :: d :: rest)) with (4 + List.length rest)%nat
          in M.
        intros Z. apply M.
        rewrite <- (Nat.Div0.add_mod_idemp_r 4), Z. reflexivity.
      * exists msg. cbn [frombuffer]. now rewrite E.
Qed.

(** The loop raises as soon as a blob does not hold whole float32 values or
    a surviving vector has another length than the query vector. *)
Lemma score_rows_raises (q_vec : list F) (rows : list (chunk_row F)) :
  ~ (Forall (fun c => (List.length (c_embedding c) mod 4 = 0)%nat) rows
     /\ Forall (fun c => survives c = true -> vec_len c = List.length q_vec) rows) ->
  exists msg, score_rows q_vec rows = Raise msg.
Proof.
  induction rows as [|c rows IH]; intros H.
  - exfalso. apply H. split; constructor.
  - cbn [score_rows].
    destruct (Nat.eq_dec (List.length (c_embedding c) mod 4) 0) as [M|M].
    + destruct (frombuffer_well_formed c M) as [E L].
      rewrite E, (dim_differs_survives c L).
      destruct (survives c) eqn:S; cbn [negb].
      * unfold dot. rewrite L.
        destruct (Nat.eqb_spec (vec_len c) (List.length q_vec)) as [Q|Q];
          [|eexists; reflexivity].
        destruct IH as [msg R].
        { intros [H1 H2]. apply H.
          split; [constructor; assumption | constructor; [intros _; exact Q | assumption]]. }
        exists msg. now rewrite R.
      * apply IH. intros [H1 H2]. apply H.
        split; [constructor; assumption | constructor; [intros S'; congruence | assumption]].
    + destruct (frombuffer_ragged (List.length (c_embedding c)) (c_embedding c))
        as [msg E]; [lia | exact M |].
      exists msg. now rewrite E.
Qed.

Context {FL : FloatOrder F}.

(** C6 (as amended): with a chunk store whose blobs hold whole float32
    values and whose surviving vectors have the length of the query vector,
    [_search_documents] keeps exactly the chunks whose vector has the recorded
    dimensionality, gives each the dot product of its vector and the query
    vector as score, returns for the requested page the text, file name,
    document type and score of the kept chunks in decreasing score order with
    ties in storage order, and reports their number as total.  On any other
    store it raises.  Without a store it returns the document envelope with
    no results and no error. *)
Theorem search_documents_ranking (w : world F) (q : string) (top_k offset : Z) :
  (forall rows q_vec,
      ingest_db w = Some (Ok rows) -> encode w q = Ok q_vec ->
      let score := fun c : chunk_row F => np_dot (vector_of c) q_vec in
      let well_formed :=
        Forall (fun c => (List.length (c_embedding c) mod 4 = 0)%nat) rows
        /\ Forall (fun c => survives c = true -> vec_len c = List.length q_vec) rows in
      (well_formed ->
       exists ranked : list (chunk_row F),
         _search_documents w q top_k offset
         = Ok [("type", VStr "document");
               ("results",
                VList (map (fun c =>
                              VDict [("text", c_text c); ("filename", c_filename c);
                                     ("doc_type", c_doc_type c);
                                     ("score", VFloat (score c))])
                         (slice (Z.max 0 offset) (Z.max 1 top_k) ranked)));
               ("pagination",
                VDict [("limit", VInt (Z.max 1 top_k));
                       ("offset", VInt (Z.max 0 offset));
                       ("total", VInt (Z.of_nat (List.length (filter survives rows))))])]
         /\ Permutation ranked (filter survives rows)
         /\ StronglySorted (fun a b => f_lt (score a) (score b) = false) ranked
         /\ (forall s, filter (fun c => same_key s (score c)) ranked
                       = filter (fun c => same_key s (score c)) (filter survives rows)))
      /\ (~ well_formed -> exists msg, _search_documents w q top_k offset = Raise msg))
  /\ (ingest_db w = None ->
      _search_documents w q top_k offset
      = Ok [("type", VStr "document"); ("results", VList [])]).
Proof.
  split.
  - intros rows q_vec Hdb Henc score well_formed. split.
    + intros [Hw Hs].
      set (before := fun y x : chunk_row F => f_lt (score x) (score y)).
      assert (Ha : forall a b, before a b = true -> before b a = false)
        by (intros a b; apply f_lt_asym).
      assert (Ht : forall a b c, before b a = false -> before c b = false ->
                                 before c a = false)
        by (intros a b c H1 H2; exact (f_ge_trans (score a) (score b) (score c) H1 H2)).
      exists (sort_by before (filter survives rows)).
      split; [|split; [|split]].
      * unfold _search_documents.
        rewrite Hdb, Henc, (score_rows_scored q_vec rows Hw Hs).
        unfold scored, sort_desc.
        rewrite (sort_by_map
                   (fun c => (np_dot (vector_of c) q_vec,
                              doc_item c (np_dot (vector_of c) q_vec)))
                   before) by reflexivity.
        rewrite slice_map, !map_map, length_map, sort_by_length. reflexivity.
      * apply sort_by_perm.
      * apply (sort_by_sorted before Ha Ht).
      * intros s. apply (sort_by_stable before). intros x y Hx Hy.
        unfold same_key in *. apply andb_prop in Hx, Hy.
        destruct Hx as [_ Hx], Hy as [Hy _]. apply negb_true_iff in Hx, Hy.
        exact (f_ge_trans (score x) s (score y) Hx Hy).
    + intros H. unfold _search_documents. rewrite Hdb, Henc.
      destruct (score_rows_raises q_vec rows H) as [msg ->]. now exists msg.
  - intros Hdb. unfold _search_documents. now rewrite Hdb.
Qed.

End Ranked.

Lemma search_documents_ranking_witness :
  _search_documents Sample.w_docs "python" 2 0
  = Ok [("type", VStr "document");
        ("results",
         VList [VDict [("text", VStr "b"); ("filename", VStr "cv.pdf");
                       ("doc_type", VStr "resume"); ("score", VFloat 4%Z)];
                VDict [("text", VStr "a"); ("filename", VStr "cv.pdf");
                       ("doc_type", VStr "resume"); ("score", VFloat 3%Z)]]);
        ("pagination",
         VDict [("limit", VInt 2); ("offset", VInt 0); ("total", VInt 3)])]
  /\ exists ranked,
       Permutation ranked (filter survives Sample.chunks)
       /\ StronglySorted
            (fun a b => f_lt (np_dot (vector_of a) [1; 1]%Z)
                             (np_dot (vector_of b) [1; 1]%Z) = false) ranked
       /\ map (fun c => VDict [("text", c_text c); ("filename", c_filename c);
                               ("doc_type", c_doc_type c);
                               ("score", VFloat (np_dot (vector_of c) [1; 1]%Z))])
            (slice 0 2 ranked)
          = [VDict [("text", VStr "b"); ("filename", VStr "cv.pdf");
                    ("doc_type", VStr "resume"); ("score", VFloat 4%Z)];
             VDict [("text", VStr "a"); ("filename", VStr "cv.pdf");
                    ("doc_type", VStr "resume"); ("score", VFloat 3%Z)]].
Proof.
  assert (C : _search_documents Sample.w_docs "python" 2 0
              = Ok [("type", VStr "document");
                    ("results",
                     VList [VDict [("text", VStr "b"); ("filename", VStr "cv.pdf");
                                   ("doc_type", VStr "resume"); ("score", VFloat 4%Z)];
                            VDict [("text", VStr "a"); ("filename", VStr "cv.pdf");
                                   ("doc_type", VStr "resume"); ("score", VFloat 3%Z)]]);
                    ("pagination",
                     VDict [("limit", VInt 2); ("offset", VInt 0); ("total", VInt 3)])])
    by (vm_compute; reflexivity).
  split; [exact C|].
  destruct (proj1 (proj1 (search_documents_ranking Sample.w_docs "python" 2 0)
                     Sample.chunks [1; 1]%Z eq_refl eq_refl))
    as [ranked [E [P [S T]]]].
  - split; repeat constructor; simpl; intros; try reflexivity; discriminate.
  - exists ranked. split; [exact P|]. split; [exact S|].
    rewrite C in E. injection E as E. exact (eq_sym E).
Defined.

(** C6, as stated for every stored set, fails for a store whose vectors have
    another length than the query vector: the one chunk has the recorded
    dimensionality 1, the query vector has two components, and the search
    raises instead of scoring. *)
Lemma search_documents_raises_on_other_length :
  let rows := [Sample.chunk "a" [Sample.x01; Sample.x00; Sample.x00; Sample.x00] 1] in
  let w := Sample.the_world (Some (Ok rows)) in
  Forall (fun c => survives c = true) rows
  /\ encode w "python" = Ok [1; 1]%Z
  /\ _search_documents w "python" 8 0 = Raise "shapes not aligned".
Proof.
  cbv zeta. split; [repeat constructor|]. split; reflexivity.
Qed.

(** ** Occurrences that [str.replace] leaves alone *)

Lemma starts_with_app (p v b : string) :
  Str.starts_with p (v ++ b) = true ->
  Str.starts_with p v = true \/ Str.starts_with v p = true.
Proof.
  revert v. induction p as [|a p IH]; intros v H; [now left|].
  destruct v as [|c v]; [now right|]. simpl in *.
  apply andb_prop in H. destruct H as [E H]. apply Ascii.eqb_eq in E. subst c.
  rewrite Ascii.eqb_refl. simpl. now apply IH.
Qed.

Lemma starts_with_length (p s : string) :
  Str.starts_with p s = true -> (String.length p <= String.length s)%nat.
Proof.
  intros H. apply starts_with_spec in H. destruct H as [b ->].
  rewrite length_append. lia.
Qed.

(** A prefix [q] of [x ++ w] that is longer than [x] continues into [w]. *)
Lemma prefix_overruns (x : string) :
  forall q w z, x ++ w = q ++ z -> (String.length x < String.length q)%nat ->
    exists y, q = x ++ y /\ y <> EmptyString /\ exists z', w = y ++ z'.
Proof.
  induction x as [|d x IH]; intros q w z E G.
  - simpl in *. exists q. split; [reflexivity|].
    split; [destruct q; [simpl in G; lia | discriminate]|]. now exists z.
  - destruct q as [|e q]; [simpl in G; lia|]. simpl in E.
    injection E as -> E. destruct (IH q w z E) as [y [-> [Hy Hz]]].
    + simpl in G. lia.
    + exists y. split; [reflexivity | split; assumption].
Qed.

Section Replace.
Variables p r : string.
Hypothesis p_nonempty : p <> EmptyString.

(** Scanning an occurrence of [t] that [p] cannot touch copies it. *)
Lemma replace_go_copies (t : string) :
  right_safe p t ->
  forall u v b, t = u ++ v ->
    Str.replace_go p r 0 (v ++ b) = v ++ Str.replace_go p r 0 b.
Proof.
  intros Hs u v. revert u. induction v as [|c v IH]; intros u b E; [reflexivity|].
  cbn [append Str.replace_go].
  destruct (Str.starts_with p (String c (v ++ b))) eqn:Sw.
  - exfalso. change (String c (v ++ b)) with (String c v ++ b) in Sw.
    destruct (Hs u (String c v) E) as [H1 H2]; [discriminate|].
    apply starts_with_app in Sw. destruct Sw; congruence.
  - f_equal. apply (IH (u ++ String c EmptyString)). rewrite E, append_assoc.
    reflexivity.
Qed.

(** The scan reaches an occurrence of [t] that no occurrence of [p] runs
    into, and continues after it as [t] prescribes. *)
Lemma replace_go_reaches (t t' : string) :
  left_safe p t ->
  (forall b, Str.replace_go p r 0 (t ++ b) = t' ++ Str.replace_go p r 0 b) ->
  forall a b k, (k <= String.length a)%nat ->
    exists a', Str.replace_go p r k (a ++ t ++ b) = a' ++ t' ++ Str.replace_go p r 0 b.
Proof.
  intros Hl Ht a. induction a as [|c a IH]; intros b k Hk.
  - simpl in Hk. assert (k = 0%nat) by lia. subst k. exists EmptyString. apply Ht.
  - cbn [append Str.replace_go]. destruct k as [|k].
    + destruct (Str.starts_with p (String c (a ++ t ++ b))) eqn:Sw.
      * assert (L : (String.length p - 1 <= String.length a)%nat).
        { destruct (Nat.le_gt_cases (String.length p) (String.length (String c a)))
            as [Le|G]; [simpl in Le; lia|]. exfalso.
          apply starts_with_spec in Sw. destruct Sw as [z Sw].
          destruct (prefix_overruns (String c a) p (t ++ b) z Sw G)
            as [y [Ep [Hy [z' Ez]]]].
          destruct (Hl (String c a) y Ep Hy) as [H1 H2].
          assert (Sy : Str.starts_with y (t ++ b) = true)
            by (apply starts_with_spec; now exists z').
          apply starts_with_app in Sy. destruct Sy; congruence. }
        destruct (IH b (String.length p - 1)%nat L) as [a' E].
        exists (r ++ a'). rewrite E. now rewrite append_assoc.
      * destruct (IH b 0%nat) as [a' E]; [lia|]. exists (String c a'). now rewrite E.
    + destruct (IH b k) as [a' E]; [simpl in Hk; lia|]. exists a'. exact E.
Qed.

(** An occurrence of [t] that [p] cannot overlap is still there after
    [replace]. *)
Lemma replace_keeps (t s : string) :
  left_safe p t -> right_safe p t -> occurs t s -> occurs t (Str.replace p r s).
Proof.
  intros Hl Hr [a [b ->]].
  destruct (replace_go_reaches t t Hl) with (a := a) (b := b) (k := 0%nat) as [a' E].
  - intros b'. now apply (replace_go_copies t Hr EmptyString t b').
  - lia.
  - unfold Str.replace. destruct p; [contradiction|]. rewrite E.
    now exists a', (Str.replace_go (String a0 s) r 0 b).
Qed.

End Replace.

Lemma subst_keeps (p r t s : string) :
  p <> EmptyString -> left_safe p t -> right_safe p t ->
  occurs t s -> occurs t (subst p r s).
Proof.
  intros Hp Hl Hr H. unfold subst.
  destruct (Str.contains p s); [now apply replace_keeps | exact H].
Qed.

Lemma in_suffixes (x : string) :
  forall p y, p = x ++ y -> y <> EmptyString -> In y (suffixes p).
Proof.
  induction x as [|c x IH]; intros p y -> Hy; simpl.
  - destruct y; [contradiction | now left].
  - right. now apply IH.
Qed.

Lemma apart_safe (p t : string) :
  apart p t = true -> left_safe p t /\ right_safe p t.
Proof.
  unfold apart. rewrite andb_true_iff, !forallb_forall. intros [H1 H2]. split.
  - intros x y E Hy. specialize (H1 y (in_suffixes x p y E Hy)).
    apply andb_prop in H1. destruct H1 as [A B]. now rewrite negb_true_iff in A, B.
  - intros u v E Hv. specialize (H2 v (in_suffixes u t v E Hv)).
    apply andb_prop in H2. destruct H2 as [A B]. now rewrite negb_true_iff in A, B.
Qed.

Lemma has_append (c : ascii) (a b : string) : has c (a ++ b) = has c a || has c b.
Proof. induction a as [|d a IH]; simpl; [reflexivity | now rewrite IH, orb_assoc]. Qed.

Lemma has_starts_with (p s : string) (c : ascii) :
  Str.starts_with p s = true -> has c p = true -> has c s = true.
Proof.
  intros H. apply starts_with_spec in H. destruct H as [b ->]. rewrite has_append.
  intros ->. reflexivity.
Qed.

(** The first character of [t] is not in [p]. *)
Lemma left_safe_by_first (p t' : string) (c : ascii) :
  has c p = false -> left_safe p (String c t').
Proof.
  intros H x y E Hy. destruct y as [|d y]; [contradiction|].
  assert (D : has d p = true).
  { rewrite E, has_append. simpl. rewrite Ascii.eqb_refl. apply orb_true_r. }
  simpl. destruct (Ascii.eqb_spec d c) as [->|N]; [congruence|].
  destruct (Ascii.eqb_spec c d); [congruence|]. split; reflexivity.
Qed.

(** [p] has a character that [t] lacks, and the last character of [t] is
    not in [p]. *)
Lemma right_safe_by_marker (p t0 : string) (m z : ascii) :
  has m p = true -> has m (t0 ++ String z EmptyString) = false -> has z p = false ->
  right_safe p (t0 ++ String z EmptyString).
Proof.
  intros Hm Ht Hz u v E Hv. split.
  - destruct (Str.starts_with p v) eqn:S1; [|reflexivity]. exfalso.
    pose proof (has_starts_with p v m S1 Hm) as Hv'.
    rewrite E, has_append, Hv', orb_true_r in Ht. discriminate.
  - destruct (Str.starts_with v p) eqn:S2; [|reflexivity]. exfalso.
    assert (Z : has z v = true).
    { clear - E Hv. revert t0 E. induction u as [|a u IH]; intros t0 E.
      - simpl in E. subst v. rewrite has_append. simpl. rewrite Ascii.eqb_refl.
        apply orb_true_r.
      - destruct t0 as [|b t0]; simpl in E.
        + injection E as _ E. destruct u; destruct v; try discriminate. contradiction.
        + injection E as _ E. now apply (IH t0). }
    pose proof (has_starts_with v p z S2 Z). congruence.
Qed.

Lemma join_occurs (sep f : string) (parts : list string) :
  In f parts -> occurs f (Str.join sep parts).
Proof.
  induction parts as [|x rest IH]; [contradiction|]. intros [->|I].
  - destruct rest; simpl.
    + exists EmptyString, EmptyString. now rewrite append_nil_r.
    + now exists EmptyString, (sep ++ Str.join sep (s :: rest)).
  - specialize (IH I). destruct rest as [|y rest]; [contradiction|].
    change (Str.join sep (x :: y :: rest)) with (x ++ sep ++ Str.join sep (y :: rest)).
    destruct IH as [a [b ->]]. exists (x ++ sep ++ a), b. now rewrite !append_assoc.
Qed.

(** Decimal numerals consist of digits. *)
Lemma string_of_uint_digits (d : Decimal.uint) (c : ascii) :
  has c (NilEmpty.string_of_uint d) = true -> Str.is_digit c = true.
Proof.
  induction d; cbn [NilEmpty.string_of_uint has]; [discriminate| | | | | | | | | |];
    (intros H; apply orb_prop in H; destruct H as [H|H];
     [apply Ascii.eqb_eq in H; subst c; reflexivity | now apply IHd]).
Qed.

Lemma of_nat_digits (i : nat) (c : ascii) :
  Str.is_digit c = false -> has c (Str.of_nat i) = false.
Proof.
  intros H. destruct (has c (Str.of_nat i)) eqn:E; [|reflexivity].
  unfold Str.of_nat, Str.of_Z in E. destruct (Z.of_nat i) eqn:Z.
  - cbn [has] in E. apply orb_prop in E. destruct E as [E|E]; [|discriminate].
    apply Ascii.eqb_eq in E. subst c. discriminate.
  - cbn [NilEmpty.string_of_int Z.to_int] in E. apply string_of_uint_digits in E.
    congruence.
  - lia.
Qed.

(** ** Filters without a backing column *)

Lemma marked_occurs (t s : string) : marked t s -> occurs t s.
Proof.
  intros [H|[a [b ->]]].
  - apply starts_with_spec in H. destruct H as [b ->]. now exists EmptyString, b.
  - exists (a ++ " "), b. now rewrite !append_assoc.
Qed.

Lemma join_marked (f : string) (parts : list string) :
  In f parts -> marked f (Str.join " AND " parts).
Proof.
  induction parts as [|x rest IH]; [contradiction|]. intros [->|I].
  - left. destruct rest; simpl.
    + apply starts_with_spec. exists EmptyString. now rewrite append_nil_r.
    + apply starts_with_append.
  - right. specialize (IH I). destruct rest as [|y rest]; [contradiction|].
    change (Str.join " AND " (x :: y :: rest))
      with (x ++ " AND " ++ Str.join " AND " (y :: rest)).
    destruct IH as [H|[a [b ->]]].
    + apply starts_with_spec in H. destruct H as [b ->].
      exists (x ++ " AND"), b. now rewrite !append_assoc.
    + exists (x ++ " AND " ++ a), b. now rewrite !append_assoc.
Qed.

Lemma right_safe_tail (p t : string) (c : ascii) :
  right_safe p (String c t) -> right_safe p t.
Proof. intros H u v E Hv. apply (H (String c u) v); [now rewrite E | exact Hv]. Qed.

Lemma replace_keeps_marked (p r t s : string) :
  p <> EmptyString -> apart p (" " ++ t) = true ->
  marked t s -> marked t (Str.replace p r s).
Proof.
  intros Hp A. apply apart_safe in A. destruct A as [Hl Hr]. intros [H|H].
  - left. apply starts_with_spec in H. destruct H as [b ->].
    unfold Str.replace. destruct p as [|c p']; [contradiction|].
    rewrite (replace_go_copies (String c p') r t (right_safe_tail _ _ _ Hr)
               EmptyString t b eq_refl).
    apply starts_with_append.
  - right. now apply replace_keeps.
Qed.

Lemma subst_keeps_marked (p r t s : string) :
  p <> EmptyString -> apart p (" " ++ t) = true ->
  marked t s -> marked t (subst p r s).
Proof.
  intros Hp A H. unfold subst.
  destruct (Str.contains p s); [now apply replace_keeps_marked | exact H].
Qed.

Ltac marked_tac :=
  first [apply subst_keeps_marked | apply replace_keeps_marked];
  [discriminate | vm_compute; reflexivity | ].

Section MissingEmail.
Context {F : Type} {FO : PyFloat F}.

Lemma email_marker_requested (qn : string) :
  wants_missing_email qn = true ->
  marked "EMAIL_IS_MISSING" (fst (_infer_filters (F := F) qn)).
Proof.
  intros H. unfold _infer_filters. cbn [fst]. apply join_marked.
  unfold where_list. apply in_concat. exists ["EMAIL_IS_MISSING"]. split; [|now left].
  unfold filter_steps. cbn [map app]. do 9 right. left.
  unfold step_missing_email. now rewrite H.
Qed.

Lemma email_marker_basic (e : emp_map) (where_ : string) :
  marked "EMAIL_IS_MISSING" where_ ->
  marked "EMAIL_IS_MISSING" (resolve_basic e where_).
Proof.
  intros H. unfold resolve_basic. cbv zeta. repeat marked_tac. exact H.
Qed.

(** The outcome of the two resolution steps when the missing-email marker is
    among the filters and there is no email column. *)
Lemma email_marker_unresolved (e : emp_map) (where_ : string) :
  e_email e = None ->
  marked "EMAIL_IS_MISSING" where_ ->
  match resolve_columns (F := F) e where_ with
  | inl env =>
      Str.contains "E_EMAIL_COL" (resolve_basic e where_) = true
      /\ env = email_column_error
  | inr where1 =>
      Str.contains "E_EMAIL_COL" (resolve_basic e where_) = false
      /\ resolve_markers (F := F) e where1 = inl email_warning
  end.
Proof.
  intros He H. apply (email_marker_basic e) in H. unfold resolve_columns. cbv zeta.
  rewrite He. cbn [truthy negb]. rewrite andb_true_r.
  generalize dependent (resolve_basic e where_). intros w0 H.
  destruct (Str.contains "E_EMAIL_COL" w0) eqn:G.
  - split; reflexivity.
  - split; [reflexivity|]. unfold resolve_markers.
    match goal with
    | |- (if Str.contains _ ?w && _ then _ else _) = _ =>
        assert (K : marked "EMAIL_IS_MISSING" w)
    end.
    { destruct (Str.contains "E_SKILLS_COL" _); [destruct (truthy (e_skills e))|];
        repeat marked_tac; exact H. }
    apply marked_occurs, contains_spec in K. rewrite K, He. reflexivity.
Qed.

End MissingEmail.

Lemma replace_go_skip (p r x y : string) :
  Str.replace_go p r (String.length x) (x ++ y) = Str.replace_go p r 0 y.
Proof.
  induction x as [|c x IH]; simpl; [|exact IH].
  destruct y; reflexivity.
Qed.

Lemma replace_go_match (p r y : string) :
  p <> EmptyString ->
  Str.replace_go p r 0 (p ++ y) = r ++ Str.replace_go p r 0 y.
Proof.
  intros Hp. destruct p as [|c p]; [contradiction|].
  change (String c p ++ y) with (String c (p ++ y)). cbn [Str.replace_go].
  change (String c (p ++ y)) with (String c p ++ y). rewrite starts_with_append.
  cbn [String.length]. rewrite Nat.sub_1_r. cbn [Nat.pred].
  now rewrite replace_go_skip.
Qed.

Lemma skill_key_lacks (i : nat) (m : ascii) :
  Str.is_digit m = false -> has m "skill_kw_" = false -> has m (skill_key i) = false.
Proof.
  intros Hd Hk. unfold skill_key. rewrite has_append, Hk. now apply of_nat_digits.
Qed.

(** A text in brackets around two copies of a parameter name cannot overlap
    a pattern that has neither bracket and has a character the text lacks. *)
Lemma bracketed_safe (p a b k : string) (m : ascii) :
  has "(" p = false -> has ")" p = false -> has m p = true ->
  has m (String "(" a) = false -> has m k = false -> has m b = false ->
  has m ")" = false ->
  left_safe p (String "(" a ++ k ++ b ++ k ++ ")")
  /\ right_safe p (String "(" a ++ k ++ b ++ k ++ ")").
Proof.
  intros Ho Hc Hm Ha Hk Hb Hz. split.
  - apply left_safe_by_first, Ho.
  - replace (String "(" a ++ k ++ b ++ k ++ ")")
      with ((String "(" a ++ k ++ b ++ k) ++ String ")" EmptyString)
      by (now rewrite !append_assoc).
    apply (right_safe_by_marker p _ m ")"); [exact Hm | | exact Hc].
    rewrite !has_append, Ha, Hk, Hb, Hz. reflexivity.
Qed.

Lemma skill_fragment_shape (i : nat) :
  skill_fragment i
  = String "(" "E_SKILLS_COL LIKE :" ++ skill_key i ++ " OR e.position LIKE :"
    ++ skill_key i ++ ")".
Proof. reflexivity. Qed.

Lemma never_matching_shape (i : nat) :
  never_matching i
  = String "(" "0 /* no skills col */ LIKE :" ++ skill_key i ++ " OR e.position LIKE :"
    ++ skill_key i ++ ")".
Proof. reflexivity. Qed.

(** [p], a placeholder or marker with the character [m], leaves both forms
    of the skills fragment alone. *)
Ltac bracketed m :=
  apply (bracketed_safe _ _ _ _ m);
  [reflexivity | reflexivity | reflexivity | reflexivity
  | apply skill_key_lacks; reflexivity | reflexivity | reflexivity].

Ltac keep_fragment m :=
  match goal with
  | |- occurs (skill_fragment ?i) _ => rewrite (skill_fragment_shape i)
  | |- occurs (never_matching ?i) _ => rewrite (never_matching_shape i)
  | _ => idtac
  end;
  first [apply subst_keeps | apply replace_keeps];
  [discriminate | bracketed m | bracketed m | ].

Lemma skill_fragment_basic (e : emp_map) (i : nat) (where_ : string) :
  occurs (skill_fragment i) where_ -> occurs (skill_fragment i) (resolve_basic e where_).
Proof.
  intros H. unfold resolve_basic. cbv zeta.
  keep_fragment "D"%char. keep_fragment "H"%char. keep_fragment "y"%char.
  now rewrite <- skill_fragment_shape.
Qed.

(** Replacing [E_SKILLS_COL LIKE] turns the skills fragment into the one
    whose skills side never matches. *)
Lemma skills_side_dropped (i : nat) (s : string) :
  occurs (skill_fragment i) s ->
  occurs (never_matching i)
    (Str.replace "E_SKILLS_COL LIKE" "0 /* no skills col */ LIKE" s).
Proof.
  intros [a [b ->]].
  set (p := "E_SKILLS_COL LIKE"). set (r := "0 /* no skills col */ LIKE").
  set (rest := " :" ++ skill_key i ++ " OR e.position LIKE :" ++ skill_key i ++ ")").
  assert (Hp : p <> EmptyString) by discriminate.
  assert (Hrest : right_safe p rest).
  { replace rest
      with ((" :" ++ skill_key i ++ " OR e.position LIKE :" ++ skill_key i)
            ++ String ")" EmptyString)
      by (subst rest; now rewrite !append_assoc).
    apply (right_safe_by_marker p _ "C" ")"); [reflexivity | | reflexivity].
    rewrite !has_append, (skill_key_lacks i "C") by reflexivity. reflexivity. }
  assert (Hleft : left_safe p (skill_fragment i)).
  { rewrite skill_fragment_shape. now apply left_safe_by_first. }
  assert (Hscan : forall b', Str.replace_go p r 0 (skill_fragment i ++ b')
                             = never_matching i ++ Str.replace_go p r 0 b').
  { intros b'.
    change (skill_fragment i ++ b') with (String "(" (p ++ rest) ++ b').
    change (never_matching i) with (String "(" (r ++ rest)).
    change (String "(" (p ++ rest) ++ b') with (String "(" ((p ++ rest) ++ b')).
    cbn [Str.replace_go]. change (Str.starts_with p (String "(" ((p ++ rest) ++ b')))
      with false. cbv iota.
    rewrite append_assoc, (replace_go_match p r _ Hp).
    rewrite (replace_go_copies p r rest Hrest EmptyString rest b' eq_refl).
    cbn [append]. now rewrite !append_assoc. }
  destruct (replace_go_reaches p r (skill_fragment i) (never_matching i) Hleft Hscan
              a b 0%nat) as [a' E]; [lia|].
  change (Str.replace p r (a ++ skill_fragment i ++ b))
    with (Str.replace_go p r 0 (a ++ skill_fragment i ++ b)).
  rewrite E. now exists a', (Str.replace_go p r 0 b).
Qed.

Lemma inr_inj (A B : Type) (x y : B) : @inr A B x = inr y -> x = y.
Proof. congruence. Qed.

Section Skills.
Context {F : Type} {FO : PyFloat F}.

Lemma skill_loop_fragments (skills : list string) :
  forall n i, (i < List.length skills)%nat ->
    In (skill_fragment (n + i)) (fst (skill_loop (F := F) n skills)).
Proof.
  induction skills as [|sk rest IH]; intros n i Hi; [simpl in Hi; lia|].
  cbn [skill_loop]. specialize (IH (S n)).
  destruct (skill_loop (S n) rest) as [ws ps]. cbn [fst] in *.
  destruct i as [|i].
  - left. now rewrite Nat.add_0_r.
  - right. rewrite Nat.add_succ_r. apply (IH i). simpl in Hi. lia.
Qed.

Lemma skill_fragment_requested (qn : string) (i : nat) :
  (i < List.length (Re.findall skills_re qn))%nat ->
  occurs (skill_fragment i) (fst (_infer_filters (F := F) qn)).
Proof.
  intros H. unfold _infer_filters. cbn [fst]. apply join_occurs.
  unfold where_list. apply in_concat. exists (fst (step_skills (F := F) qn)).
  split.
  - unfold filter_steps. cbn [map app]. do 5 right. now left.
  - unfold step_skills. exact (skill_loop_fragments _ 0 i H).
Qed.

Lemma skills_resolved (e : emp_map) (i : nat) (where0 where1 : string) :
  e_skills e = None ->
  occurs (skill_fragment i) where0 ->
  resolve_columns (F := F) e where0 = inr where1 ->
  occurs (never_matching i) where1.
Proof.
  intros He H. apply (skill_fragment_basic e) in H. unfold resolve_columns. cbv zeta.
  generalize dependent (resolve_basic e where0). intros w0 H.
  destruct (Str.contains "E_EMAIL_COL" w0 && negb (truthy (e_email e)));
    [discriminate|].
  intros [= <-]. rewrite He.
  match goal with
  | |- occurs _ (if Str.contains _ ?w then _ else _) =>
      assert (K : occurs (skill_fragment i) w)
  end.
  { keep_fragment "N"%char. keep_fragment "M"%char. now rewrite <- skill_fragment_shape. }
  match goal with
  | |- occurs _ (if ?c then _ else _) => assert (C : c = true)
  end.
  { apply contains_spec. apply (occurs_trans _ (skill_fragment i)); [|exact K].
    exists "(", (" LIKE :" ++ skill_key i ++ " OR e.position LIKE :" ++ skill_key i ++ ")").
    reflexivity. }
  rewrite C. now apply skills_side_dropped.
Qed.

Lemma never_matching_markers (e : emp_map) (i : nat) (where1 where2 : string) :
  occurs (never_matching i) where1 ->
  resolve_markers (F := F) e where1 = inr where2 ->
  occurs (never_matching i) where2.
Proof.
  intros H. unfold resolve_markers, resolve_missing. cbv zeta.
  destruct (Str.contains "EMAIL_IS_MISSING" where1 && negb (truthy (e_email e)));
    [discriminate|].
  intros E. apply inr_inj in E. subst where2.
  repeat match goal with
         | |- context [if ?c then _ else _] => destruct c
         end.
  all: repeat (keep_fragment "M"%char).
  all: exact H.
Qed.

End Skills.

(** ** The statement keeps the filters *)

Lemma occurs_app_l (t a b : string) : occurs t a -> occurs t (a ++ b).
Proof. intros [x [y ->]]. exists x, (y ++ b). now rewrite !append_assoc. Qed.

Lemma occurs_app_r (t a b : string) : occurs t b -> occurs t (a ++ b).
Proof. intros [x [y ->]]. exists (a ++ x), y. now rewrite !append_assoc. Qed.

Lemma occurs_nonempty (t s : string) :
  t <> EmptyString -> occurs t s -> nonempty s = true.
Proof.
  intros Ht [a [b ->]]. destruct a; [|reflexivity]. destruct t; [contradiction|].
  reflexivity.
Qed.

Lemma occurs_where_clause (t w : string) :
  t <> EmptyString -> occurs t w -> occurs t (where_clause w).
Proof.
  intros Ht H. unfold where_clause. rewrite (occurs_nonempty t w Ht H).
  now apply occurs_app_r.
Qed.

Section Schemas.
Context {F : Type}.

(** No base query of a detected mapping reads [FROM departments]. *)
Lemma base_not_from_departments (db : database F) (m : mapping) :
  _detect_schema db = Ok m ->
  Re.found from_departments_re (base_query m) = false.
Proof.
  unfold _detect_schema, if_present. cbv zeta.
  repeat match goal with
         | |- context [if ?c then _ else _] => destruct c
         | |- context [match db_columns db "staff" with _ => _ end] =>
             destruct (db_columns db "staff")
         end.
  all: try discriminate.
  all: intros E; injection E as <-; vm_compute; reflexivity.
Qed.

End Schemas.


Section Keeps.
Context {F : Type}.

Ltac occ Ht Hl Hr :=
  solve
    [ eassumption
    | apply occurs_where_clause; [exact Ht | occ Ht Hl Hr]
    | apply replace_keeps; [discriminate | exact Hl | exact Hr | occ Ht Hl Hr]
    | apply occurs_app_r; occ Ht Hl Hr
    | apply occurs_app_l; occ Ht Hl Hr ].

Variables (m : mapping) (t : string).
Hypothesis t_nonempty : t <> EmptyString.
Hypothesis t_left : left_safe "D_NAME_COL" t.
Hypothesis t_right : right_safe "D_NAME_COL" t.

Lemma listing_or_base_keeps (qn : string) (limit offset : Z) (where_ : string)
    (p : dict F) :
  occurs t where_ ->
  let r := listing_or_base m qn limit offset where_ p in
  occurs t (snd (fst r))
  /\ (fst (fst r) = base_query m \/ occurs t (fst (fst r))).
Proof.
  intros H. unfold listing_or_base.
  destruct (Re.found _ qn && negb (Re.found _ qn)); cbv beta iota zeta; cbn [fst snd].
  - assert (K : occurs t
                  (if nonempty where_ && Str.contains "D_NAME_COL" where_
                   then Str.replace "D_NAME_COL"
                          ("d." ++ match dept m with
                                   | Some d => d_name d
                                   | None => "dept_name"
                                   end) where_
                   else where_)).
    { destruct (nonempty where_ && Str.contains "D_NAME_COL" where_);
        occ t_nonempty t_left t_right. }
    split; [exact K|]. right. occ t_nonempty t_left t_right.
  - split; [exact H | now left].
Qed.

Lemma add_where_keeps (sql where_ : string) :
  occurs t where_ ->
  Re.found from_departments_re sql = false \/ occurs t sql ->
  let r := add_where m sql where_ in
  occurs t (fst r) /\ occurs t (snd r).
Proof.
  intros H Hs. unfold add_where.
  rewrite (occurs_nonempty t where_ t_nonempty H). cbn [andb].
  destruct (Re.found from_departments_re sql) eqn:Fd; cbn [negb]; cbv beta iota zeta;
    cbn [fst snd].
  - destruct Hs as [Hs|Hs]; [discriminate|]. split; assumption.
  - assert (K : occurs t
                  (if Str.contains "D_NAME_COL" where_
                   then match dept_pair m with
                        | Some (_, d) => Str.replace "D_NAME_COL" ("d." ++ d_name d) where_
                        | None =>
                            Str.replace "D_NAME_COL" ("e." ++ fmt (e_dept_fk (emp m)))
                              where_
                        end
                   else where_)).
    { destruct (Str.contains "D_NAME_COL" where_); [|exact H].
      destruct (dept_pair m) as [[dt d]|]; occ t_nonempty t_left t_right. }
    split; [|exact K]. occ t_nonempty t_left t_right.
Qed.

Lemma shape_keeps (qn intent : string) (limit offset : Z) (sql where_ : string)
    (p : dict F) :
  occurs t sql -> occurs t where_ ->
  occurs t (fst (fst (shape m qn intent limit offset sql where_ p))).
Proof.
  intros Hs Hw. unfold shape. cbv zeta.
  destruct (String.eqb intent "avg_by_dept"); [destruct (dept_pair m) as [[dt d]|]|].
  all: cbv beta iota zeta.
  all: try (cbn [fst]; occ t_nonempty t_left t_right).
  all: destruct (String.eqb intent "count").
  all: try (cbn [fst]; occ t_nonempty t_left t_right).
  all: destruct (String.eqb intent "top_paid_each_dept");
    [destruct (dept_pair m) as [[dt d]|]|].
  all: cbv beta iota zeta.
  all: try (cbn [fst]; occ t_nonempty t_left t_right).
  all: destruct (String.eqb intent "departments_list" && truthy (dept_table m)).
  all: cbn [fst]; occ t_nonempty t_left t_right.
Qed.

(** Whatever the intent, the statement of [build_sql] contains every part of
    the resolved filters that [D_NAME_COL] cannot overlap. *)
Lemma build_sql_keeps (qn intent : string) (limit offset : Z) (where_ : string)
    (p : dict F) :
  Re.found from_departments_re (base_query m) = false ->
  occurs t where_ ->
  occurs t (fst (fst (build_sql m qn intent limit offset where_ p))).
Proof.
  intros Hb H. unfold build_sql.
  destruct (listing_or_base_keeps qn limit offset where_ p H) as [K1 K2].
  destruct (listing_or_base m qn limit offset where_ p) as [[sql1 w1] p1].
  cbn [fst snd] in K1, K2.
  assert (K3 : Re.found from_departments_re sql1 = false \/ occurs t sql1).
  { destruct K2 as [->|K2]; [now left | now right]. }
  destruct (add_where_keeps sql1 w1 K1 K3) as [K4 K5].
  destruct (add_where m sql1 w1) as [sql2 w2]. cbn [fst snd] in K4, K5.
  now apply shape_keeps.
Qed.

End Keeps.

(** ** The exact-email placeholder *)

Section Pairs.
Variables a b : ascii.

Lemma last_is_cons (c : ascii) (s : string) :
  last_is a (String c s) = if nonempty s then last_is a s else Ascii.eqb c a.
Proof. now destruct s. Qed.

Lemma no_pair_app (x y : string) :
  no_pair a b (x ++ y)
  = no_pair a b x && no_pair a b y && negb (last_is a x && first_is b y).
Proof.
  induction x as [|c x IH].
  - simpl. now rewrite andb_true_r.
  - cbn [append no_pair]. rewrite IH, last_is_cons. destruct x as [|d x].
    + simpl. destruct (Ascii.eqb c a), (first_is b y), (no_pair a b y); reflexivity.
    + cbn [append first_is nonempty].
      destruct (Ascii.eqb c a && Ascii.eqb d b), (no_pair a b (String d x)),
        (no_pair a b y), (last_is a (String d x) && first_is b y); reflexivity.
Qed.

Lemma no_pair_occurs (t s : string) :
  occurs t s -> no_pair a b s = true -> no_pair a b t = true.
Proof.
  intros [x [y ->]]. rewrite !no_pair_app, !andb_true_iff. tauto.
Qed.

Lemma first_is_has (s : string) : has b s = false -> first_is b s = false.
Proof.
  destruct s as [|c s]; [reflexivity|]. simpl. intros H.
  apply orb_false_iff in H. tauto.
Qed.

Lemma no_pair_has (s : string) : has a s = false -> no_pair a b s = true.
Proof.
  induction s as [|c s IH]; [reflexivity|]. simpl. intros H.
  apply orb_false_iff in H. destruct H as [-> H]. now rewrite IH.
Qed.

Variables p r : string.
Hypothesis r_clean : no_pair a b r = true.
Hypothesis r_first : first_is b r = false.
Hypothesis r_last : last_is a r = false.
Hypothesis r_nonempty : nonempty r = true.

Lemma replace_go_first (s : string) :
  first_is b (Str.replace_go p r 0 s) = true -> first_is b s = true.
Proof.
  destruct s as [|c s]; [discriminate|]. cbn [Str.replace_go].
  destruct (Str.starts_with p (String c s)); [|exact (fun H => H)].
  destruct r as [|d r']; [discriminate|]. simpl in *. congruence.
Qed.

Lemma replace_go_no_pair (s : string) :
  forall k, no_pair a b s = true -> no_pair a b (Str.replace_go p r k s) = true.
Proof.
  induction s as [|c s IH]; intros k H; [reflexivity|].
  cbn [no_pair] in H. apply andb_prop in H. destruct H as [Hc Hs].
  cbn [Str.replace_go]. destruct k as [|k]; [|now apply IH].
  destruct (Str.starts_with p (String c s)).
  - rewrite no_pair_app, r_clean, r_last, (IH _ Hs). reflexivity.
  - cbn [no_pair]. rewrite (IH 0%nat Hs), andb_true_r.
    destruct (first_is b (Str.replace_go p r 0 s)) eqn:E.
    + apply replace_go_first in E. now rewrite E in Hc.
    + now rewrite andb_false_r.
Qed.

Lemma subst_no_pair (s : string) :
  p <> EmptyString -> no_pair a b s = true -> no_pair a b (subst p r s) = true.
Proof.
  intros Hp H. unfold subst. destruct (Str.contains p s); [|exact H].
  assert (E : Str.replace p r s = Str.replace_go p r 0 s)
    by (unfold Str.replace; destruct p; [contradiction | reflexivity]).
  rewrite E. now apply replace_go_no_pair.
Qed.

End Pairs.

Lemma first_is_app (b : ascii) (x y : string) :
  nonempty x = true -> first_is b (x ++ y) = first_is b x.
Proof. now destruct x. Qed.

Lemma join_tidy (sep : string) (parts : list string) :
  no_pair "_" "E" sep = true -> nonempty sep = true -> first_is "E" sep = false ->
  last_is "_" sep = false ->
  Forall (fun f => no_pair "_" "E" f = true) parts -> no_pair "_" "E" (Str.join sep parts) = true.
Proof.
  intros S1 S2 S3 S4. induction 1 as [|x rest Hx Hrest IH]; [reflexivity|].
  destruct rest as [|y rest]; [exact Hx|].
  change (Str.join sep (x :: y :: rest)) with (x ++ sep ++ Str.join sep (y :: rest)).
  rewrite !no_pair_app, Hx, S1, IH, S4, first_is_app, S3 by exact S2.
  now rewrite andb_false_r.
Qed.

Lemma key_tidy (prefix : string) (i : nat) :
  no_pair "_" "E" prefix = true -> no_pair "_" "E" (prefix ++ Str.of_nat i) = true.
Proof.
  intros H. rewrite no_pair_app, H.
  rewrite (no_pair_has "_" "E") by now apply of_nat_digits.
  rewrite (first_is_has "E") by now apply of_nat_digits.
  now rewrite andb_false_r.
Qed.

Lemma skill_fragment_tidy (i : nat) : no_pair "_" "E" (skill_fragment i) = true.
Proof.
  unfold skill_fragment.
  assert (K : no_pair "_" "E" (skill_key i) = true) by now apply key_tidy.
  assert (K1 : forall x, first_is "E" (skill_key i ++ x) = false) by reflexivity.
  rewrite no_pair_app, K1, andb_false_r, andb_true_r.
  rewrite no_pair_app, K, andb_true_l.
  rewrite no_pair_app.
  rewrite no_pair_app, K, K1, !andb_false_r, !andb_true_r. reflexivity.
Qed.

Section Fragments.
Context {F : Type}.

Lemma skill_loop_tidy (skills : list string) :
  forall i, Forall (fun f => no_pair "_" "E" f = true) (fst (skill_loop (F := F) i skills)).
Proof.
  induction skills as [|sk rest IH]; intros i; [constructor|].
  cbn [skill_loop]. specialize (IH (S i)).
  destruct (skill_loop (S i) rest) as [ws ps]. cbn [fst] in *.
  constructor; [apply skill_fragment_tidy | exact IH].
Qed.

Lemma pos_loop_tidy (pos : list string) :
  forall i, Forall (fun f => no_pair "_" "E" f = true) (fst (pos_loop (F := F) i pos)).
Proof.
  induction pos as [|p rest IH]; intros i; [constructor|].
  cbn [pos_loop]. specialize (IH (S i)).
  destruct (pos_loop (S i) rest) as [cs ps]. cbn [fst] in *.
  constructor; [|exact IH].
  rewrite no_pair_app.
  assert (K : no_pair "_" "E" (pos_key i) = true) by now apply key_tidy.
  assert (K1 : first_is "E" (pos_key i) = false) by reflexivity.
  rewrite K, K1, andb_false_r. reflexivity.
Qed.

Lemma step_position_tidy (q : string) :
  Forall (fun f => no_pair "_" "E" f = true) (fst (step_position (F := F) q)).
Proof.
  unfold step_position. destruct (Re.findall position_re q) as [|p pos]; [constructor|].
  pose proof (pos_loop_tidy (p :: pos) 0) as H.
  destruct (pos_loop 0 (p :: pos)) as [clauses ps]. cbn [fst] in *.
  constructor; [|constructor].
  assert (A : last_is "_" "(" = false) by reflexivity.
  assert (B : first_is "E" ")" = false) by reflexivity.
  pose proof (join_tidy " OR " clauses eq_refl eq_refl eq_refl eq_refl H) as J.
  rewrite no_pair_app, A, no_pair_app, J, B, andb_false_r.
  reflexivity.
Qed.

(** Without an e-mail address in the query no fragment has ["_E"] in it. *)
Lemma where_list_tidy (qn : string) :
  Re.search email_re qn = None ->
  Forall (fun f => no_pair "_" "E" f = true) (where_list (F := F) qn).
Proof.
  intros He. unfold where_list. apply Forall_concat.
  unfold filter_steps, missing_steps. cbn [map app].
  repeat (apply Forall_cons; [|]); try apply Forall_nil.
  all: try apply step_position_tidy.
  all: try apply skill_loop_tidy.
  all: try (unfold step_email; rewrite He; constructor).
  all: unfold step_this_year, step_year_in, step_year_after, step_year_before,
         step_year_between, step_reports_to, step_id, step_missing_email,
         step_missing, step_department, step_name.
  all: repeat match goal with
              | |- context [match ?c with _ => _ end] => destruct c
              end.
  all: cbn [fst no_step]; repeat constructor.
Qed.

Lemma infer_filters_tidy (qn : string) :
  Re.search email_re qn = None ->
  no_pair "_" "E" (fst (_infer_filters (F := F) qn)) = true.
Proof.
  intros He. unfold _infer_filters. cbn [fst].
  apply join_tidy; try reflexivity. now apply where_list_tidy.
Qed.

End Fragments.

Lemma subst_column_tidy (p col s : string) :
  p <> EmptyString -> plain_column col = true -> no_pair "_" "E" s = true ->
  no_pair "_" "E" (subst p ("e." ++ col) s) = true.
Proof.
  intros Hp Hc Hs. unfold plain_column in Hc. apply andb_prop in Hc.
  destruct Hc as [C1 C2]. apply negb_true_iff in C2.
  apply subst_no_pair; [exact C1 | reflexivity | | reflexivity | exact Hp | exact Hs].
  destruct col; [reflexivity | exact C2].
Qed.

Lemma resolve_basic_tidy (e : emp_map) (s : string) :
  forallb plain_column (basic_columns e) = true -> no_pair "_" "E" s = true ->
  no_pair "_" "E" (resolve_basic e s) = true.
Proof.
  unfold basic_columns. cbn [forallb]. rewrite !andb_true_iff.
  intros [C1 [C2 [C3 _]]] Hs. unfold resolve_basic. cbv zeta.
  repeat (apply subst_column_tidy; [discriminate | assumption | ]). exact Hs.
Qed.

Section Detected.
Context {F : Type}.

Lemma detected_columns_plain (db : database F) (m : mapping) :
  _detect_schema db = Ok m -> forallb plain_column (basic_columns (emp m)) = true.
Proof.
  unfold _detect_schema, if_present. cbv zeta.
  repeat match goal with
         | |- context [if ?c then _ else _] => destruct c
         | |- context [match db_columns db "staff" with _ => _ end] =>
             destruct (db_columns db "staff")
         end.
  all: try discriminate.
  all: intros E; injection E as <-; vm_compute; reflexivity.
Qed.

(** The filters of a query hold the exact-email placeholder, after the basic
    columns are resolved, exactly when the query holds an e-mail address. *)
Lemma email_placeholder_iff (db : database F) (m : mapping) (qn : string) :
  _detect_schema db = Ok m ->
  Str.contains "E_EMAIL_COL" (resolve_basic (emp m) (fst (_infer_filters (F := F) qn)))
  = Re.found email_re qn.
Proof.
  intros Hd. unfold Re.found. destruct (Re.search email_re qn) as [g|] eqn:He.
  - apply contains_spec.
    apply (occurs_trans _ "(E_EMAIL_COL)"); [now exists "(", ")"|].
    unfold resolve_basic. cbv zeta.
    repeat (apply subst_keeps;
            [discriminate
            | apply apart_safe; vm_compute; reflexivity
            | apply apart_safe; vm_compute; reflexivity
            | ]).
    apply (occurs_trans _ "lower(E_EMAIL_COL) = lower(:email_exact)");
      [now exists "lower", " = lower(:email_exact)"|].
    unfold _infer_filters. cbn [fst]. apply join_occurs.
    unfold where_list. apply in_concat.
    exists ["lower(E_EMAIL_COL) = lower(:email_exact)"]. split; [|now left].
    unfold filter_steps. cbn [map app]. do 8 right. left.
    unfold step_email. now rewrite He.
  - destruct (Str.contains _ _) eqn:C; [|reflexivity].
    apply contains_spec in C.
    apply (no_pair_occurs "_" "E") in C; [discriminate|].
    apply resolve_basic_tidy; [now apply (detected_columns_plain db) |].
    now apply infer_filters_tidy.
Qed.

End Detected.

Section Unbacked.
Context {F : Type} {FO : PyFloat F}.

Lemma execute_envelope (db : database F) (sql : string) (count_sql : option string)
    (ps env : dict F) :
  fst (execute db sql count_sql ps) = Ok env ->
  Dict.get "sql" env = Some (VStr sql)
  /\ Dict.get "error" env = None /\ Dict.get "warning" env = None.
Proof.
  unfold execute. destruct count_sql as [[|c cs]|].
  - destruct (db_execute db sql ps); [|discriminate]. intros [= <-]. repeat split.
  - destruct (db_execute db (String c cs) ps) as [counted|]; [|discriminate].
    destruct (scalar_one counted); [|discriminate].
    destruct (db_execute db sql ps); [|discriminate]. intros [= <-]. repeat split.
  - destruct (db_execute db sql ps); [|discriminate]. intros [= <-]. repeat split.
Qed.

(** An envelope of [_run_sql] that names a statement comes from [execute]
    after both resolution steps. *)
Lemma run_sql_executed (w : world F) (q : string) (cs : option string)
    (limit offset : Z) (intent : string) (db : database F) (m : mapping)
    (env : dict F) (stmt : string) :
  connect w (str_or cs (default_url w)) = Ok db ->
  _detect_schema db = Ok m ->
  fst (_run_sql w q cs limit offset intent) = Ok env ->
  Dict.get "sql" env = Some (VStr stmt) ->
  exists where1 where2 eff,
    resolve_columns (F := F) (emp m) (fst (_infer_filters (F := F) (_normalize_tokens q)))
    = inr where1
    /\ resolve_markers (F := F) (emp m) where1 = inr where2
    /\ let r := build_sql m (_normalize_tokens q) eff limit offset where2
                  (snd (_infer_filters (_normalize_tokens q))) in
       fst (execute db (fst (fst r)) (snd (fst r)) (snd r)) = Ok env.
Proof.
  intros Hc Hd. unfold _run_sql. rewrite Hc.
  destruct (_infer_filters (_normalize_tokens q)) as [where0 params]. rewrite Hd.
  cbn [fst snd].
  destruct (missing_entity _ _) as [t|]; [intros [= <-]; discriminate|].
  destruct (resolve_columns (emp m) where0) as [e1|where1] eqn:E1.
  { apply resolve_columns_early in E1. subst. intros [= <-]. discriminate. }
  destruct (resolve_markers (emp m) where1) as [e2|where2] eqn:E2.
  { apply resolve_markers_early in E2. subst. intros [= <-]. discriminate. }
  intros H _. exists where1, where2, (effective_intent w (_normalize_tokens q) intent).
  split; [reflexivity|]. split; [exact E2|]. cbv zeta.
  destruct (build_sql m _ _ limit offset where2 params) as [[sql count_sql] ps].
  exact H.
Qed.

End Unbacked.

(** ** The missing-email marker *)

Lemma last_is_has (a : ascii) (s : string) : has a s = false -> last_is a s = false.
Proof.
  induction s as [|c s IH]; [reflexivity|]. intros H. cbn [has] in H.
  apply orb_false_iff in H. destruct H as [H1 H2]. rewrite last_is_cons.
  destruct (nonempty s); [now apply IH | exact H1].
Qed.

Lemma join_no_pair (a b : ascii) (sep : string) (parts : list string) :
  no_pair a b sep = true -> nonempty sep = true -> first_is b sep = false ->
  last_is a sep = false ->
  Forall (fun f => no_pair a b f = true) parts ->
  no_pair a b (Str.join sep parts) = true.
Proof.
  intros S1 S2 S3 S4. induction 1 as [|x rest Hx Hrest IH]; [reflexivity|].
  destruct rest as [|y rest]; [exact Hx|].
  change (Str.join sep (x :: y :: rest)) with (x ++ sep ++ Str.join sep (y :: rest)).
  rewrite !no_pair_app, Hx, S1, IH, S4, first_is_app, S3 by exact S2.
  now rewrite andb_false_r.
Qed.

(** A text without the letter [L] between two texts without ["L_"]. *)
Lemma no_pair_around (x k y : string) :
  no_pair "L" "_" x = true -> has "L" k = false -> nonempty k = true ->
  first_is "_" k = false -> no_pair "L" "_" y = true ->
  no_pair "L" "_" (x ++ k ++ y) = true.
Proof.
  intros Hx Hk Hn Hf Hy.
  rewrite !no_pair_app, Hx, Hy, (no_pair_has "L" "_" k Hk), (last_is_has "L" k Hk).
  rewrite first_is_app, Hf by exact Hn. cbn [andb negb]. now rewrite andb_false_r.
Qed.

Lemma key_lacks_upper (prefix : string) (i : nat) :
  has "L" prefix = false -> has "L" (prefix ++ Str.of_nat i) = false.
Proof.
  intros H. rewrite has_append, H. now apply of_nat_digits.
Qed.

Lemma skill_fragment_unmarked (i : nat) : no_pair "L" "_" (skill_fragment i) = true.
Proof.
  unfold skill_fragment.
  assert (K : has "L" (skill_key i) = false) by now apply key_lacks_upper.
  apply no_pair_around; [reflexivity | exact K | reflexivity | reflexivity |].
  apply (no_pair_around " OR e.position LIKE :" (skill_key i) ")");
    [reflexivity | exact K | reflexivity | reflexivity | reflexivity].
Qed.

Section Unmarked.
Context {F : Type}.

Lemma skill_loop_unmarked (skills : list string) :
  forall i, Forall (fun f => no_pair "L" "_" f = true) (fst (skill_loop (F := F) i skills)).
Proof.
  induction skills as [|sk rest IH]; intros i; [constructor|].
  cbn [skill_loop]. specialize (IH (S i)).
  destruct (skill_loop (S i) rest) as [ws ps]. cbn [fst] in *.
  constructor; [apply skill_fragment_unmarked | exact IH].
Qed.

Lemma pos_loop_unmarked (pos : list string) :
  forall i, Forall (fun f => no_pair "L" "_" f = true) (fst (pos_loop (F := F) i pos)).
Proof.
  induction pos as [|p rest IH]; intros i; [constructor|].
  cbn [pos_loop]. specialize (IH (S i)).
  destruct (pos_loop (S i) rest) as [cs ps]. cbn [fst] in *.
  constructor; [|exact IH].
  rewrite <- (append_nil_r (pos_key i)).
  apply no_pair_around; try reflexivity. now apply key_lacks_upper.
Qed.

Lemma step_position_unmarked (q : string) :
  Forall (fun f => no_pair "L" "_" f = true) (fst (step_position (F := F) q)).
Proof.
  unfold step_position. destruct (Re.findall position_re q) as [|p pos]; [constructor|].
  pose proof (pos_loop_unmarked (p :: pos) 0) as H.
  destruct (pos_loop 0 (p :: pos)) as [clauses ps]. cbn [fst] in *.
  constructor; [|constructor].
  pose proof (join_no_pair "L" "_" " OR " clauses eq_refl eq_refl eq_refl eq_refl H) as J.
  assert (A : last_is "L" "(" = false) by reflexivity.
  assert (B : first_is "_" ")" = false) by reflexivity.
  rewrite no_pair_app, A, no_pair_app, J, B, andb_false_r. reflexivity.
Qed.

(** Without an e-mail address and without a request for missing e-mail no
    fragment has ["L_"] in it. *)
Lemma where_list_unmarked (qn : string) :
  Re.search email_re qn = None -> wants_missing_email qn = false ->
  Forall (fun f => no_pair "L" "_" f = true) (where_list (F := F) qn).
Proof.
  intros He Hw. unfold where_list. apply Forall_concat.
  unfold filter_steps, missing_steps. cbn [map app].
  repeat (apply Forall_cons; [|]); try apply Forall_nil.
  all: try apply step_position_unmarked.
  all: try apply skill_loop_unmarked.
  all: try (unfold step_email; rewrite He; constructor).
  all: try (unfold step_missing_email; rewrite Hw; constructor).
  all: unfold step_this_year, step_year_in, step_year_after, step_year_before,
         step_year_between, step_reports_to, step_id,
         step_missing, step_department, step_name.
  all: repeat match goal with
              | |- context [match ?c with _ => _ end] => destruct c
              end.
  all: cbn [fst no_step]; repeat constructor.
Qed.

Lemma infer_filters_unmarked (qn : string) :
  Re.search email_re qn = None -> wants_missing_email qn = false ->
  no_pair "L" "_" (fst (_infer_filters (F := F) qn)) = true.
Proof.
  intros He Hw. unfold _infer_filters. cbn [fst].
  apply join_no_pair; try reflexivity. now apply where_list_unmarked.
Qed.

Lemma detected_columns_lack_upper (db : database F) (m : mapping) :
  _detect_schema db = Ok m ->
  forallb (fun c => negb (has "L" c)) (written_columns (emp m)) = true.
Proof.
  unfold _detect_schema, if_present. cbv zeta.
  repeat match goal with
         | |- context [if ?c then _ else _] => destruct c
         | |- context [match db_columns db "staff" with _ => _ end] =>
             destruct (db_columns db "staff")
         end.
  all: try discriminate.
  all: intros E; injection E as <-; vm_compute; reflexivity.
Qed.

Lemma detected_email (db : database F) (m : mapping) :
  _detect_schema db = Ok m ->
  e_email (emp m) = None \/ e_email (emp m) = Some "email".
Proof.
  unfold _detect_schema, if_present. cbv zeta.
  repeat match goal with
         | |- context [if ?c then _ else _] => destruct c
         | |- context [match db_columns db "staff" with _ => _ end] =>
             destruct (db_columns db "staff")
         end.
  all: try discriminate.
  all: intros E; injection E as <-; cbn; tauto.
Qed.

End Unmarked.

Lemma subst_column_unmarked (p col s : string) :
  p <> EmptyString -> has "L" col = false -> no_pair "L" "_" s = true ->
  no_pair "L" "_" (subst p ("e." ++ col) s) = true.
Proof.
  intros Hp Hc Hs.
  assert (K : has "L" ("e." ++ col) = false) by (rewrite has_append, Hc; reflexivity).
  apply subst_no_pair; [now apply no_pair_has | reflexivity | now apply last_is_has
                       | reflexivity | exact Hp | exact Hs].
Qed.

Lemma replace_column_unmarked (p col s : string) :
  p <> EmptyString -> has "L" col = false -> no_pair "L" "_" s = true ->
  no_pair "L" "_" (Str.replace p ("e." ++ col) s) = true.
Proof.
  intros Hp Hc Hs.
  assert (K : has "L" ("e." ++ col) = false) by (rewrite has_append, Hc; reflexivity).
  assert (E : Str.replace p ("e." ++ col) s = Str.replace_go p ("e." ++ col) 0 s)
    by (unfold Str.replace; destruct p; [contradiction | reflexivity]).
  rewrite E.
  apply replace_go_no_pair;
    [now apply no_pair_has | reflexivity | now apply last_is_has | reflexivity | exact Hs].
Qed.

Section Guards.
Context {F : Type} {FO : PyFloat F}.

(** Without an e-mail address in the query and without a request for
    missing e-mail, the filters hold no missing-email marker after the
    columns are resolved. *)
Lemma email_marker_absent (db : database F) (m : mapping) (qn where1 : string) :
  _detect_schema db = Ok m ->
  Re.found email_re qn = false -> wants_missing_email qn = false ->
  resolve_columns (F := F) (emp m) (fst (_infer_filters (F := F) qn)) = inr where1 ->
  Str.contains "EMAIL_IS_MISSING" where1 = false.
Proof.
  intros Hd He Hw E.
  assert (Hs : Re.search email_re qn = None).
  { unfold Re.found in He. now destruct (Re.search email_re qn). }
  pose proof (infer_filters_unmarked (F := F) qn Hs Hw) as U.
  pose proof (detected_columns_lack_upper db m Hd) as C.
  unfold written_columns, basic_columns in C. cbn [app forallb] in C.
  rewrite !andb_true_iff, !negb_true_iff in C.
  destruct C as [C1 [C2 [C3 [C4 [C5 [C6 _]]]]]].
  assert (K : no_pair "L" "_" where1 = true).
  { unfold resolve_columns in E. cbv zeta in E.
    assert (B : no_pair "L" "_" (resolve_basic (emp m) (fst (_infer_filters (F := F) qn)))
                = true).
    { unfold resolve_basic. cbv zeta.
      repeat (apply subst_column_unmarked; [discriminate | assumption | ]). exact U. }
    generalize dependent (resolve_basic (emp m) (fst (_infer_filters (F := F) qn))).
    intros w0 E B.
    destruct (Str.contains "E_EMAIL_COL" w0 && negb (truthy (e_email (emp m))));
      [discriminate|].
    apply inr_inj in E. subst where1.
    assert (B2 : no_pair "L" "_"
                   (subst "E_NAME_COL" ("e." ++ e_name (emp m))
                      (subst "E_EMAIL_COL" ("e." ++ fmt (e_email (emp m))) w0)) = true).
    { repeat (apply subst_column_unmarked; [discriminate | assumption | ]). exact B. }
    destruct (Str.contains "E_SKILLS_COL" _); [|exact B2].
    destruct (truthy (e_skills (emp m))).
    - apply replace_column_unmarked; [discriminate | assumption | exact B2].
    - assert (R : Str.replace "E_SKILLS_COL LIKE" "0 /* no skills col */ LIKE"
                    (subst "E_NAME_COL" ("e." ++ e_name (emp m))
                       (subst "E_EMAIL_COL" ("e." ++ fmt (e_email (emp m))) w0))
                  = Str.replace_go "E_SKILLS_COL LIKE" "0 /* no skills col */ LIKE" 0
                      (subst "E_NAME_COL" ("e." ++ e_name (emp m))
                         (subst "E_EMAIL_COL" ("e." ++ fmt (e_email (emp m))) w0)))
        by reflexivity.
      rewrite R. apply replace_go_no_pair; try reflexivity. exact B2. }
  destruct (Str.contains "EMAIL_IS_MISSING" where1) eqn:C; [|reflexivity].
  apply contains_spec in C. apply (no_pair_occurs "L" "_") in C; [discriminate | exact K].
Qed.

(** With an email column, or without an e-mail address and a request for
    missing e-mail in the query, both resolution steps go through. *)
Lemma email_guards_pass (db : database F) (m : mapping) (qn : string) :
  _detect_schema db = Ok m ->
  e_email (emp m) <> None
  \/ (Re.found email_re qn = false /\ wants_missing_email qn = false) ->
  exists where1 where2,
    resolve_columns (F := F) (emp m) (fst (_infer_filters (F := F) qn)) = inr where1
    /\ resolve_markers (F := F) (emp m) where1 = inr where2.
Proof.
  intros Hd H.
  assert (T : truthy (e_email (emp m)) = true
              \/ (Re.found email_re qn = false /\ wants_missing_email qn = false)).
  { destruct H as [H|H]; [left | now right].
    destruct (detected_email db m Hd) as [E|E]; [contradiction | now rewrite E]. }
  clear H.
  destruct (resolve_columns (emp m) (fst (_infer_filters (F := F) qn)))
    as [e1|where1] eqn:E1.
  { exfalso. unfold resolve_columns in E1. cbv zeta in E1.
    rewrite (email_placeholder_iff db m qn Hd) in E1.
    destruct T as [T|[T _]]; rewrite T in E1; cbn [negb] in E1;
      rewrite ?andb_false_r in E1; discriminate. }
  exists where1.
  destruct (resolve_markers (emp m) where1) as [e2|where2] eqn:E2; [|now exists where2].
  exfalso. unfold resolve_markers in E2. cbv zeta in E2.
  destruct T as [T|[T1 T2]].
  - rewrite T in E2. cbn [negb] in E2. rewrite andb_false_r in E2. discriminate.
  - rewrite (email_marker_absent db m qn where1 Hd T1 T2 E1) in E2. discriminate.
Qed.

(** In a statement that [_run_sql] has executed on a mapping without a
    skills column, the fragment of every skills keyword has its skills side
    replaced by one that never matches. *)
Lemma skills_branch_in_statement (w : world F) (q : string) (cs : option string)
    (limit offset : Z) (intent : string) (db : database F) (m : mapping)
    (env : dict F) (stmt : string) (i : nat) :
  connect w (str_or cs (default_url w)) = Ok db ->
  _detect_schema db = Ok m ->
  e_skills (emp m) = None ->
  fst (_run_sql w q cs limit offset intent) = Ok env ->
  Dict.get "sql" env = Some (VStr stmt) ->
  (i < List.length (Re.findall skills_re (_normalize_tokens q)))%nat ->
  occurs (never_matching i) stmt
  /\ Dict.get "error" env = None /\ Dict.get "warning" env = None.
Proof.
  intros Hc Hd Hs Hrun Hsql Hi.
  destruct (run_sql_executed w q cs limit offset intent db m env stmt Hc Hd Hrun Hsql)
    as [where1 [where2 [eff [E1 [E2 Hx]]]]].
  cbv zeta in Hx. apply execute_envelope in Hx. destruct Hx as [S1 [S2 S3]].
  split; [|split; assumption].
  rewrite Hsql in S1. apply (f_equal (fun x => match x with
                                               | Some (VStr s) => s
                                               | _ => EmptyString
                                               end)) in S1.
  cbv beta iota in S1. rewrite S1. rewrite never_matching_shape.
  apply build_sql_keeps.
  - discriminate.
  - bracketed "D"%char.
  - bracketed "D"%char.
  - now apply (base_not_from_departments db).
  - rewrite <- never_matching_shape.
    apply (never_matching_markers (F := F) (emp m) i where1 where2); [|exact E2].
    apply (skills_resolved (F := F) (emp m) i
             (fst (_infer_filters (F := F) (_normalize_tokens q))) where1 Hs);
      [|exact E1].
    now apply skill_fragment_requested.
Qed.

(** When no guard answers, an envelope of [_run_sql] names the statement
    executed. *)
Lemma run_sql_past_guards (w : world F) (q : string) (cs : option string)
    (limit offset : Z) (intent : string) (db : database F) (m : mapping)
    (env : dict F) :
  connect w (str_or cs (default_url w)) = Ok db ->
  _detect_schema db = Ok m ->
  missing_entity (_normalize_tokens q) (db_tables db) = None ->
  e_email (emp m) <> None
  \/ (Re.found email_re (_normalize_tokens q) = false
      /\ wants_missing_email (_normalize_tokens q) = false) ->
  fst (_run_sql w q cs limit offset intent) = Ok env ->
  exists stmt, Dict.get "sql" env = Some (VStr stmt).
Proof.
  intros Hc Hd Hm Hg.
  destruct (email_guards_pass db m (_normalize_tokens q) Hd Hg) as [where1 [where2 [E1 E2]]].
  unfold _run_sql. rewrite Hc.
  destruct (_infer_filters (_normalize_tokens q)) as [where0 params]. rewrite Hd, Hm.
  cbn [fst] in E1. rewrite E1, E2.
  destruct (build_sql m _ _ limit offset where2 params) as [[sql count_sql] ps].
  intros H. apply execute_envelope in H. exists sql. tauto.
Qed.

(** C5 (as amended): on a connected schema whose mapping has no email
    column, a query that asks for the missing-email filter makes [_run_sql]
    return, without raising and without executing a statement, an envelope
    with empty rows and no statement: the missing-entity error when the
    entity guard fires, else the email-column error when the query holds an
    e-mail address, else the explicit warning.  On a mapping without a skills
    column, a query with a skills keyword is answered by the same three
    guards under the same conditions; whenever none of them applies, that is
    no absent entity is named and either there is an email column or the
    query holds no e-mail address and asks for no missing e-mail, every
    envelope returned names the statement executed, which has for each skills
    keyword the fragment whose skills side never matches and whose position
    side is kept, and carries neither error nor warning. *)
Theorem filter_without_backing_column (w : world F) (q : string)
    (cs : option string) (limit offset : Z) (intent : string) (db : database F)
    (m : mapping) :
  connect w (str_or cs (default_url w)) = Ok db ->
  _detect_schema db = Ok m ->
  let qn := _normalize_tokens q in
  (e_email (emp m) = None -> wants_missing_email qn = true ->
   exists env,
     _run_sql w q cs limit offset intent = (Ok env, [])
     /\ Dict.get "rows" env = Some (VList [])
     /\ Dict.get "sql" env = Some VNone
     /\ (forall t, missing_entity qn (db_tables db) = Some t ->
         env = missing_entity_error t)
     /\ (missing_entity qn (db_tables db) = None ->
         Re.found email_re qn = true -> env = email_column_error)
     /\ (missing_entity qn (db_tables db) = None ->
         Re.found email_re qn = false ->
         env = email_warning
         /\ Dict.get "warning" env
            = Some (VStr "Email column not present; cannot filter for missing email.")
         /\ Dict.get "error" env = None))
  /\ (e_skills (emp m) = None ->
      forall env i,
        fst (_run_sql w q cs limit offset intent) = Ok env ->
        (i < List.length (Re.findall skills_re qn))%nat ->
        (forall stmt, Dict.get "sql" env = Some (VStr stmt) ->
           occurs (never_matching i) stmt
           /\ Dict.get "error" env = None /\ Dict.get "warning" env = None)
        /\ (forall t, missing_entity qn (db_tables db) = Some t ->
            env = missing_entity_error t)
        /\ (missing_entity qn (db_tables db) = None -> e_email (emp m) = None ->
            Re.found email_re qn = true -> env = email_column_error)
        /\ (missing_entity qn (db_tables db) = None -> e_email (emp m) = None ->
            Re.found email_re qn = false -> wants_missing_email qn = true ->
            env = email_warning)
        /\ (missing_entity qn (db_tables db) = None ->
            e_email (emp m) <> None
            \/ (Re.found email_re qn = false /\ wants_missing_email qn = false) ->
            exists stmt,
              Dict.get "sql" env = Some (VStr stmt)
              /\ occurs (never_matching i) stmt
              /\ Dict.get "error" env = None /\ Dict.get "warning" env = None)).
Proof.
  intros Hc Hd qn.
  assert (A : e_email (emp m) = None -> wants_missing_email qn = true ->
              exists env,
                _run_sql w q cs limit offset intent = (Ok env, [])
                /\ Dict.get "rows" env = Some (VList [])
                /\ Dict.get "sql" env = Some VNone
                /\ (forall t, missing_entity qn (db_tables db) = Some t ->
                    env = missing_entity_error t)
                /\ (missing_entity qn (db_tables db) = None ->
                    Re.found email_re qn = true -> env = email_column_error)
                /\ (missing_entity qn (db_tables db) = None ->
                    Re.found email_re qn = false ->
                    env = email_warning
                    /\ Dict.get "warning" env
                       = Some (VStr
                                 "Email column not present; cannot filter for missing email.")
                    /\ Dict.get "error" env = None)).
  { intros He Hw.
    pose proof (email_marker_unresolved (F := F) (emp m) _ He
                  (email_marker_requested (F := F) qn Hw)) as R.
    rewrite (email_placeholder_iff db m qn Hd) in R.
    unfold _run_sql. rewrite Hc. fold qn.
    destruct (_infer_filters qn) as [where0 params]. cbn [fst] in *.
    rewrite Hd. destruct (missing_entity qn (db_tables db)) as [t|].
    + exists (missing_entity_error t). repeat split; try discriminate.
      now intros t' [= <-].
    + destruct (resolve_columns (emp m) where0) as [env|where1].
      * destruct R as [G ->]. exists email_column_error.
        repeat split; try discriminate; congruence.
      * destruct R as [G R]. rewrite R. exists email_warning.
        repeat split; try discriminate; congruence. }
  split; [exact A|].
  intros Hs env i Hrun Hi. split; [|split; [|split; [|split]]].
  - intros stmt Hsql.
    now apply (skills_branch_in_statement w q cs limit offset intent db m env stmt i).
  - intros t Ht. revert Hrun. unfold _run_sql. rewrite Hc. fold qn.
    destruct (_infer_filters qn) as [where0 params]. rewrite Hd, Ht.
    now intros [= <-].
  - intros Hm He Hf. revert Hrun. unfold _run_sql. rewrite Hc. fold qn.
    pose proof (email_placeholder_iff db m qn Hd) as P.
    destruct (_infer_filters qn) as [where0 params]. rewrite Hd, Hm. cbn [fst] in P.
    unfold resolve_columns. cbv zeta. rewrite P, Hf, He. cbn [truthy negb andb].
    now intros [= <-].
  - intros Hm He Hf Hw. destruct (A He Hw) as [env' [R [_ [_ [_ [_ K]]]]]].
    destruct (K Hm Hf) as [K1 _]. rewrite R in Hrun. cbn [fst] in Hrun. congruence.
  - intros Hm Hg.
    destruct (run_sql_past_guards w q cs limit offset intent db m env Hc Hd Hm Hg Hrun)
      as [stmt Hsql].
    exists stmt. split; [exact Hsql|].
    now apply (skills_branch_in_statement w q cs limit offset intent db m env stmt i).
Qed.

End Guards.

Lemma filter_without_backing_column_witness :
  _run_sql Sample.w "Employees without email" None 50 0 "select"
  = (Ok email_warning, [])
  /\ exists stmt,
       Dict.get "sql" Sample.python_env = Some (VStr stmt)
       /\ occurs (never_matching 0) stmt
       /\ Dict.get "error" Sample.python_env = None
       /\ Dict.get "warning" Sample.python_env = None.
Proof.
  split.
  - destruct (filter_without_backing_column Sample.w "Employees without email" None
                50 0 "select" Sample.plain_db Sample.plain_mapping eq_refl eq_refl)
      as [A _].
    destruct A as [env [E [_ [_ [_ [_ A]]]]]]; [reflexivity | vm_compute; reflexivity|].
    destruct A as [-> _]; [vm_compute; reflexivity | vm_compute; reflexivity|].
    exact E.
  - destruct (filter_without_backing_column Sample.w "Python developers" None
                50 0 "select" Sample.plain_db Sample.plain_mapping eq_refl eq_refl)
      as [_ B].
    destruct (B eq_refl Sample.python_env 0%nat) as [_ [_ [_ [_ K]]]].
    + vm_compute. reflexivity.
    + vm_compute. lia.
    + apply K; [vm_compute; reflexivity|]. right. split; vm_compute; reflexivity.
Defined.

(** C5, as stated, fails in both halves for a query that also names an
    absent entity: with no email column and the missing-email filter
    requested the envelope carries the missing-entity error and no warning,
    and with no skills column and a skills keyword requested the envelope
    carries the same error and names no statement. *)
Lemma unbacked_filters_behind_entity_guard :
  _detect_schema Sample.plain_db = Ok Sample.plain_mapping
  /\ e_email (emp Sample.plain_mapping) = None
  /\ e_skills (emp Sample.plain_mapping) = None
  /\ wants_missing_email (_normalize_tokens "vendors without email") = true
  /\ (exists env,
        _run_sql Sample.w "vendors without email" None 50 0 "select" = (Ok env, [])
        /\ Dict.get "warning" env = None
        /\ Dict.get "error" env
           = Some (VStr "error: not present in your database (missing entity: 'vendors')"))
  /\ Re.findall skills_re (_normalize_tokens "Python vendors") = ["python"]
  /\ (exists env,
        _run_sql Sample.w "Python vendors" None 50 0 "select" = (Ok env, [])
        /\ Dict.get "sql" env = Some VNone
        /\ Dict.get "error" env
           = Some (VStr "error: not present in your database (missing entity: 'vendors')")).
Proof.
  split; [vm_compute; reflexivity|]. split; [reflexivity|]. split; [reflexivity|].
  split; [vm_compute; reflexivity|].
  split; [eexists; split; [vm_compute; reflexivity|]; split; reflexivity|].
  split; [vm_compute; reflexivity|].
  eexists. split; [vm_compute; reflexivity|]. split; reflexivity.
Qed.

(** * Further properties *)

Lemma filter_differs_shorter (l : list string) (k : string) :
  In k l -> (List.length (filter (differs k) l) < List.length l)%nat.
Proof.
  induction l as [|x l IH]; [contradiction|]. intros Hk.
  simpl. unfold differs at 1. destruct (String.eqb_spec x k) as [->|N]; simpl.
  - pose proof (filter_length_le (differs k) l). lia.
  - destruct Hk as [E|I]; [congruence|]. specialize (IH I). lia.
Qed.

(** ** The LRU cache *)

Section LruFacts.
Context {V : Type}.
Implicit Types (c : LRUCache V) (d : list (string * V)) (k : string) (v : V).

Lemma get_remove_other d k k' : k' <> k -> Dict.get k' (Dict.remove k d) = Dict.get k' d.
Proof.
  intros Hne. induction d as [|[k0 v0] d IH]; simpl; [reflexivity|].
  destruct (String.eqb_spec k0 k) as [->|N]; simpl.
  - destruct (String.eqb_spec k k'); [congruence | exact IH].
  - destruct (String.eqb k0 k'); [reflexivity | exact IH].
Qed.

Lemma get_move_to_end_other d k k' :
  k' <> k -> Dict.get k' (LRU.move_to_end k d) = Dict.get k' d.
Proof.
  intros Hne. unfold LRU.move_to_end. destruct (Dict.get k d) as [v|]; [|reflexivity].
  rewrite get_app, get_remove_other by exact Hne.
  destruct (Dict.get k' d); [reflexivity|]. simpl.
  destruct (String.eqb_spec k k'); [congruence | reflexivity].
Qed.

(** The dictionary of [set] before the eviction. *)
Lemma get_before_eviction d k k' v :
  k' <> k ->
  Dict.get k' (Dict.set k v (if Dict.has k d then LRU.move_to_end k d else d))
  = Dict.get k' d.
Proof.
  intros Hne. rewrite get_set_other by exact Hne.
  destruct (Dict.has k d); [now apply get_move_to_end_other | reflexivity].
Qed.

Lemma get_tl d k :
  NoDup (Dict.keys d) -> Dict.get k (tl d) = Dict.get k d \/ Dict.get k (tl d) = None.
Proof.
  destruct d as [|[k0 v0] d]; simpl; [now left|]. intros H.
  destruct (String.eqb_spec k0 k) as [->|N]; [|now left].
  right. apply get_none_keys. now inversion H.
Qed.

Lemma nodup_keys_after_set (cap : Z) (l : list string) k :
  NoDup l -> NoDup (keys_after_set cap l k).
Proof.
  intros H. unfold keys_after_set, truncate.
  assert (N : NoDup (filter (differs k) l ++ [k])%list).
  { apply NoDup_app.
    - now apply NoDup_filter.
    - repeat constructor. intros [].
    - intros x I [<-|[]]. apply in_filter_differs in I. tauto. }
  destruct (cap <? _)%Z; [|exact N].
  destruct (filter (differs k) l ++ [k])%list; [exact N | now inversion N].
Qed.

Lemma length_keys d : List.length (Dict.keys d) = List.length d.
Proof. apply length_map. Qed.

Lemma keys_lru_get c k :
  Dict.keys (_cache (snd (LRU.get c k)))
  = if Dict.has k (_cache c)
    then (filter (differs k) (Dict.keys (_cache c)) ++ [k])%list
    else Dict.keys (_cache c).
Proof.
  unfold LRU.get, Dict.has. destruct (Dict.get k (_cache c)) as [v|] eqn:G; simpl.
  - apply keys_move_to_end. unfold Dict.has. now rewrite G.
  - reflexivity.
Qed.

End LruFacts.

(** X1: in a cache of capacity at least 1, [get] of a key right after its
    [set] returns the value set; a key that was absent and is not the one set
    is still absent, and [get] of it returns [None] and leaves the cache as
    it is. *)
Theorem lru_set_then_get {V : Type} (c : LRUCache V) (k : string) (v : V) :
  (1 <= capacity c)%Z ->
  fst (LRU.get (LRU.set c k v) k) = Some v
  /\ forall k', k' <> k -> Dict.get k' (_cache c) = None ->
       LRU.get (LRU.set c k v) k' = (None, LRU.set c k v).
Proof.
  intros H. split.
  - unfold LRU.get at 1. now rewrite (lru_get_after_set c k v H).
  - intros k' Hne Hk'. unfold LRU.get.
    assert (G : Dict.get k' (_cache (LRU.set c k v)) = None).
    { apply get_none_keys. rewrite keys_lru_set. unfold keys_after_set, truncate.
      intros I.
      assert (I' : In k' (filter (differs k) (Dict.keys (_cache c)) ++ [k])%list).
      { destruct (capacity c <? _)%Z; [|exact I].
        destruct (filter (differs k) (Dict.keys (_cache c)) ++ [k])%list;
          [exact I | now right]. }
      apply in_app_or in I'. destruct I' as [I'|[E|[]]]; [|congruence].
      apply in_filter_differs in I'. apply get_none_keys in Hk'. tauto. }
    now rewrite G.
Qed.

Lemma lru_set_then_get_witness :
  fst (LRU.get (LRU.set (LRU.empty 1) "a" 7) "a") = Some 7
  /\ forall k', k' <> "a" -> Dict.get k' (_cache (LRU.empty (V := nat) 1)) = None ->
       LRU.get (LRU.set (LRU.empty 1) "a" 7) k' = (None, LRU.set (LRU.empty 1) "a" 7).
Proof. apply (lru_set_then_get (LRU.empty 1) "a" 7). simpl. lia. Defined.

(** X2: a cache that holds no more entries than its capacity and no key
    twice is still so after [set] and after [get], and neither changes the
    capacity. *)
Theorem lru_keeps_invariant {V : Type} (c : LRUCache V) (k : string) (v : V) :
  within_capacity c -> NoDup (Dict.keys (_cache c)) ->
  (within_capacity (LRU.set c k v) /\ NoDup (Dict.keys (_cache (LRU.set c k v)))
   /\ capacity (LRU.set c k v) = capacity c)
  /\ (within_capacity (snd (LRU.get c k))
      /\ NoDup (Dict.keys (_cache (snd (LRU.get c k))))
      /\ capacity (snd (LRU.get c k)) = capacity c).
Proof.
  intros Hw Hn. split; [split; [|split]|split; [|split]].
  - now apply within_capacity_set.
  - rewrite keys_lru_set. now apply nodup_keys_after_set.
  - reflexivity.
  - unfold within_capacity in *.
    assert (C : capacity (snd (LRU.get c k)) = capacity c).
    { unfold LRU.get. now destruct (Dict.get k (_cache c)). }
    rewrite C, <- length_keys, keys_lru_get. rewrite <- length_keys in Hw.
    destruct (Dict.has k (_cache c)) eqn:Hk; [|exact Hw].
    apply has_keys, (filter_differs_shorter _ k) in Hk.
    rewrite length_app. simpl. lia.
  - rewrite keys_lru_get. destruct (Dict.has k (_cache c)); [|exact Hn].
    apply NoDup_app.
    + now apply NoDup_filter.
    + repeat constructor. intros [].
    + intros x I [<-|[]]. apply in_filter_differs in I. tauto.
  - unfold LRU.get. now destruct (Dict.get k (_cache c)).
Qed.

Lemma lru_keeps_invariant_witness :
  let c := LRU.set (LRU.set (LRU.empty 2) "a" 1) "b" 2 in
  (within_capacity (LRU.set c "a" 3) /\ NoDup (Dict.keys (_cache (LRU.set c "a" 3)))
   /\ capacity (LRU.set c "a" 3) = capacity c)
  /\ (within_capacity (snd (LRU.get c "a"))
      /\ NoDup (Dict.keys (_cache (snd (LRU.get c "a"))))
      /\ capacity (snd (LRU.get c "a")) = capacity c).
Proof.
  intros c. apply (lru_keeps_invariant c "a" 3).
  - unfold within_capacity. simpl. lia.
  - simpl. repeat constructor; simpl; intuition discriminate.
Defined.

(** X3: [set] of a key never changes the value of another key: afterwards
    another key has its value of before or is gone, and it is not gone when
    the key set was present already or the cache was below its capacity. *)
Theorem lru_set_keeps_other_keys {V : Type} (c : LRUCache V) (k k' : string) (v : V) :
  within_capacity c -> NoDup (Dict.keys (_cache c)) -> k' <> k ->
  (Dict.get k' (_cache (LRU.set c k v)) = Dict.get k' (_cache c)
   \/ Dict.get k' (_cache (LRU.set c k v)) = None)
  /\ (Dict.has k (_cache c) = true
      \/ (Z.of_nat (List.length (_cache c)) < capacity c)%Z ->
      Dict.get k' (_cache (LRU.set c k v)) = Dict.get k' (_cache c)).
Proof.
  intros Hw Hn Hne. unfold LRU.set. cbn [_cache].
  set (d := Dict.set k v (if Dict.has k (_cache c) then LRU.move_to_end k (_cache c)
                          else _cache c)).
  assert (G : Dict.get k' d = Dict.get k' (_cache c))
    by (now apply get_before_eviction).
  assert (K : Dict.keys d = (filter (differs k) (Dict.keys (_cache c)) ++ [k])%list).
  { subst d. rewrite keys_set. destruct (Dict.has k (_cache c)) eqn:H.
    - rewrite has_move_to_end by exact H. now apply keys_move_to_end.
    - rewrite H. rewrite filter_differs_id; [reflexivity|].
      intros I. apply has_keys in I. congruence. }
  assert (N : NoDup (Dict.keys d)).
  { rewrite K. apply NoDup_app.
    - now apply NoDup_filter.
    - repeat constructor. intros [].
    - intros x I [<-|[]]. apply in_filter_differs in I. tauto. }
  split.
  - destruct (capacity c <? _)%Z; [|now left].
    destruct (get_tl d k' N) as [E|E]; [left; congruence | now right].
  - intros H.
    assert (L : (Z.of_nat (List.length d) <= capacity c)%Z).
    { rewrite <- length_keys, K, length_app. simpl. unfold within_capacity in Hw.
      rewrite <- length_keys in Hw.
      pose proof (filter_length_le (differs k) (Dict.keys (_cache c))) as Lf.
      destruct H as [Hk|Hlt].
      - apply has_keys, (filter_differs_shorter _ k) in Hk. lia.
      - rewrite <- length_keys in Hlt. lia. }
    destruct (Z.ltb_spec (capacity c) (Z.of_nat (List.length d))); [lia | exact G].
Qed.

Lemma lru_set_keeps_other_keys_witness :
  let c := LRU.set (LRU.empty 2) "a" 1 in
  (Dict.get "a" (_cache (LRU.set c "b" 2)) = Dict.get "a" (_cache c)
   \/ Dict.get "a" (_cache (LRU.set c "b" 2)) = None)
  /\ (Dict.has "b" (_cache c) = true
      \/ (Z.of_nat (List.length (_cache c)) < capacity c)%Z ->
      Dict.get "a" (_cache (LRU.set c "b" 2)) = Dict.get "a" (_cache c)).
Proof.
  intros c. apply (lru_set_keeps_other_keys c "b" "a" 2).
  - unfold within_capacity. simpl. lia.
  - simpl. repeat constructor. intros [].
  - discriminate.
Defined.

(** ** The latency window, the counters and the history *)

Lemma trim_suffix {A : Type} (n : Z) (xs : list A) :
  (0 < n)%Z ->
  exists dropped,
    xs = (dropped ++ trim n xs)%list
    /\ List.length (trim n xs) = Nat.min (Z.to_nat n) (List.length xs).
Proof.
  intros H. unfold trim. destruct (Z.ltb_spec n (Z.of_nat (List.length xs))).
  - rewrite slice_from_last by exact H.
    exists (firstn (List.length xs - Z.to_nat n) xs). split.
    + symmetry. apply firstn_skipn.
    + rewrite length_skipn. lia.
  - exists []. split; [reflexivity | lia].
Qed.

Lemma trim_snoc {A : Type} (n : Z) (xs : list A) (x : A) :
  (0 < n)%Z -> exists pre, trim n (xs ++ [x]) = (pre ++ [x])%list.
Proof.
  intros H. destruct (trim_suffix n (xs ++ [x])%list H) as [dropped [E L]].
  rewrite length_app in L. simpl in L.
  assert (NE : trim n (xs ++ [x])%list <> []).
  { intros Z. rewrite Z in L. simpl in L. lia. }
  destruct (exists_last NE) as [pre [y Ey]]. rewrite Ey in E |- *.
  rewrite app_assoc in E. apply app_inj_tail in E. destruct E as [_ ->].
  now exists pre.
Qed.

Section Window.
Context {F : Type} {FO : PyFloat F}.
Implicit Types (w : world F) (st : state F).

(** X4: [_record_time] keeps the latest 500 latencies: the window afterwards
    is the end of the old window followed by the new latency, of length
    [min(500, n + 1)]. *)
Theorem record_time_keeps_latest (x : F) (m : metrics_state F) :
  exists dropped,
    (exec_times m ++ [x])%list = (dropped ++ exec_times (_record_time x m))%list
    /\ List.length (exec_times (_record_time x m))
       = Nat.min 500 (S (List.length (exec_times m)))
    /\ exists pre, exec_times (_record_time x m) = (pre ++ [x])%list.
Proof.
  destruct (trim_suffix 500 (exec_times m ++ [x])%list ltac:(lia)) as [dropped [E L]].
  exists dropped. cbn [_record_time exec_times]. split; [exact E|]. split.
  - rewrite L, length_app. cbn [List.length]. lia.
  - apply trim_snoc. lia.
Qed.

(** X5: every call of [process_query] counts one query and either one hit
    or one miss, the one that the [metrics] of its response name. *)
Theorem process_query_counts w st (q : string) (cs : option string)
    (l o dl do : Z) :
  let r := fst (process_query w st q cs l o dl do) in
  let m := metrics st in
  let m' := metrics (snd (process_query w st q cs l o dl do)) in
  total_queries m' = (total_queries m + 1)%Z
  /\ (cache_hits m' + cache_misses m' = cache_hits m + cache_misses m + 1)%Z
  /\ exists outcome,
       Dict.get "metrics" r
       = Some (VDict [("elapsed_sec", VFloat (elapsed w)); ("cache", VStr outcome)])
       /\ ((outcome = "hit" /\ cache_hits m' = (cache_hits m + 1)%Z
            /\ cache_misses m' = cache_misses m)
           \/ (outcome = "miss" /\ cache_misses m' = (cache_misses m + 1)%Z
               /\ cache_hits m' = cache_hits m)).
Proof.
  intros r m m'. subst r m m'.
  destruct (Dict.get (cache_key q cs l) (_cache (cache st))) as [env|] eqn:G.
  - rewrite (process_query_hit _ _ _ _ _ _ _ _ _ G). cbn [fst snd metrics _record_time
      count_query total_queries cache_hits cache_misses].
    split; [reflexivity|]. split; [lia|]. exists "hit".
    split; [apply metrics_with_metrics|]. left. repeat split.
  - rewrite (process_query_miss _ _ _ _ _ _ _ _ G). cbn [fst snd metrics _record_time
      count_query total_queries cache_hits cache_misses].
    split; [reflexivity|]. split; [lia|]. exists "miss".
    split; [apply metrics_with_metrics|]. right. repeat split.
Qed.

(** X6: [reset_metrics] zeroes what [get_metrics] reports of the queries
    and leaves the cache and the history alone: a query answered before the
    reset is still a hit after it, the first query counted. *)
Theorem reset_metrics_keeps_cache w st (q : string) (cs : option string)
    (l o dl do : Z) (env : dict F) :
  Dict.get (cache_key q cs l) (_cache (cache st)) = Some env ->
  let st0 := reset_metrics st in
  let after := process_query w st0 q cs l o dl do in
  (forall k, In k ["total_queries"; "cache_hits"; "cache_misses"; "active_queries";
                   "active_connections"] ->
     Dict.get k (get_metrics w st0) = Some (VInt 0))
  /\ Dict.get "avg_exec_sec" (get_metrics w st0) = Some (VFloat f_zero)
  /\ Dict.get "p95_exec_sec" (get_metrics w st0) = Some (VFloat f_zero)
  /\ Dict.get "recent_exec_times" (get_metrics w st0) = Some (VList [])
  /\ (forall limit, recent_history st0 limit = recent_history st limit)
  /\ fst after = with_metrics env (elapsed w) "hit"
  /\ Dict.get "total_queries" (get_metrics w (snd after)) = Some (VInt 1)
  /\ Dict.get "cache_hits" (get_metrics w (snd after)) = Some (VInt 1)
  /\ Dict.get "cache_misses" (get_metrics w (snd after)) = Some (VInt 0).
Proof.
  intros G st0 after.
  assert (G0 : Dict.get (cache_key q cs l) (_cache (cache st0)) = Some env) by exact G.
  subst after. rewrite (process_query_hit _ _ _ _ _ _ _ _ _ G0).
  unfold get_metrics. cbn [fst snd metrics].
  destruct (ingest_db w).
  all: split; [intros k [<-|[<-|[<-|[<-|[<-|[]]]]]]; reflexivity|].
  all: repeat split; reflexivity.
Qed.

(** X9: after every call of [process_query] the most recent entry of the
    history is the entry of that call: its query text, its type and whether
    it was a hit. *)
Theorem latest_history_entry w st (q : string) (cs : option string)
    (l o dl do : Z) :
  let r := fst (process_query w st q cs l o dl do) in
  let st' := snd (process_query w st q cs l o dl do) in
  exists outcome,
    Dict.get "metrics" r
    = Some (VDict [("elapsed_sec", VFloat (elapsed w)); ("cache", VStr outcome)])
    /\ recent_history st' 1
       = [[("q", VStr q); ("time", VFloat (elapsed w));
           ("type", get_or "type" VNone r); ("cache", VStr outcome)]].
Proof.
  intros r st'. subst r st'.
  assert (L : forall (h : list (dict F)) (e : dict F),
             rev (slice_from (-1) (h ++ [e])) = [e]).
  { intros h e. rewrite (slice_from_last 1) by lia. rewrite length_app. simpl.
    replace (List.length h + 1 - Pos.to_nat 1)%nat with (List.length h + 0)%nat by lia.
    rewrite skipn_app, skipn_all2 by lia.
    replace (List.length h + 0 - List.length h)%nat with 0%nat by lia. reflexivity. }
  destruct (Dict.get (cache_key q cs l) (_cache (cache st))) as [env|] eqn:G.
  - rewrite (process_query_hit _ _ _ _ _ _ _ _ _ G). cbn [fst snd].
    exists "hit". split; [apply metrics_with_metrics|].
    unfold recent_history. cbn [history]. rewrite L. unfold history_entry, get_or.
    rewrite get_with_metrics by discriminate. reflexivity.
  - rewrite (process_query_miss _ _ _ _ _ _ _ _ G). cbn [fst snd].
    exists "miss". split; [apply metrics_with_metrics|].
    unfold recent_history. cbn [history].
    match goal with
    | |- context [trim 100 (?h ++ [?e])%list] =>
        destruct (trim_snoc 100 h e ltac:(lia)) as [pre ->]
    end.
    rewrite L. reflexivity.
Qed.

(** X10: what [recent_history(limit)] returns: for a positive limit the
    [limit] latest entries, the latest first; for limit 0 the whole history;
    for a negative limit all but the [-limit] oldest entries. *)
Theorem recent_history_by_limit st (limit : Z) :
  recent_history st limit
  = if (0 <? limit)%Z then firstn (Z.to_nat limit) (rev (history st))
    else rev (skipn (Z.to_nat (- limit)) (history st)).
Proof.
  unfold recent_history, slice_from.
  destruct (Z.ltb_spec 0 limit) as [P|N].
  - destruct (Z.ltb_spec (- limit) 0); [|lia].
    rewrite firstn_rev. f_equal. f_equal. lia.
  - destruct (Z.ltb_spec (- limit) 0); [lia | reflexivity].
Qed.

End Window.

Lemma reset_metrics_keeps_cache_witness :
  let st := snd (process_query Sample.w (initial_state Z) "show employees" None 50 0 8 0) in
  let after := process_query Sample.w (reset_metrics st) "show employees" None 50 0 8 0 in
  Dict.get "total_queries" (get_metrics Sample.w (snd after)) = Some (VInt 1)
  /\ Dict.get "cache_hits" (get_metrics Sample.w (snd after)) = Some (VInt 1)
  /\ Dict.get "cache_misses" (get_metrics Sample.w (snd after)) = Some (VInt 0).
Proof.
  intros st after.
  assert (G : Dict.get (cache_key "show employees" None 50) (_cache (cache st))
              = Some (compute Sample.w "show employees" None 50 0 8 0))
    by (vm_compute; reflexivity).
  apply (reset_metrics_keeps_cache Sample.w st "show employees" None 50 0 8 0 _ G).
Defined.

Section Failures.
Context {F : Type} {FO : PyFloat F}.
Implicit Types (w : world F) (st : state F).

(** X7: when the SQL path of a query routed to SQL raises, the response
    is the error envelope with the message of the exception, and that
    envelope is cached: the same query, with any pagination and whatever the
    database does by then, is answered with the same error as a hit. *)
Theorem sql_failure_is_cached w1 w2 st (q : string) (cs : option string)
    (l o dl do o2 dl2 do2 : Z) (msg : string) :
  (1 <= capacity (cache st))%Z ->
  Dict.get (cache_key q cs l) (_cache (cache st)) = None ->
  _classify q = "sql" ->
  fst (_run_sql w1 q cs l o (_infer_intent (_normalize_tokens q))) = Raise msg ->
  let envelope outcome t : dict F :=
    [("type", VStr "sql"); ("error", VStr msg); ("rows", VList []);
     ("metrics", VDict [("elapsed_sec", VFloat t); ("cache", VStr outcome)])] in
  fst (process_query w1 st q cs l o dl do) = envelope "miss" (elapsed w1)
  /\ fst (process_query w2 (snd (process_query w1 st q cs l o dl do)) q cs l o2 dl2 do2)
     = envelope "hit" (elapsed w2).
Proof.
  intros Hcap Hnew Hsql Hraise envelope.
  assert (C : compute w1 q cs l o dl do
              = [("type", VStr "sql"); ("error", VStr msg); ("rows", VList [])]).
  { unfold compute. rewrite Hsql. cbv zeta.
    change (String.eqb "sql" "sql") with true. cbn [orb].
    rewrite Hraise. reflexivity. }
  rewrite (process_query_miss _ _ _ _ _ _ _ _ Hnew). cbn [fst snd].
  rewrite C. split; [reflexivity|].
  rewrite (process_query_hit w2 _ q cs l o2 dl2 do2
             [("type", VStr "sql"); ("error", VStr msg); ("rows", VList [])]).
  - reflexivity.
  - cbn [cache]. now apply lru_get_after_set.
Qed.

(** X8: a query routed to documents only never reads the database: its
    response and the state afterwards are the same whatever connecting does,
    and whatever the row offset is. *)
Theorem document_query_ignores_database w1 w2 st (q : string) (cs : option string)
    (l o1 o2 dl do : Z) :
  _classify q = "document" ->
  ingest_db w1 = ingest_db w2 -> encode w1 q = encode w2 q ->
  elapsed w1 = elapsed w2 ->
  process_query w1 st q cs l o1 dl do = process_query w2 st q cs l o2 dl do.
Proof.
  intros Hdoc Hi He Ht.
  assert (C : compute w1 q cs l o1 dl do = compute w2 q cs l o2 dl do).
  { unfold compute. rewrite Hdoc. cbv zeta.
    change (String.eqb "document" "sql") with false.
    change (String.eqb "document" "hybrid") with false.
    change (String.eqb "document" "document") with true. cbn [orb].
    unfold _search_documents. now rewrite Hi, He. }
  unfold process_query. rewrite C, Ht. reflexivity.
Qed.

(** X11: a query routed to SQL only never runs the document search: it
    reads neither the ingestion store nor the embedding of the query, so with
    the same database, the same intent model and the same clock its response
    and the state afterwards are the same whatever the store holds, whatever
    the embedding of the query would be, and whatever the document pagination
    is. *)
Theorem sql_query_ignores_documents w1 w2 st (q : string) (cs : option string)
    (l o dl1 do1 dl2 do2 : Z) :
  _classify q = "sql" ->
  default_url w1 = default_url w2 ->
  connect w1 (str_or cs (default_url w1)) = connect w2 (str_or cs (default_url w1)) ->
  ml_predict_intent w1 = ml_predict_intent w2 ->
  elapsed w1 = elapsed w2 ->
  process_query w1 st q cs l o dl1 do1 = process_query w2 st q cs l o dl2 do2.
Proof.
  intros Hsql Hu Hc Hm Ht.
  assert (R : forall intent, _run_sql w1 q cs l o intent = _run_sql w2 q cs l o intent).
  { intros intent. unfold _run_sql, effective_intent. now rewrite <- Hu, Hc, Hm. }
  assert (C : compute w1 q cs l o dl1 do1 = compute w2 q cs l o dl2 do2).
  { unfold compute. rewrite Hsql. cbv zeta.
    change (String.eqb "sql" "sql") with true.
    change (String.eqb "sql" "document") with false.
    change (String.eqb "sql" "hybrid") with false. cbn [orb].
    now rewrite R. }
  unfold process_query. rewrite C, Ht. reflexivity.
Qed.

End Failures.

Lemma sql_failure_is_cached_witness :
  let st1 := snd (process_query Outage.w_down (initial_state Z) "show employees" None 50 0 8 0) in
  fst (process_query Outage.w_down (initial_state Z) "show employees" None 50 0 8 0)
  = [("type", VStr "sql"); ("error", VStr "unable to open database file");
     ("rows", VList []);
     ("metrics", VDict [("elapsed_sec", VFloat 3%Z); ("cache", VStr "miss")])]
  /\ fst (process_query Sample.w st1 "show employees" None 50 10 8 0)
     = [("type", VStr "sql"); ("error", VStr "unable to open database file");
        ("rows", VList []);
        ("metrics", VDict [("elapsed_sec", VFloat 3%Z); ("cache", VStr "hit")])].
Proof.
  assert (C : _classify "show employees" = "sql") by (vm_compute; reflexivity).
  exact (sql_failure_is_cached Outage.w_down Sample.w (initial_state Z) "show employees"
           None 50 0 8 0 10 8 0 "unable to open database file"
           ltac:(simpl; lia) eq_refl C eq_refl).
Defined.

Lemma document_query_ignores_database_witness :
  process_query Sample.w_docs (initial_state Z) "termination policy" None 50 0 8 0
  = process_query Outage.w_down (initial_state Z) "termination policy" None 50 5 8 0.
Proof.
  assert (C : _classify "termination policy" = "document") by (vm_compute; reflexivity).
  exact (document_query_ignores_database Sample.w_docs Outage.w_down (initial_state Z)
           "termination policy" None 50 0 5 8 0 C eq_refl eq_refl eq_refl).
Defined.

Lemma sql_query_ignores_documents_witness :
  process_query Sample.w (initial_state Z) "show employees" None 50 0 8 0
  = process_query Sample.w_docs (initial_state Z) "show employees" None 50 0 3 2.
Proof.
  assert (C : _classify "show employees" = "sql") by (vm_compute; reflexivity).
  exact (sql_query_ignores_documents Sample.w Sample.w_docs (initial_state Z)
           "show employees" None 50 0 8 0 3 2 C eq_refl eq_refl eq_refl eq_refl).
Defined.

(** ** The filters *)

Lemma of_Z_injective (a b : Z) : Str.of_Z a = Str.of_Z b -> a = b.
Proof.
  assert (E : forall n, Str.of_Z n = NilEmpty.string_of_int (Z.to_int n))
    by (intros []; reflexivity).
  rewrite !E. intros H.
  apply (f_equal NilEmpty.int_of_string) in H. rewrite !NilEmpty.isi in H.
  injection H as H. apply (f_equal Z.of_int) in H. now rewrite !DecimalZ.of_to in H.
Qed.

Lemma of_nat_injective (i j : nat) : Str.of_nat i = Str.of_nat j -> i = j.
Proof. unfold Str.of_nat. intros H. apply of_Z_injective in H. lia. Qed.

Lemma append_injective (p a b : string) : p ++ a = p ++ b -> a = b.
Proof. induction p as [|c p IH]; simpl; [tauto | intros [= H]; now apply IH]. Qed.

Lemma skill_key_injective (i j : nat) : skill_key i = skill_key j -> i = j.
Proof. intros H. now apply append_injective, of_nat_injective in H. Qed.

Lemma pos_key_injective (i j : nat) : pos_key i = pos_key j -> i = j.
Proof. intros H. now apply append_injective, of_nat_injective in H. Qed.

Lemma nodup_map_injective {A B : Type} (f : A -> B) (l : list A) :
  (forall x y, f x = f y -> x = y) -> NoDup l -> NoDup (map f l).
Proof.
  intros Hf. induction 1 as [|x l Hx _ IH]; simpl; constructor; [|exact IH].
  intros I. apply in_map_iff in I. destruct I as [y [E I]].
  apply Hf in E. now subst y.
Qed.

Section Subsequences.
Context {A : Type}.

Lemma subseq_nil_l (l : list A) : subseq [] l.
Proof. induction l; constructor; assumption. Qed.

Lemma subseq_refl (l : list A) : subseq l l.
Proof. induction l; constructor; assumption. Qed.

Lemma subseq_app (s1 l1 s2 l2 : list A) :
  subseq s1 l1 -> subseq s2 l2 -> subseq (s1 ++ s2) (l1 ++ l2).
Proof.
  induction 1; simpl; intros H2;
    [exact H2 | apply subseq_skip | apply subseq_keep]; auto.
Qed.

Lemma subseq_in (s l : list A) (x : A) : subseq s l -> In x s -> In x l.
Proof. induction 1; simpl; intuition. Qed.

Lemma subseq_nodup (s l : list A) : subseq s l -> NoDup l -> NoDup s.
Proof.
  induction 1 as [|x s l H IH|x s l H IH]; intros N.
  - constructor.
  - inversion N. auto.
  - inversion N as [|? ? Hx Hl]. constructor; [|auto].
    intros I. apply Hx. now apply (subseq_in s l).
Qed.

End Subsequences.

Section Bindings.
Context {F : Type}.

Lemma skill_loop_spec (skills : list string) :
  forall i,
    skill_loop (F := F) i skills
    = (map skill_fragment (seq i (List.length skills)),
       map (fun p => (skill_key (fst p), like (snd p)))
         (combine (seq i (List.length skills)) skills)).
Proof.
  induction skills as [|sk rest IH]; intros i; [reflexivity|].
  cbn [skill_loop]. rewrite (IH (S i)). reflexivity.
Qed.

Lemma pos_loop_spec (pos : list string) :
  forall i,
    pos_loop (F := F) i pos
    = (map position_clause (seq i (List.length pos)),
       map (fun p => (pos_key (fst p), like (snd p)))
         (combine (seq i (List.length pos)) pos)).
Proof.
  induction pos as [|p rest IH]; intros i; [reflexivity|].
  cbn [pos_loop]. rewrite (IH (S i)). reflexivity.
Qed.

Lemma keys_numbered (key : nat -> string) (xs : list string) (i : nat) :
  map fst (map (fun p => (key (fst p), like (F := F) (snd p)))
             (combine (seq i (List.length xs)) xs))
  = map key (seq i (List.length xs)).
Proof.
  revert i. induction xs as [|x xs IH]; intros i; [reflexivity|].
  simpl. now rewrite IH.
Qed.

Lemma in_numbered (key : nat -> string) (xs : list string) (j : nat) (x : string) :
  nth_error xs j = Some x ->
  forall i,
    In (key (i + j)%nat, like (F := F) x)
       (map (fun p => (key (fst p), like (snd p)))
          (combine (seq i (List.length xs)) xs)).
Proof.
  revert j. induction xs as [|y xs IH]; intros [|j] H i; try discriminate; simpl.
  - injection H as ->. left. now rewrite Nat.add_0_r.
  - right. rewrite Nat.add_succ_r. exact (IH j H (S i)).
Qed.

Lemma step_position_spec (q : string) :
  step_position (F := F) q
  = match Re.findall position_re q with
    | [] => no_step
    | pos =>
        ([position_fragment (List.length pos)],
         map (fun p => (pos_key (fst p), like (snd p)))
           (combine (seq 0 (List.length pos)) pos))
    end.
Proof.
  unfold step_position. destruct (Re.findall position_re q) as [|p pos]; [reflexivity|].
  now rewrite pos_loop_spec.
Qed.

Ltac one_step :=
  unfold step_this_year, step_year_in, step_year_after, step_year_before,
    step_year_between, step_reports_to, step_id, step_email, step_missing_email,
    step_missing, step_department, step_name;
  repeat match goal with
         | |- context [match ?c with _ => _ end] => destruct c
         end;
  cbn [fst snd no_step map].

(** X12: the text of the filters is made of fixed fragments and numbered
    parameter names: no character of the query is copied into it. *)
Theorem infer_filters_templates (q : string) :
  Forall templated (where_list (F := F) q)
  /\ fst (_infer_filters (F := F) q) = Str.join " AND " (where_list (F := F) q).
Proof.
  split; [|reflexivity].
  unfold where_list. apply Forall_concat.
  unfold filter_steps, missing_steps. cbn [map app].
  repeat (apply Forall_cons; [|]); try apply Forall_nil.
  all: try solve [one_step; repeat (apply Forall_cons || apply Forall_nil);
                  unfold templated; left; cbv [fixed_fragments]; cbn; tauto].
  - unfold step_skills. rewrite skill_loop_spec. cbn [fst].
    apply Forall_map, Forall_forall. intros i _. unfold templated.
    right. left. now exists i.
  - rewrite step_position_spec. destruct (Re.findall position_re q) as [|p pos];
      [constructor|].
    apply Forall_cons; [|apply Forall_nil]. unfold templated.
    right. right. now exists (List.length pos).
Qed.

Lemma assign_all_other (k : string) (kvs : list (string * value F)) :
  forall d : dict F,
    ~ In k (map fst kvs) -> Dict.get k (assign_all kvs d) = Dict.get k d.
Proof.
  unfold assign_all. induction kvs as [|[k' v] kvs IH]; intros d H; simpl; [reflexivity|].
  simpl in H. rewrite IH by tauto. apply get_set_other. intros ->. tauto.
Qed.

Lemma assign_all_get (k : string) (v : value F) (kvs : list (string * value F)) :
  forall d : dict F,
    NoDup (map fst kvs) -> In (k, v) kvs -> Dict.get k (assign_all kvs d) = Some v.
Proof.
  induction kvs as [|[k' v'] kvs IH]; intros d N I; [contradiction|].
  simpl in N. inversion N as [|? ? Hk Hn]; subst. destruct I as [[= -> ->]|I].
  - change (assign_all ((k, v) :: kvs) d) with (assign_all kvs (Dict.set k v d)).
    rewrite assign_all_other by exact Hk. apply get_set_same.
  - change (assign_all ((k', v') :: kvs) d) with (assign_all kvs (Dict.set k' v' d)).
    now apply IH.
Qed.

Lemma assign_all_inv (k : string) (v : value F) (kvs : list (string * value F)) :
  forall d : dict F,
    NoDup (map fst kvs) -> Dict.get k (assign_all kvs d) = Some v ->
    In (k, v) kvs \/ Dict.get k d = Some v.
Proof.
  intros d N H. destruct (in_dec string_dec k (map fst kvs)) as [I|I].
  - left. apply in_map_iff in I. destruct I as [[k0 v0] [E I]]. simpl in E. subst k0.
    rewrite (assign_all_get k v0 kvs d N I) in H. now injection H as <-.
  - right. now rewrite assign_all_other in H.
Qed.

Lemma parameter_names_nodup (n m : nat) : NoDup (parameter_names n m).
Proof.
  assert (S : forall x, In x (map skill_key (seq 0 n)) -> exists i, x = skill_key i).
  { intros x I. apply in_map_iff in I. destruct I as [i [<- _]]. now exists i. }
  assert (P : forall x, In x (map pos_key (seq 0 m)) -> exists i, x = pos_key i).
  { intros x I. apply in_map_iff in I. destruct I as [i [<- _]]. now exists i. }
  assert (NS : NoDup (map skill_key (seq 0 n))).
  { apply nodup_map_injective; [exact skill_key_injective | apply seq_NoDup]. }
  assert (NP : NoDup (map pos_key (seq 0 m))).
  { apply nodup_map_injective; [exact pos_key_injective | apply seq_NoDup]. }
  unfold parameter_names.
  apply NoDup_app; [| apply NoDup_app; [exact NS | apply NoDup_app;
                     [| apply NoDup_app; [exact NP | |] |] |] |].
  - repeat constructor; simpl; intuition discriminate.
  - repeat constructor; simpl; intuition discriminate.
  - repeat constructor. intros [].
  - intros x I [<-|[]]. apply P in I. destruct I as [i E]. discriminate E.
  - intros x I J. apply in_app_or in J. destruct J as [J|[<-|[]]].
    + apply P in J. destruct J as [i ->]. simpl in I.
      repeat destruct I as [I|I]; try discriminate I; contradiction.
    + simpl in I. repeat destruct I as [I|I]; try discriminate I; contradiction.
  - intros x I J. apply S in I. destruct I as [i ->].
    apply in_app_or in J. destruct J as [J|J].
    + simpl in J. repeat destruct J as [J|J]; try discriminate J; contradiction.
    + apply in_app_or in J. destruct J as [J|[J|[]]].
      * apply P in J. destruct J as [j E]. discriminate E.
      * discriminate J.
  - intros x I J. apply in_app_or in J. destruct J as [J|J].
    + apply S in J. destruct J as [i ->]. simpl in I.
      repeat destruct I as [I|I]; try discriminate I; contradiction.
    + apply in_app_or in J. destruct J as [J|J].
      * simpl in I, J.
        repeat destruct I as [I|I]; try contradiction; subst x;
          repeat destruct J as [J|J]; try discriminate J; contradiction.
      * apply in_app_or in J. destruct J as [J|[<-|[]]].
        -- apply P in J. destruct J as [j ->]. simpl in I.
           repeat destruct I as [I|I]; try discriminate I; contradiction.
        -- simpl in I. repeat destruct I as [I|I]; try discriminate I; contradiction.
Qed.

Lemma assigned_names (q : string) :
  subseq (map fst (assigned (F := F) q))
    (parameter_names (List.length (Re.findall skills_re q))
       (List.length (Re.findall position_re q))).
Proof.
  unfold assigned, filter_steps, missing_steps. cbn [map app List.concat].
  rewrite !map_app.
  change (parameter_names ?n ?m)
    with ([] ++ ["year_in"] ++ ["year_after"] ++ ["year_before"]
          ++ ["year_b1"; "year_b2"] ++ map skill_key (seq 0 n)
          ++ ["reports_to_name"] ++ ["id_exact"] ++ ["email_exact"]
          ++ [] ++ [] ++ [] ++ [] ++ [] ++ [] ++ [] ++ []
          ++ ["dept_kw"] ++ map pos_key (seq 0 m) ++ ["name_like"] ++ [])%list.
  repeat (apply subseq_app; [|]); try apply subseq_nil.
  all: try solve [one_step; repeat constructor].
  - unfold step_skills. rewrite skill_loop_spec. cbn [snd].
    rewrite keys_numbered. apply subseq_refl.
  - rewrite step_position_spec. destruct (Re.findall position_re q) as [|p pos];
      [apply subseq_nil_l|].
    cbn [snd]. rewrite keys_numbered. apply subseq_refl.
Qed.

(** X13: the parameters that [_infer_filters] returns are exactly what its
    recognizers assign, none overwriting another; in particular the [i]-th
    skills keyword [sk] is bound as [%sk%] under [skill_kw_i] and the [i]-th
    position keyword likewise under [pos_kw_i]. *)
Theorem infer_filters_binds (q : string) :
  let params := snd (_infer_filters (F := F) q) in
  (forall k v, Dict.get k params = Some v <-> In (k, v) (assigned q))
  /\ (forall i sk, nth_error (Re.findall skills_re q) i = Some sk ->
        Dict.get (skill_key i) params = Some (like sk))
  /\ (forall i p, nth_error (Re.findall position_re q) i = Some p ->
        Dict.get (pos_key i) params = Some (like p)).
Proof.
  intros params.
  assert (N : NoDup (map fst (assigned (F := F) q))).
  { apply (subseq_nodup _ _ (assigned_names q)), parameter_names_nodup. }
  assert (A : forall k v, Dict.get k params = Some v <-> In (k, v) (assigned q)).
  { intros k v. subst params. unfold _infer_filters. cbn [snd].
    fold (assigned (F := F) q). split.
    - intros H. apply assign_all_inv in H; [|exact N].
      destruct H as [H|H]; [exact H | discriminate].
    - now apply assign_all_get. }
  split; [exact A|]. split.
  - intros i sk H. apply A. unfold assigned. apply in_concat.
    exists (snd (step_skills (F := F) q)). split.
    + unfold filter_steps. cbn [map app]. do 5 right. now left.
    + unfold step_skills. rewrite skill_loop_spec. cbn [snd].
      exact (in_numbered skill_key _ i sk H 0).
  - intros i p H. apply A. unfold assigned. apply in_concat.
    exists (snd (step_position (F := F) q)). split.
    + unfold filter_steps, missing_steps. cbn [map app]. do 18 right. now left.
    + rewrite step_position_spec.
      destruct (Re.findall position_re q) as [|p0 pos] eqn:E;
        [destruct i; discriminate|].
      cbn [snd]. exact (in_numbered pos_key _ i p H 0).
Qed.

End Bindings.

(** ** Normalisation *)

Lemma every_app (p : ascii -> bool) (a b : string) :
  every p (a ++ b) = every p a && every p b.
Proof. induction a as [|c a IH]; simpl; [reflexivity | now rewrite IH, andb_assoc]. Qed.

Lemma lower_char_not_upper (c : ascii) : Str.is_upper (Str.lower_char c) = false.
Proof. destruct c as [[] [] [] [] [] [] [] []]; reflexivity. Qed.

Lemma lower_every (s : string) : every (fun c => negb (Str.is_upper c)) (Str.lower s) = true.
Proof.
  induction s as [|c s IH]; simpl; [reflexivity|].
  now rewrite lower_char_not_upper, IH.
Qed.

Lemma every_lower (s : string) :
  every (fun c => negb (Str.is_upper c)) s = true -> Str.lower s = s.
Proof.
  induction s as [|c s IH]; simpl; [reflexivity|]. intros H.
  apply andb_prop in H. destruct H as [Hc Hs]. apply negb_true_iff in Hc.
  unfold Str.lower_char. now rewrite Hc, IH.
Qed.

(** A match of a literal consumes the literal. *)
Lemma rmatch_lit {X : Type} (k : string) :
  forall (prev : option ascii) (s : string) (g : groups)
         (cont : option ascii -> string -> groups -> option X) (x : X),
    rmatch (lit k) prev s g cont = Some x ->
    exists p' s', s = k ++ s' /\ cont p' s' g = Some x.
Proof.
  induction k as [|c k IH]; intros prev s g cont x; simpl.
  - intros H. now exists prev, s.
  - destruct k as [|d k].
    + simpl. destruct s as [|a s]; [discriminate|].
      destruct (Ascii.eqb_spec a c) as [->|]; [|discriminate].
      intros H. now exists (Some c), s.
    + cbn [rmatch]. destruct s as [|a s]; [discriminate|].
      destruct (Ascii.eqb_spec a c) as [->|]; [|discriminate].
      intros H. apply IH in H. destruct H as [p' [s' [-> H]]]. now exists p', s'.
Qed.

(** A match of [\bk\b] starts with [k]. *)
Lemma match_here_word (k : string) (prev : option ascii) (s : string)
    (g : groups) (p' : option ascii) (s' : string) :
  match_here (word k) prev s = Some (g, p', s') -> s = k ++ s'.
Proof.
  unfold match_here, word. cbn [cat rmatch].
  destruct (at_boundary prev s); [|discriminate].
  intros H. apply rmatch_lit in H. destruct H as [p1 [s1 [-> H]]].
  destruct (at_boundary p1 s1); [|discriminate]. now injection H as _ _ ->.
Qed.

Lemma sub_go_every (p : ascii -> bool) (k repl : string) :
  every p repl = true ->
  forall fuel prev s,
    every p s = true -> every p (sub_go fuel (word k) repl prev s) = true.
Proof.
  intros Hr. induction fuel as [|fuel IH]; intros prev s Hs; [exact Hs|].
  cbn [sub_go]. destruct (match_here (word k) prev s) as [[[g p'] s']|] eqn:M.
  - apply match_here_word in M. subst s. rewrite every_app in Hs.
    apply andb_prop in Hs. destruct Hs as [Hk Hs'].
    destruct (String.length s' <? String.length (k ++ s'))%nat.
    + rewrite every_app, Hr. now apply IH.
    + destruct (k ++ s') as [|c t] eqn:E; [exact Hr|].
      assert (Hct : every p (String c t) = true)
        by (rewrite <- E, every_app, Hk; exact Hs').
      simpl in Hct. apply andb_prop in Hct. destruct Hct as [Hc Ht].
      rewrite every_app, Hr. simpl. rewrite Hc. now apply IH.
  - destruct s as [|c t]; [reflexivity|]. simpl in Hs |- *.
    apply andb_prop in Hs. destruct Hs as [Hc Ht]. rewrite Hc. now apply IH.
Qed.

(** Where the pattern is not found [re.sub] changes nothing. *)
Lemma sub_go_not_found (r : regex) (repl : string) :
  forall fuel prev s, search_from r prev s = None -> sub_go fuel r repl prev s = s.
Proof.
  induction fuel as [|fuel IH]; intros prev s H; [reflexivity|].
  cbn [sub_go]. destruct s as [|c t]; cbn [search_from] in H.
  - destruct (match_here r prev EmptyString) as [[[g p'] s']|]; [discriminate|reflexivity].
  - destruct (match_here r prev (String c t)) as [[[g p'] s']|]; [discriminate|].
    now rewrite IH.
Qed.

Lemma sub_not_found (r : regex) (repl s : string) :
  found r s = false -> sub r repl s = s.
Proof.
  unfold found, search, sub. intros H. apply sub_go_not_found.
  now destruct (search_from r None s).
Qed.

(** X14: [_normalize_tokens] returns lower-case text, and it is the
    lower-cased query itself when none of the synonyms is a word of it. *)
Theorem normalize_tokens_lowercase (query : string) :
  Str.lower (_normalize_tokens query) = _normalize_tokens query
  /\ (forallb (fun kv => negb (found (word (fst kv)) (Str.lower query))) synonyms = true ->
      _normalize_tokens query = Str.lower query).
Proof.
  split.
  - apply every_lower. unfold _normalize_tokens.
    assert (G : forall (syn : list (string * string)) (q : string),
               forallb (fun kv => every (fun c => negb (Str.is_upper c)) (snd kv)) syn = true ->
               every (fun c => negb (Str.is_upper c)) q = true ->
               every (fun c => negb (Str.is_upper c))
                 (fold_left (fun q kv => sub (word (fst kv)) (snd kv) q) syn q) = true).
    { induction syn as [|[k v] syn IH]; intros q Hs Hq; [exact Hq|].
      simpl in Hs. apply andb_prop in Hs. destruct Hs as [Hv Hs]. simpl.
      apply IH; [exact Hs|]. unfold sub. now apply sub_go_every. }
    apply G; [reflexivity | apply lower_every].
  - unfold _normalize_tokens. generalize (Str.lower query). intros q.
    induction synonyms as [|[k v] syn IH]; [reflexivity|].
    simpl. intros H. apply andb_prop in H. destruct H as [Hk Hs].
    apply negb_true_iff in Hk. rewrite (sub_not_found _ _ _ Hk). now apply IH.
Qed.

(** ** The cache key *)

(** Decoding undoes the escaping of one character. *)
Lemma json_unchar_char (c : ascii) (rest : string) :
  json_unchar (json_char c ++ rest) = Some (c, rest).
Proof. destruct c as [[] [] [] [] [] [] [] []]; reflexivity. Qed.

Lemma json_unchar_quote (rest : string) : json_unchar (dq ++ rest) = None.
Proof. reflexivity. Qed.

(** The body of a JSON string ends at its closing quote. *)
Lemma json_chars_delimited (s : string) :
  forall s' rest rest',
    json_chars s ++ dq ++ rest = json_chars s' ++ dq ++ rest' ->
    s = s' /\ rest = rest'.
Proof.
  induction s as [|c s IH]; intros [|c' s'] rest rest' H; cbn [json_chars] in H.
  - split; [reflexivity|]. now injection H.
  - apply (f_equal json_unchar) in H. rewrite append_assoc, json_unchar_char in H.
    discriminate.
  - apply (f_equal json_unchar) in H. rewrite append_assoc, json_unchar_char in H.
    discriminate.
  - apply (f_equal json_unchar) in H. rewrite !append_assoc, !json_unchar_char in H.
    injection H as -> H. apply IH in H. destruct H as [-> ->]. now split.
Qed.

Lemma json_str_delimited (s s' rest rest' : string) :
  json_str s ++ rest = json_str s' ++ rest' -> s = s' /\ rest = rest'.
Proof.
  unfold json_str. rewrite !append_assoc. intros H.
  apply append_injective in H. now apply json_chars_delimited in H.
Qed.

Lemma json_opt_str_delimited (s s' : option string) (rest rest' : string) :
  json_opt_str s ++ rest = json_opt_str s' ++ rest' -> s = s' /\ rest = rest'.
Proof.
  destruct s as [s|], s' as [s'|]; cbn [json_opt_str]; intros H.
  - apply json_str_delimited in H. destruct H as [-> ->]. now split.
  - discriminate.
  - discriminate.
  - split; [reflexivity|]. now apply (append_injective "null").
Qed.

(** A text without [c] ends at the first [c]. *)
Lemma delimited_by (c : ascii) (x : string) :
  forall x' rest rest',
    has c x = false -> has c x' = false ->
    x ++ String c rest = x' ++ String c rest' -> x = x' /\ rest = rest'.
Proof.
  induction x as [|a x IH]; intros [|a' x'] rest rest' Hx Hx' H; simpl in *.
  - split; [reflexivity|]. now injection H.
  - injection H as <- _. now rewrite Ascii.eqb_refl in Hx'.
  - injection H as -> _. now rewrite Ascii.eqb_refl in Hx.
  - injection H as -> H. apply orb_false_iff in Hx, Hx'.
    destruct (IH x' rest rest') as [-> ->]; tauto.
Qed.

Lemma of_Z_no_comma (n : Z) : has "," (Str.of_Z n) = false.
Proof.
  destruct (has "," (Str.of_Z n)) eqn:E; [|reflexivity]. exfalso.
  unfold Str.of_Z in E. destruct n as [|p|p].
  - discriminate.
  - cbn [NilEmpty.string_of_int Z.to_int] in E. apply string_of_uint_digits in E.
    discriminate.
  - cbn [NilEmpty.string_of_int Z.to_int has] in E.
    apply orb_prop in E. destruct E as [E|E]; [discriminate|].
    apply string_of_uint_digits in E. discriminate.
Qed.

(** X15: on ASCII text the cache key determines the query text, the
    connection string and the row limit: two requests whose query texts and
    connection strings are ASCII share a cache entry exactly when they agree
    on the three. *)
Theorem cache_key_injective (q q' : string) (cs cs' : option string) (l l' : Z) :
  ascii_text q = true -> ascii_text q' = true ->
  ascii_text (str_or cs EmptyString) = true ->
  ascii_text (str_or cs' EmptyString) = true ->
  cache_key q cs l = cache_key q' cs' l' <-> q = q' /\ cs = cs' /\ l = l'.
Proof.
  intros _ _ _ _.
  split; [|intros [-> [-> ->]]; reflexivity].
  unfold cache_key. intros H.
  apply (append_injective "{") in H.
  apply (append_injective (json_str "cs")) in H.
  apply (append_injective ": ") in H.
  apply json_opt_str_delimited in H. destruct H as [-> H].
  apply (append_injective ", ") in H.
  apply (append_injective (json_str "l")) in H.
  apply (append_injective ": ") in H.
  change (", " ++ ?r) with (String "," (" " ++ r)) in H.
  apply delimited_by in H; try apply of_Z_no_comma. destruct H as [E H].
  apply of_Z_injective in E. subst l'.
  apply (append_injective " ") in H.
  apply (append_injective (json_str "q")) in H.
  apply (append_injective ": ") in H.
  apply json_str_delimited in H. destruct H as [-> _].
  repeat split.
Qed.

Lemma cache_key_injective_witness :
  cache_key "show employees" None 50 <> cache_key "show employees" (Some "null") 50
  /\ cache_key "a, b" None 1 <> cache_key "a" None 1.
Proof.
  split; intros H.
  - apply (cache_key_injective "show employees" "show employees" None (Some "null")
             50 50 eq_refl eq_refl eq_refl eq_refl) in H.
    destruct H as [_ [H _]]. discriminate H.
  - apply (cache_key_injective "a, b" "a" None None 1 1 eq_refl eq_refl eq_refl eq_refl)
      in H.
    destruct H as [H _]. discriminate H.
Defined.

(** ** The statements that [_run_sql] executes *)

Section Statements.
Context {F : Type} {FO : PyFloat F}.

(** A count statement counts the listing without its ORDER BY and LIMIT. *)
Lemma shape_count (m : mapping) (qn intent : string) (limit offset : Z)
    (sql where_ : string) (params : dict F) (stmt count_sql : string) (ps : dict F) :
  shape m qn intent limit offset sql where_ params = (stmt, Some count_sql, ps) ->
  stmt = sql ++ " ORDER BY e." ++ e_id (emp m) ++ " ASC LIMIT :limit OFFSET :offset"
  /\ count_sql = "SELECT COUNT(1) AS total FROM (" ++ sql ++ ") t".
Proof.
  unfold shape. cbv zeta.
  destruct (if String.eqb intent "avg_by_dept" then dept_pair m else None) as [[dt d]|];
    [discriminate|].
  destruct (String.eqb intent "count"); [discriminate|].
  destruct (if String.eqb intent "top_paid_each_dept" then dept_pair m else None)
    as [[dt d]|]; [discriminate|].
  destruct (String.eqb intent "departments_list" && truthy (dept_table m));
    [discriminate|].
  intros [= <- <- _]. split; reflexivity.
Qed.

Lemma build_sql_count (m : mapping) (qn intent : string) (limit offset : Z)
    (where_ : string) (params : dict F) (stmt count_sql : string) (ps : dict F) :
  build_sql m qn intent limit offset where_ params = (stmt, Some count_sql, ps) ->
  exists body,
    stmt = body ++ " ORDER BY e." ++ e_id (emp m) ++ " ASC LIMIT :limit OFFSET :offset"
    /\ count_sql = "SELECT COUNT(1) AS total FROM (" ++ body ++ ") t".
Proof.
  unfold build_sql.
  destruct (listing_or_base m qn limit offset where_ params) as [[sql w1] p1].
  destruct (add_where m sql w1) as [sql2 w2].
  intros H. apply shape_count in H. now exists sql2.
Qed.

(** X16: what [_run_sql] has executed when it returns an envelope: nothing
    when the envelope names no statement; else the statement that the
    envelope names, after the count statement when the envelope has a
    pagination.  The count statement counts the rows of that statement
    without its ORDER BY and LIMIT clause, and [total] is what it returned. *)
Theorem run_sql_statements (w : world F) (q : string) (cs : option string)
    (limit offset : Z) (intent : string) (env : dict F) (ran : list string) :
  _run_sql w q cs limit offset intent = (Ok env, ran) ->
  (Dict.get "sql" env = Some VNone /\ ran = [] /\ Dict.get "rows" env = Some (VList []))
  \/ exists stmt,
       Dict.get "sql" env = Some (VStr stmt)
       /\ ((ran = [stmt] /\ Dict.get "pagination" env = Some VNone)
           \/ exists db m body count_sql params counted total lim off,
                connect w (str_or cs (default_url w)) = Ok db
                /\ _detect_schema db = Ok m
                /\ stmt = body ++ " ORDER BY e." ++ e_id (emp m)
                          ++ " ASC LIMIT :limit OFFSET :offset"
                /\ count_sql = "SELECT COUNT(1) AS total FROM (" ++ body ++ ") t"
                /\ ran = [count_sql; stmt]
                /\ db_execute db count_sql params = Ok counted
                /\ scalar_one counted = Ok total
                /\ Dict.get "pagination" env
                   = Some (VDict [("limit", lim); ("offset", off); ("total", total)])).
Proof.
  unfold _run_sql. destruct (connect w _) as [db|] eqn:Hc; [|discriminate].
  destruct (_infer_filters (_normalize_tokens q)) as [where0 params].
  destruct (_detect_schema db) as [m|] eqn:Hd; [|discriminate].
  destruct (missing_entity _ _) as [t|].
  { intros [= <- <-]. left. repeat split. }
  destruct (resolve_columns (emp m) where0) as [e1|where1] eqn:E1.
  { apply resolve_columns_early in E1. subst. intros [= <- <-]. left. repeat split. }
  destruct (resolve_markers (emp m) where1) as [e2|where2] eqn:E2.
  { apply resolve_markers_early in E2. subst. intros [= <- <-]. left. repeat split. }
  destruct (build_sql m _ _ limit offset where2 params) as [[sql count_sql] ps] eqn:B.
  unfold execute. destruct count_sql as [[|c count]|].
  - destruct (db_execute db sql ps); [|discriminate]. intros [= <- <-].
    right. exists sql. split; [reflexivity|]. left. now split.
  - apply build_sql_count in B. destruct B as [body [Es Ec]].
    destruct (db_execute db (String c count) ps) as [counted|] eqn:X1; [|discriminate].
    destruct (scalar_one counted) as [total|] eqn:X2; [|discriminate].
    destruct (db_execute db sql ps); [|discriminate]. intros [= <- <-].
    right. exists sql. split; [reflexivity|]. right.
    exists db, m, body, (String c count), ps, counted, total,
      (get_or "limit" (VInt 0) ps), (get_or "offset" (VInt 0) ps).
    repeat split; assumption.
  - destruct (db_execute db sql ps); [|discriminate]. intros [= <- <-].
    right. exists sql. split; [reflexivity|]. left. now split.
Qed.

(** X17: for a query that names departments and no employees, the
    statement built for the intent [select] is the listing of departments,
    which already ends in [LIMIT :limit OFFSET :offset], followed by a second
    ORDER BY and LIMIT clause on the employee key; its count statement counts
    the rows of the listing with the first LIMIT clause in place. *)
Theorem departments_listing_paginates_twice (m : mapping) (qn : string)
    (limit offset : Z) (where_ : string) (params : dict F) :
  found (cat [WordB; plural "department"; WordB]) qn = true ->
  found (cat [WordB; plural "employee"; WordB]) qn = false ->
  exists listing rest,
    Str.starts_with "SELECT d." listing = true
    /\ fst (build_sql m qn "select" limit offset where_ params)
       = (listing ++ " ASC LIMIT :limit OFFSET :offset" ++ rest
          ++ " ORDER BY e." ++ e_id (emp m) ++ " ASC LIMIT :limit OFFSET :offset",
          Some ("SELECT COUNT(1) AS total FROM ("
                ++ listing ++ " ASC LIMIT :limit OFFSET :offset" ++ rest ++ ") t")).
Proof.
  intros Hd He. unfold build_sql, listing_or_base. rewrite Hd, He. cbn [andb negb].
  cbv zeta.
  set (dname := match dept m with Some d => d_name d | None => "dept_name" end).
  set (did := match dept m with Some d => d_id d | None => "dept_id" end).
  set (w1 := if nonempty where_ && Str.contains "D_NAME_COL" where_
             then Str.replace "D_NAME_COL" ("d." ++ dname) where_ else where_).
  set (listing := "SELECT d." ++ did ++ " AS dept_id, d." ++ dname
                  ++ " AS dept_name, d.manager_id FROM "
                  ++ str_or (dept_table m) "departments" ++ " d"
                  ++ where_clause w1 ++ " ORDER BY d." ++ did).
  match goal with
  | |- context [add_where m ?s w1] =>
      assert (E : s = listing ++ " ASC LIMIT :limit OFFSET :offset")
  end.
  { subst listing. now rewrite !append_assoc. }
  rewrite E.
  destruct (add_where m (listing ++ " ASC LIMIT :limit OFFSET :offset") w1)
    as [sql2 w2] eqn:A.
  assert (R : exists rest, sql2 = listing ++ " ASC LIMIT :limit OFFSET :offset" ++ rest).
  { unfold add_where in A.
    destruct (nonempty w1 && negb (found from_departments_re _)).
    - injection A as <- _. eexists. rewrite append_assoc. reflexivity.
    - injection A as <- _. exists EmptyString. now rewrite !append_nil_r. }
  destruct R as [rest ->]. exists listing, rest. split; [reflexivity|].
  unfold shape. cbv zeta. cbn [String.eqb Ascii.eqb Bool.eqb andb].
  cbn [fst]. rewrite !append_assoc. reflexivity.
Qed.

End Statements.

Lemma run_sql_statements_witness :
  exists stmt,
    Dict.get "sql" Sample.python_env = Some (VStr stmt)
    /\ snd (_run_sql Sample.w "Python developers" None 50 0 "select")
       = ["SELECT COUNT(1) AS total FROM ("
          ++ Str.take (String.length stmt - 50) stmt ++ ") t"; stmt].
Proof.
  destruct (run_sql_statements Sample.w "Python developers" None 50 0 "select"
              Sample.python_env
              (snd (_run_sql Sample.w "Python developers" None 50 0 "select")))
    as [[H _]|[stmt [Hs [[H _]|H]]]].
  - vm_compute. reflexivity.
  - discriminate H.
  - vm_compute in H. discriminate H.
  - eexists. split; [reflexivity|]. vm_compute. reflexivity.
Defined.

Lemma departments_listing_paginates_twice_witness :
  exists listing rest,
    Str.starts_with "SELECT d." listing = true
    /\ fst (build_sql (F := Z) Sample.plain_mapping "list departments" "select" 50 0
              EmptyString [])
       = (listing ++ " ASC LIMIT :limit OFFSET :offset" ++ rest
          ++ " ORDER BY e.emp_id ASC LIMIT :limit OFFSET :offset",
          Some ("SELECT COUNT(1) AS total FROM ("
                ++ listing ++ " ASC LIMIT :limit OFFSET :offset" ++ rest ++ ") t")).
Proof.
  assert (D : found (cat [WordB; plural "department"; WordB]) "list departments" = true)
    by (vm_compute; reflexivity).
  assert (E : found (cat [WordB; plural "employee"; WordB]) "list departments" = false)
    by (vm_compute; reflexivity).
  exact (departments_listing_paginates_twice Sample.plain_mapping "list departments"
           50 0 EmptyString [] D E).
Defined.

(** ** Document types *)

Lemma lower_app (a b : string) : Str.lower (a ++ b) = Str.lower a ++ Str.lower b.
Proof. induction a as [|c a IH]; simpl; [reflexivity | now rewrite IH]. Qed.

Lemma ends_with_refl (s : string) : ends_with s s = true.
Proof. destruct s; cbn [ends_with]; now rewrite String.eqb_refl. Qed.

Lemma ends_with_app (a s : string) : ends_with s (a ++ s) = true.
Proof.
  induction a as [|c a IH]; [apply ends_with_refl|].
  cbn [append ends_with]. rewrite IH. apply orb_true_r.
Qed.

(** X18: [_detect_doc_type] returns one of four types; a file name that
    ends in [.pdf], in any case, is a PDF whatever the content type says, and
    so is any file whose content type mentions [pdf], whatever its name;
    without a content type and without one of the three extensions the type
    is [txt]. *)
Theorem detect_doc_type_cases (filename : string) (content_type : option string) :
  let r := _detect_doc_type filename content_type in
  In r ["pdf"; "docx"; "csv"; "txt"]
  /\ (forall stem ext, filename = stem ++ ext -> Str.lower ext = ".pdf" -> r = "pdf")
  /\ (forall t, content_type = Some t -> Str.contains "pdf" (Str.lower t) = true ->
        r = "pdf")
  /\ (content_type = None ->
      forallb (fun ext => negb (ends_with ext (Str.lower filename)))
        [".pdf"; ".docx"; ".csv"] = true ->
      r = "txt").
Proof.
  intros r. subst r. unfold _detect_doc_type. cbv zeta. repeat split.
  - repeat match goal with
           | |- context [if ?c then _ else _] => destruct c
           end; simpl; tauto.
  - intros stem ext -> E. now rewrite lower_app, E, ends_with_app.
  - intros t -> E. rewrite E.
    assert (N : nonempty t = true) by (destruct t; [discriminate | reflexivity]).
    rewrite N. cbn [andb]. now rewrite orb_true_r.
  - intros -> H. cbn [forallb] in H. rewrite !andb_true_iff, !negb_true_iff in H.
    destruct H as [-> [-> [-> _]]]. reflexivity.
Qed.

(** ** Stripping *)

Lemma lstrip_suffix (s : string) : exists a, s = a ++ Str.lstrip s.
Proof.
  induction s as [|c s [a IH]]; [now exists EmptyString|]. simpl.
  destruct (Str.is_space c).
  - exists (String c a). simpl. now rewrite <- IH.
  - now exists EmptyString.
Qed.

Lemma lstrip_head (s : string) :
  match Str.lstrip s with
  | EmptyString => True
  | String c _ => Str.is_space c = false
  end.
Proof.
  induction s as [|c s IH]; simpl; [exact I|].
  destruct (Str.is_space c) eqn:E; [exact IH | exact E].
Qed.

Lemma rstrip_length (s : string) : (String.length (Str.rstrip s) <= String.length s)%nat.
Proof.
  induction s as [|c s IH]; simpl; [lia|].
  destruct (Str.rstrip s); [destruct (Str.is_space c)|]; simpl in *; lia.
Qed.

Lemma rstrip_idem (s : string) : Str.rstrip (Str.rstrip s) = Str.rstrip s.
Proof.
  induction s as [|c s IH]; [reflexivity|]. cbn [Str.rstrip].
  destruct (Str.rstrip s) as [|d t] eqn:E.
  - destruct (Str.is_space c) eqn:S; [reflexivity|]. simpl. now rewrite S.
  - cbn [Str.rstrip]. cbn [Str.rstrip] in IH. now rewrite IH.
Qed.

Lemma rstrip_head (c : ascii) (s : string) :
  Str.is_space c = false -> exists t, Str.rstrip (String c s) = String c t.
Proof.
  intros H. cbn [Str.rstrip]. destruct (Str.rstrip s) as [|d t].
  - rewrite H. now exists EmptyString.
  - now exists (String d t).
Qed.

Lemma strip_idem (s : string) : Str.strip (Str.strip s) = Str.strip s.
Proof.
  unfold Str.strip. pose proof (lstrip_head s) as H.
  destruct (Str.lstrip s) as [|c t]; [reflexivity|].
  destruct (rstrip_head c t H) as [t' E]. rewrite E. cbn [Str.lstrip]. rewrite H.
  rewrite <- E. apply rstrip_idem.
Qed.

Lemma strip_length (s : string) : (String.length (Str.strip s) <= String.length s)%nat.
Proof.
  unfold Str.strip. pose proof (rstrip_length (Str.lstrip s)) as R.
  destruct (lstrip_suffix s) as [a E]. rewrite E at 2. rewrite length_append. lia.
Qed.

Lemma rstrip_every (p : ascii -> bool) (s : string) :
  every p s = true -> every p (Str.rstrip s) = true.
Proof.
  induction s as [|c s IH]; [reflexivity|]. simpl. intros H.
  apply andb_prop in H. destruct H as [Hc Hs]. specialize (IH Hs).
  destruct (Str.rstrip s); [destruct (Str.is_space c)|]; simpl in *;
    rewrite ?Hc; auto.
Qed.

Lemma strip_every (p : ascii -> bool) (s : string) :
  every p s = true -> every p (Str.strip s) = true.
Proof.
  intros H. unfold Str.strip. apply rstrip_every.
  destruct (lstrip_suffix s) as [a E]. rewrite E, every_app in H.
  apply andb_prop in H. tauto.
Qed.

Lemma newlines_snoc (k : nat) : newlines k ++ nl = newlines (S k).
Proof. induction k as [|k IH]; [reflexivity|]. simpl in *. now rewrite IH. Qed.

Lemma strip_newlines (k : nat) (s : string) : Str.strip (newlines k ++ s) = Str.strip s.
Proof. induction k as [|k IH]; [reflexivity | exact IH]. Qed.

Lemma nonempty_strip (s : string) : nonempty (Str.strip s) = true -> nonempty s = true.
Proof. destruct s; [discriminate | reflexivity]. Qed.

(** ** Chunks by size *)

Lemma join_snoc (sep : string) (g : list string) (u : string) :
  Str.join sep (g ++ [u])
  = match g with
    | [] => u
    | _ :: _ => Str.join sep g ++ sep ++ u
    end.
Proof.
  induction g as [|x g IH]; [reflexivity|].
  destruct g as [|y g]; [reflexivity|].
  change (Str.join sep ((x :: y :: g) ++ [u]))
    with (x ++ sep ++ Str.join sep ((y :: g) ++ [u])).
  rewrite IH. change (Str.join sep (x :: y :: g)) with (x ++ sep ++ Str.join sep (y :: g)).
  now rewrite !append_assoc.
Qed.

Lemma flush_groups (st : list string * string) (done : list (list string))
    (g : list string) :
  loop_state st done g ->
  filter nonempty (flush st) = filter nonempty (map chunk_of (done ++ [g])).
Proof.
  destruct st as [chunks buf]. intros [Hc [k Hk]]. cbn [fst snd] in *.
  unfold flush. rewrite map_app, filter_app, <- Hc. cbn [map filter].
  unfold chunk_of. rewrite Hk, strip_newlines.
  destruct buf as [|c b]; cbn [nonempty].
  - simpl. now rewrite app_nil_r.
  - rewrite filter_app. reflexivity.
Qed.

Lemma chunk_step_groups (max_chars : Z) (st : list string * string)
    (done : list (list string)) (g : list string) (u : string) :
  loop_state st done g ->
  exists done' g',
    loop_state (chunk_step max_chars st u) done' g'
    /\ List.concat (done' ++ [g']) = (List.concat (done ++ [g]) ++ [u])%list.
Proof.
  intros H. pose proof (flush_groups st done g H) as Hf.
  destruct st as [chunks buf]. destruct H as [Hc [k Hk]]. cbn [fst snd] in *.
  unfold chunk_step. destruct (py_len buf + py_len u + 1 <=? max_chars)%Z.
  - exists done, (g ++ [u])%list. split.
    + split; [exact Hc|]. cbn [snd]. rewrite join_snoc.
      destruct g as [|x g].
      * exists 0%nat. simpl in Hk. destruct k; [|discriminate].
        simpl in Hk. now rewrite <- Hk.
      * rewrite Hk. destruct buf as [|c b]; cbn [nonempty].
        -- exists (S k). now rewrite append_nil_r, <- newlines_snoc, !append_assoc.
        -- exists k. now rewrite !append_assoc.
    + rewrite !concat_app. simpl. now rewrite !app_nil_r, app_assoc.
  - exists (done ++ [g])%list, [u]. split.
    + split; [exact Hf|]. now exists 0%nat.
    + rewrite !concat_app. simpl. now rewrite !app_nil_r.
Qed.

Lemma chunk_loop_groups (max_chars : Z) (units : list string) :
  forall st done g,
    loop_state st done g ->
    exists done' g',
      loop_state (fold_left (chunk_step max_chars) units st) done' g'
      /\ List.concat (done' ++ [g']) = (List.concat (done ++ [g]) ++ units)%list.
Proof.
  induction units as [|u units IH]; intros st done g H.
  - exists done, g. split; [exact H | now rewrite app_nil_r].
  - destruct (chunk_step_groups max_chars st done g u H) as [d1 [g1 [H1 E1]]].
    destruct (IH _ d1 g1 H1) as [d2 [g2 [H2 E2]]].
    exists d2, g2. split; [exact H2|].
    rewrite E2, E1, <- app_assoc. reflexivity.
Qed.

Lemma filter_length_flush (max_chars : Z) (units : list string) :
  forall st,
    (List.length (flush (fold_left (chunk_step max_chars) units st))
     <= List.length (flush st) + List.length units)%nat.
Proof.
  induction units as [|u units IH]; intros st; [simpl; lia|].
  cbn [fold_left]. specialize (IH (chunk_step max_chars st u)).
  assert (S : (List.length (flush (chunk_step max_chars st u))
               <= S (List.length (flush st)))%nat).
  { destruct st as [chunks buf]. unfold chunk_step.
    destruct (py_len buf + py_len u + 1 <=? max_chars)%Z; unfold flush.
    - destruct buf, u; cbn [nonempty append]; rewrite ?length_app; simpl; lia.
    - destruct buf, u; cbn [nonempty]; rewrite ?length_app; simpl; lia. }
  simpl. lia.
Qed.

Lemma flush_stripped (max_chars : Z) (units : list string) :
  forall st,
    Forall (fun c => Str.strip c = c) (fst st) ->
    Forall (fun c => Str.strip c = c) (flush (fold_left (chunk_step max_chars) units st)).
Proof.
  induction units as [|u units IH]; intros [chunks buf] H; cbn [fst] in H.
  - unfold fold_left, flush. destruct (nonempty buf); [|exact H].
    apply Forall_app. split; [exact H|]. repeat constructor. apply strip_idem.
  - cbn [fold_left]. apply IH. unfold chunk_step.
    destruct (py_len buf + py_len u + 1 <=? max_chars)%Z; [exact H|].
    cbn [fst]. destruct (nonempty buf); [|exact H].
    apply Forall_app. split; [exact H|]. repeat constructor. apply strip_idem.
Qed.

Lemma chunk_by_size_clean (units : list string) (max_chars : Z) :
  Forall (fun c => c <> EmptyString /\ Str.strip c = c) (_chunk_by_size units max_chars).
Proof.
  unfold _chunk_by_size. apply Forall_forall. intros c I. apply filter_In in I.
  destruct I as [I N]. split; [now destruct c|].
  pose proof (flush_stripped max_chars units ([], EmptyString) (Forall_nil _)) as S.
  rewrite Forall_forall in S. now apply S.
Qed.

Lemma chunk_by_size_single (u : string) (max_chars : Z) :
  _chunk_by_size [u] max_chars = filter nonempty [Str.strip u].
Proof.
  unfold _chunk_by_size. cbn [fold_left]. unfold chunk_step.
  cbn [nonempty py_len String.length].
  destruct (_ <=? _)%Z; unfold flush; destruct u; reflexivity.
Qed.

(** X19: [_chunk_by_size] cuts the sequence of units into groups of
    consecutive units and returns, for each group in order, its units joined
    by newlines and stripped, leaving out the empty ones: no unit is split,
    lost or moved.  No chunk is empty or has white space at its ends, there
    are at most as many chunks as units, and a single unit gives its stripped
    text whatever [max_chars] is. *)
Theorem chunk_by_size_groups (units : list string) (max_chars : Z) :
  (exists groups,
     List.concat groups = units
     /\ _chunk_by_size units max_chars
        = filter nonempty (map (fun g => Str.strip (Str.join nl g)) groups))
  /\ Forall (fun c => c <> EmptyString /\ Str.strip c = c) (_chunk_by_size units max_chars)
  /\ (List.length (_chunk_by_size units max_chars) <= List.length units)%nat
  /\ (forall u, _chunk_by_size [u] max_chars = filter nonempty [Str.strip u]).
Proof.
  split; [|split; [apply chunk_by_size_clean|split;
                                                [|intros u; apply chunk_by_size_single]]].
  - unfold _chunk_by_size.
    destruct (chunk_loop_groups max_chars units ([], EmptyString) [] [])
      as [done [g [H E]]].
    + split; [reflexivity | now exists 0%nat].
    + exists (done ++ [g])%list. split; [exact E|]. now apply flush_groups.
  - unfold _chunk_by_size. pose proof (filter_length_flush max_chars units ([], EmptyString)) as L.
    pose proof (filter_length_le nonempty
                  (flush (fold_left (chunk_step max_chars) units ([], EmptyString)))) as L'.
    simpl in L. lia.
Qed.

Lemma chunk_step_bounded (max_chars : Z) (st : list string * string) (u : string) :
  (py_len u <= max_chars)%Z ->
  Forall (fun c => (py_len c <= max_chars)%Z) (flush st) ->
  Forall (fun c => (py_len c <= max_chars)%Z) (flush (chunk_step max_chars st u)).
Proof.
  destruct st as [chunks buf]. intros Hu H. unfold chunk_step.
  pose proof (strip_length u) as Lu.
  destruct (Z.leb_spec (py_len buf + py_len u + 1) max_chars) as [Le|Gt]; unfold flush in *.
  - destruct buf as [|c b]; cbn [nonempty] in *.
    + destruct u; cbn [nonempty]; [exact H|].
      apply Forall_app. split; [exact H|]. repeat constructor. unfold py_len in *. lia.
    + apply Forall_app in H. destruct H as [H _].
      assert (N : nonempty (String c b ++ nl ++ u) = true) by reflexivity.
      rewrite N. apply Forall_app. split; [exact H|].
      apply Forall_cons; [|constructor].
      pose proof (strip_length (String c b ++ nl ++ u)) as L.
      rewrite !length_append in L. change (String.length nl) with 1%nat in L.
      unfold py_len in *. lia.
  - assert (H' : Forall (fun c => (py_len c <= max_chars)%Z)
                   (if nonempty buf then chunks ++ [Str.strip buf] else chunks)%list)
      by exact H.
    destruct u; cbn [nonempty]; [exact H'|].
    apply Forall_app. split; [exact H'|]. repeat constructor. unfold py_len in *. lia.
Qed.

(** X20: when no unit is longer than [max_chars], no chunk of
    [_chunk_by_size] is. *)
Theorem chunk_by_size_bounded (units : list string) (max_chars : Z) :
  Forall (fun u => (py_len u <= max_chars)%Z) units ->
  Forall (fun c => (py_len c <= max_chars)%Z) (_chunk_by_size units max_chars).
Proof.
  intros H. unfold _chunk_by_size.
  assert (G : forall st,
             Forall (fun c => (py_len c <= max_chars)%Z) (flush st) ->
             Forall (fun c => (py_len c <= max_chars)%Z)
               (flush (fold_left (chunk_step max_chars) units st))).
  { induction H as [|u units Hu _ IH]; intros st Hs; [exact Hs|].
    cbn [fold_left]. apply IH. now apply chunk_step_bounded. }
  specialize (G ([], EmptyString) (Forall_nil _)).
  rewrite Forall_forall in *. intros c I. apply filter_In in I. now apply G.
Qed.

Lemma chunk_by_size_bounded_witness :
  Forall (fun c => (py_len c <= 7)%Z)
    (_chunk_by_size ["ab"; "cd"; "efg"; "h"] 7).
Proof.
  apply (chunk_by_size_bounded ["ab"; "cd"; "efg"; "h"] 7).
  repeat constructor; unfold py_len; simpl; lia.
Defined.

(** ** Dynamic chunking *)

(** A match of [c] followed by characters of a class consumes just
    these. *)
Lemma rmatch_char_class {X : Type} (c : ascii) (f : ascii -> bool)
    (prev : option ascii) (s : string) (g : groups)
    (k : option ascii -> string -> groups -> option X) (x : X) :
  rmatch (Cat (Chr c) (Star (Cls f))) prev s g k = Some x ->
  exists a p' s', s = String c a ++ s' /\ every f a = true /\ k p' s' g = Some x.
Proof.
  cbn [rmatch]. destruct s as [|c0 s]; [discriminate|].
  destruct (Ascii.eqb_spec c0 c) as [->|]; [|discriminate].
  generalize (String.length s) at 1. intros n. generalize (Some c). revert s.
  induction n as [|n IH]; intros s p H.
  - now exists EmptyString, p, s.
  - destruct s as [|d t].
    + now exists EmptyString, p, EmptyString.
    + destruct (f d) eqn:Fd.
      * change (match (if (String.length t <? String.length (String d t))%nat
                       then (fix loop (fuel : nat) (prev : option ascii) (s : string)
                                 (g : groups) {struct fuel} : option X :=
                               match fuel with
                               | O => k prev s g
                               | S fuel' =>
                                   match rmatch (Cls f) prev s g
                                           (fun p' s' g' =>
                                              if (String.length s' <? String.length s)%nat
                                              then loop fuel' p' s' g' else None) with
                                   | Some x => Some x
                                   | None => k prev s g
                                   end
                               end) n (Some d) t g
                       else None) with
                | Some x => Some x
                | None => k p (String d t) g
                end = Some x) in H.
        assert (L : (String.length t <? String.length (String d t))%nat = true)
          by (apply Nat.ltb_lt; simpl; lia).
        rewrite L in H.
        match type of H with
        | match ?e with _ => _ end = _ => destruct e as [y|] eqn:E
        end.
        -- injection H as ->. apply IH in E. destruct E as [a [p' [s' [E1 [E2 E3]]]]].
           injection E1 as E1. exists (String d a), p', s'. simpl. rewrite E1, Fd, E2.
           repeat split. exact E3.
        -- now exists EmptyString, p, (String d t).
      * change (k p (String d t) g = Some x) in H.
        now exists EmptyString, p, (String d t).
Qed.

Lemma lookahead_consumes (ahead : regex) (boundary : bool) (prev : option ascii)
    (t : string) (p' : option ascii) (t' : string) :
  lookahead break_re ahead boundary prev t = Some (p', t') ->
  exists a, t = String nl_char a ++ t' /\ every Str.is_space a = true.
Proof.
  unfold lookahead, break_re, ws0. intros H. apply rmatch_char_class in H.
  destruct H as [a [p1 [s1 [E [Ha H]]]]].
  destruct (match_here ahead p1 s1); [|discriminate].
  destruct (negb boundary || at_boundary p1 s1); [|discriminate].
  injection H as _ <-. now exists a.
Qed.

Section Pieces.
Variable at_ : option ascii -> string -> option (option ascii * string).
Variable p : ascii -> bool.

(** What a match consumes is white space. *)
Hypothesis consumes :
  forall prev t p' t', at_ prev t = Some (p', t') ->
    exists a, t = a ++ t' /\ every Str.is_space a = true.

Lemma split_every :
  forall fuel prev s piece,
    every p s = true -> every p piece = true ->
    Forall (fun x => every p x = true) (re_split_go fuel at_ prev s piece).
Proof.
  induction fuel as [|fuel IH]; intros prev s piece Hs Hp; cbn [re_split_go].
  - repeat constructor. now rewrite every_app, Hp, Hs.
  - destruct (at_ prev s) as [[p' s']|] eqn:M.
    + constructor; [exact Hp|]. apply IH; [|reflexivity].
      apply consumes in M. destruct M as [a [-> _]]. rewrite every_app in Hs.
      apply andb_prop in Hs. tauto.
    + destruct s as [|c t]; [now repeat constructor|].
      simpl in Hs. apply andb_prop in Hs. destruct Hs as [Hc Ht].
      apply IH; [exact Ht|]. rewrite every_app, Hp. simpl. now rewrite Hc.
Qed.

(** Text that is not white space ends up in a piece. *)
Lemma split_keeps_text :
  forall fuel prev s piece,
    every Str.is_space (piece ++ s) = false ->
    Exists (fun x => every Str.is_space x = false) (re_split_go fuel at_ prev s piece).
Proof.
  induction fuel as [|fuel IH]; intros prev s piece H; cbn [re_split_go].
  - now left.
  - destruct (at_ prev s) as [[p' s']|] eqn:M.
    + apply consumes in M. destruct M as [a [-> Ha]].
      rewrite !every_app, Ha in H. cbn [andb] in H.
      destruct (every Str.is_space piece) eqn:Hp; [|now left].
      right. apply IH. exact H.
    + destruct s as [|c t].
      * left. now rewrite append_nil_r in H.
      * apply IH. rewrite append_assoc. exact H.
Qed.

End Pieces.

Lemma strip_keeps_text (x : string) :
  every Str.is_space x = false -> nonempty (Str.strip x) = true.
Proof.
  unfold Str.strip. induction x as [|c t IH]; [discriminate|]. cbn [every Str.lstrip].
  destruct (Str.is_space c) eqn:S; [exact IH|]. intros _.
  destruct (rstrip_head c t S) as [t' ->]. reflexivity.
Qed.

Lemma stripped_clean (parts : list string) :
  Forall (fun c => c <> EmptyString /\ Str.strip c = c) (stripped parts).
Proof.
  unfold stripped. apply Forall_forall. intros c I. apply filter_In in I.
  destruct I as [I N]. split; [now destruct c|].
  apply in_map_iff in I. destruct I as [x [<- _]]. apply strip_idem.
Qed.

(** X21: no chunk of [dynamic_chunking] is empty or has white space at
    its ends; content that is empty or white space gives no chunk; and for a
    document type other than [pdf], [docx], [txt] and [csv] the stripped
    content is the one chunk, whatever its length. *)
Theorem dynamic_chunking_chunks (content doc_type : string) :
  let r := dynamic_chunking content doc_type in
  Forall (fun c => c <> EmptyString /\ Str.strip c = c) r
  /\ (Str.strip content = EmptyString -> r = [])
  /\ (Str.mem doc_type ["pdf"; "docx"; "txt"; "csv"] = false ->
      r = filter nonempty [Str.strip content]).
Proof.
  intros r. subst r. unfold dynamic_chunking. cbv zeta. repeat split.
  - destruct (negb (nonempty (Str.strip content))); [constructor|].
    destruct (Str.mem doc_type ["pdf"; "docx"; "txt"]).
    + match goal with
      | |- context [match ?e with [] => _ | _ :: _ => _ end] =>
          pose proof (stripped_clean
                        (re_split (lookahead break_re (alts section_words) true)
                           (Str.lower (Str.strip content)))) as R;
          destruct e as [|x l] eqn:E
      end.
      * destruct (found _ _); [apply stripped_clean | apply chunk_by_size_clean].
      * destruct (any_in section_words _); [|discriminate]. now rewrite E in R.
    + destruct (String.eqb doc_type "csv"); apply chunk_by_size_clean.
  - intros ->. reflexivity.
  - intros H. destruct (nonempty (Str.strip content)) eqn:N; cbn [negb].
    + assert (H1 : Str.mem doc_type ["pdf"; "docx"; "txt"] = false).
      { unfold Str.mem in *. cbn [existsb] in *. rewrite !orb_false_iff in *. tauto. }
      assert (H2 : String.eqb doc_type "csv" = false).
      { unfold Str.mem in H. cbn [existsb] in H. rewrite !orb_false_iff in H. tauto. }
      rewrite H1, H2, chunk_by_size_single, strip_idem. reflexivity.
    + destruct (Str.strip content); [reflexivity | discriminate].
Qed.

Lemma section_word_is_text (lowered : string) :
  any_in section_words lowered = true -> every Str.is_space lowered = false.
Proof.
  intros H. apply any_in_spec in H. destruct H as [k [Hk [a [b ->]]]].
  rewrite !every_app.
  assert (K : every Str.is_space k = false).
  { unfold section_words in Hk. simpl in Hk.
    repeat destruct Hk as [<-|Hk]; try reflexivity. contradiction. }
  rewrite K. cbn [andb]. apply andb_false_r.
Qed.

(** X22: a [pdf], [docx] or [txt] document whose text names one of the
    words skills, experience, education and projects, in any case, is chunked
    from its lower-cased text: there are chunks and none has an upper-case
    letter. *)
Theorem resume_chunks_are_lowercased (content doc_type : string) :
  Str.mem doc_type ["pdf"; "docx"; "txt"] = true ->
  any_in section_words (Str.lower (Str.strip content)) = true ->
  dynamic_chunking content doc_type <> []
  /\ Forall (fun c => Str.lower c = c) (dynamic_chunking content doc_type).
Proof.
  intros Hd Hs. unfold dynamic_chunking. cbv zeta.
  pose proof (section_word_is_text _ Hs) as T.
  assert (N : nonempty (Str.strip content) = true).
  { destruct (Str.strip content); [discriminate | reflexivity]. }
  rewrite N, Hd, Hs. cbn [negb].
  set (at_ := lookahead break_re (alts section_words) true).
  assert (C : forall prev t p' t', at_ prev t = Some (p', t') ->
                exists a, t = a ++ t' /\ every Str.is_space a = true).
  { intros prev t p' t' H. apply lookahead_consumes in H. destruct H as [a [-> Ha]].
    exists (String nl_char a). split; [reflexivity|]. simpl. exact Ha. }
  assert (NE : stripped (re_split at_ (Str.lower (Str.strip content))) <> []).
  { pose proof (split_keeps_text at_ C (S (String.length (Str.lower (Str.strip content))))
                  None (Str.lower (Str.strip content)) EmptyString T) as E.
    apply Exists_exists in E. destruct E as [x [I Hx]].
    apply strip_keeps_text in Hx. intros Z.
    assert (J : In (Str.strip x) (stripped (re_split at_ (Str.lower (Str.strip content))))).
    { unfold stripped. apply filter_In. split; [|exact Hx]. now apply in_map. }
    rewrite Z in J. contradiction. }
  destruct (stripped (re_split at_ (Str.lower (Str.strip content)))) as [|x l] eqn:E;
    [contradiction|].
  split; [discriminate|]. rewrite <- E. unfold stripped.
  apply Forall_forall. intros c I. apply filter_In in I. destruct I as [I _].
  apply in_map_iff in I. destruct I as [y [<- I]].
  apply every_lower, strip_every.
  pose proof (split_every at_ (fun c => negb (Str.is_upper c)) C
                (S (String.length (Str.lower (Str.strip content)))) None
                (Str.lower (Str.strip content)) EmptyString
                (lower_every _) eq_refl) as A.
  rewrite Forall_forall in A. now apply A.
Qed.

Lemma resume_chunks_are_lowercased_witness :
  dynamic_chunking ("John Doe" ++ nl ++ "Skills: Python" ++ nl ++ "Education: MSc") "txt"
  <> []
  /\ Forall (fun c => Str.lower c = c)
       (dynamic_chunking ("John Doe" ++ nl ++ "Skills: Python" ++ nl ++ "Education: MSc")
          "txt").
Proof.
  apply (resume_chunks_are_lowercased
           ("John Doe" ++ nl ++ "Skills: Python" ++ nl ++ "Education: MSc") "txt").
  - reflexivity.
  - vm_compute. reflexivity.
Defined.

(** ** Schema discovery *)

Lemma ascii_compare_trans (a b c : ascii) :
  Ascii.compare a b <> Gt -> Ascii.compare b c <> Gt -> Ascii.compare a c <> Gt.
Proof.
  unfold Ascii.compare. rewrite !N.compare_gt_iff. lia.
Qed.

Lemma ascii_compare_lt_trans (a b c : ascii) :
  Ascii.compare a b = Lt -> Ascii.compare b c <> Gt -> Ascii.compare a c = Lt.
Proof.
  unfold Ascii.compare. rewrite !N.compare_lt_iff, N.compare_gt_iff. lia.
Qed.

Lemma ascii_compare_le_lt_trans (a b c : ascii) :
  Ascii.compare a b <> Gt -> Ascii.compare b c = Lt -> Ascii.compare a c = Lt.
Proof.
  unfold Ascii.compare. rewrite !N.compare_lt_iff, N.compare_gt_iff. lia.
Qed.

Lemma ascii_compare_refl (a : ascii) : Ascii.compare a a = Eq.
Proof. unfold Ascii.compare. apply N.compare_refl. Qed.

(** The order of strings by code points is transitive. *)
Lemma string_compare_trans (a : string) :
  forall b c, String.compare a b <> Gt -> String.compare b c <> Gt ->
              String.compare a c <> Gt.
Proof.
  induction a as [|x a IH]; intros [|y b] [|z c]; simpl; try congruence.
  destruct (Ascii.compare x y) eqn:Exy; try congruence;
    destruct (Ascii.compare y z) eqn:Eyz; try congruence; intros H1 H2.
  - apply Ascii.compare_eq_iff in Exy, Eyz. subst. rewrite ascii_compare_refl.
    now apply (IH b c).
  - apply Ascii.compare_eq_iff in Exy. subst. now rewrite Eyz.
  - apply Ascii.compare_eq_iff in Eyz. subst. now rewrite Exy.
  - rewrite (ascii_compare_lt_trans x y z Exy); [discriminate | congruence].
Qed.

Lemma sorted_names_sorted (names : list string) :
  StronglySorted (fun a b => String.leb a b = true) (sorted_names names).
Proof.
  assert (S : StronglySorted (fun a b => String.ltb b a = false) (sorted_names names)).
  { apply (sort_by_sorted (fun y x => String.ltb y x)).
    - intros a b. unfold String.ltb. rewrite (String.compare_antisym b a).
      destruct (String.compare a b); simpl; congruence.
    - intros a b c. unfold String.ltb.
      pose proof (string_compare_trans a b c) as T.
      rewrite (String.compare_antisym b a), (String.compare_antisym c b),
        (String.compare_antisym c a).
      destruct (String.compare a b), (String.compare b c), (String.compare a c);
        simpl; try congruence; intros _ _; exfalso; apply T; congruence. }
  eapply StronglySorted_ind with
    (P := StronglySorted (fun a b => String.leb a b = true)); [| |exact S].
  - constructor.
  - intros a l _ IH Hf. constructor; [exact IH|].
    eapply Forall_impl; [|exact Hf]. intros b H. unfold String.ltb, String.leb in *.
    rewrite (String.compare_antisym b a) in H.
    destruct (String.compare a b); simpl in *; congruence.
Qed.

Section DiscoveryFacts.
Context {F : Type}.

Lemma collect_columns_keys (insp : inspector) (tables : list string) :
  forall (columns result_ : dict F),
    collect_columns insp tables columns = Ok result_ ->
    forall t, Dict.has t result_ = true <-> In t tables \/ Dict.has t columns = true.
Proof.
  induction tables as [|table rest IH]; intros columns result_ H t; cbn [collect_columns] in H.
  - injection H as <-. simpl. tauto.
  - destruct (get_columns insp table) as [cols|]; [|discriminate].
    rewrite (IH _ _ H t). rewrite !has_keys, keys_set.
    destruct (Dict.has table columns) eqn:E.
    + apply has_keys in E. simpl. split; [intros [I|I]; auto | intros [[<-|I]|I]; auto].
    + rewrite in_app_iff. simpl. tauto.
Qed.

Lemma collect_columns_values (insp : inspector) (tables : list string) :
  forall (columns result_ : dict F),
    collect_columns insp tables columns = Ok result_ ->
    forall t, In t tables ->
      exists cols,
        get_columns insp t = Ok cols
        /\ Dict.get t result_
           = Some (strs (map (fun c => col_name c ++ ":" ++ col_type c) cols)).
Proof.
  induction tables as [|table rest IH]; intros columns result_ H t I; [contradiction|].
  cbn [collect_columns] in H.
  destruct (get_columns insp table) as [cols|] eqn:G; [|discriminate].
  destruct (in_dec string_dec t rest) as [J|J]; [exact (IH _ _ H t J)|].
  destruct I as [<-|I]; [|contradiction]. exists cols. split; [exact G|].
  clear IH G. revert columns H.
  assert (K : forall (l : list string) (d r : dict F),
             ~ In table l -> collect_columns insp l d = Ok r ->
             Dict.get table r = Dict.get table d).
  { induction l as [|x l IHl]; intros d r N H; cbn [collect_columns] in H.
    - now injection H as <-.
    - destruct (get_columns insp x); [|discriminate].
      rewrite (IHl _ _ (fun I => N (or_intror I)) H).
      apply get_set_other. intros ->. apply N. now left. }
  intros columns H. rewrite (K rest _ _ J H). apply get_set_same.
Qed.

Lemma collect_relationships_from (insp : inspector) (tables : list string) :
  forall (rels result_ : list (dict F)),
    collect_relationships insp tables rels = Ok result_ ->
    exists added,
      result_ = (rels ++ added)%list
      /\ Forall (fun r => exists t fk, In t tables /\ r = relationship t fk) added.
Proof.
  induction tables as [|table rest IH]; intros rels result_ H;
    cbn [collect_relationships] in H.
  - injection H as <-. exists []. split; [now rewrite app_nil_r | constructor].
  - destruct (get_foreign_keys insp table) as [fks|]; [|discriminate].
    apply IH in H. destruct H as [added [-> Hf]].
    exists (map (relationship table) fks ++ added)%list. split; [now rewrite app_assoc|].
    apply Forall_app. split.
    + apply Forall_forall. intros r I. apply in_map_iff in I. destruct I as [fk [<- _]].
      exists table, fk. split; [now left | reflexivity].
    + eapply Forall_impl; [|exact Hf]. intros r [t [fk [I ->]]].
      exists t, fk. split; [now right | reflexivity].
Qed.

(** X23: the check of [analyze_database] for a missing SQLite file has
    no effect: what the function returns or raises is what connecting and
    reflecting give, whatever [make_url] and the file system say. *)
Theorem analyze_database_ignores_file_check (h1 h2 : host) (cs : string) :
  inspect_engine h1 cs = inspect_engine h2 cs ->
  analyze_database (F := F) h1 cs = analyze_database h2 cs.
Proof.
  intros H. unfold analyze_database.
  assert (R : reflect_schema (F := F) h1 cs = reflect_schema h2 cs) by (unfold reflect_schema; now rewrite H).
  destruct (sqlite_file_check h1 cs), (sqlite_file_check h2 cs); exact R.
Qed.

(** X24: a schema that [analyze_database] returns lists the tables of the
    inspector in increasing order, has under [columns] an entry for each of
    these tables and for nothing else, the entry of a table being its columns
    as [name:type], and every relationship starts from one of the tables. *)
Theorem analyze_database_schema (h : host) (cs : string) (schema : dict F) :
  analyze_database h cs = Ok schema ->
  exists insp names tables columns relationships,
    inspect_engine h cs = Ok insp
    /\ get_table_names insp = Ok names
    /\ schema = [("tables", strs tables); ("columns", VDict columns);
                 ("relationships", VList (map VDict relationships))]
    /\ Permutation tables names
    /\ StronglySorted (fun a b => String.leb a b = true) tables
    /\ (forall t, Dict.has t columns = true <-> In t tables)
    /\ (forall t, In t tables ->
          exists cols,
            get_columns insp t = Ok cols
            /\ Dict.get t columns
               = Some (strs (map (fun c => col_name c ++ ":" ++ col_type c) cols)))
    /\ Forall (fun r => exists t fk, In t tables /\ r = relationship t fk) relationships.
Proof.
  unfold analyze_database. intros H.
  assert (R : reflect_schema h cs = Ok schema) by (destruct (sqlite_file_check h cs); exact H).
  clear H. unfold reflect_schema in R.
  destruct (inspect_engine h cs) as [insp|] eqn:E1; [|discriminate].
  destruct (get_table_names insp) as [names|] eqn:E2; [|discriminate]. cbv zeta in R.
  destruct (collect_columns insp (sorted_names names) []) as [columns|] eqn:C;
    [|discriminate].
  destruct (collect_relationships insp (sorted_names names) []) as [rels|] eqn:L;
    [|discriminate].
  injection R as <-. exists insp, names, (sorted_names names), columns, rels.
  split; [reflexivity|]. split; [exact E2|]. split; [reflexivity|].
  split; [apply sort_by_perm|]. split; [apply sorted_names_sorted|].
  split; [split|split].
  - intros H. apply (collect_columns_keys _ _ _ _ C) in H. destruct H; [assumption|discriminate].
  - intros H. apply (collect_columns_keys _ _ _ _ C). now left.
  - intros t I. exact (collect_columns_values _ _ _ _ C t I).
  - apply collect_relationships_from in L. destruct L as [added [-> Hf]]. exact Hf.
Qed.

End DiscoveryFacts.

Lemma analyze_database_ignores_file_check_witness :
  sqlite_file_check (Discovered.the_host false) "sqlite:///example.db"
  = Raise "SQLite database file not found: example.db"
  /\ analyze_database (F := Z) (Discovered.the_host false) "sqlite:///example.db"
     = analyze_database (Discovered.the_host true) "sqlite:///example.db".
Proof.
  split; [reflexivity|].
  apply (analyze_database_ignores_file_check (Discovered.the_host false)
           (Discovered.the_host true) "sqlite:///example.db").
  reflexivity.
Defined.

Lemma analyze_database_schema_witness :
  exists insp names tables columns relationships,
    inspect_engine (Discovered.the_host true) "sqlite:///example.db" = Ok insp
    /\ get_table_names insp = Ok names
    /\ [("tables", strs (F := Z) ["departments"; "employees"]);
        ("columns",
         VDict [("departments", strs ["dept_id:INTEGER"]);
                ("employees", strs ["emp_id:INTEGER"; "dept_id:INTEGER"])]);
        ("relationships",
         VList [VDict (relationship "employees"
                         {| constrained_columns := Some ["dept_id"];
                            referred_table := Some "departments";
                            referred_columns := Some ["dept_id"];
                            fk_name := None |})])]
       = [("tables", strs tables); ("columns", VDict columns);
          ("relationships", VList (map VDict relationships))]
    /\ Permutation tables names
    /\ StronglySorted (fun a b => String.leb a b = true) tables
    /\ (forall t, Dict.has t columns = true <-> In t tables)
    /\ (forall t, In t tables ->
          exists cols,
            get_columns insp t = Ok cols
            /\ Dict.get t columns
               = Some (strs (map (fun c => col_name c ++ ":" ++ col_type c) cols)))
    /\ Forall (fun r => exists t fk, In t tables /\ r = relationship t fk) relationships.
Proof.
  apply (analyze_database_schema (Discovered.the_host true) "sqlite:///example.db").
  vm_compute. reflexivity.
Defined.

(** ** The intent model *)

Section Nearest.
Context {F : Type} {FO : PyFloat F} {FL : FloatOrder F}.

Lemma matvec_spec (corpus : list (list F)) (q sims : list F) :
  matvec corpus q = Ok sims -> sims = map (fun row => np_dot row q) corpus.
Proof.
  revert sims. induction corpus as [|row rest IH]; intros sims H; cbn [matvec] in H.
  - now injection H as <-.
  - unfold dot in H. destruct (_ =? _)%nat; [|discriminate].
    destruct (matvec rest q) as [xs|]; [|discriminate]. injection H as <-.
    simpl. now rewrite (IH xs eq_refl).
Qed.

Lemma f_lt_irrefl (x : F) : f_lt x x = false.
Proof.
  destruct (f_lt x x) eqn:E; [|reflexivity].
  pose proof (f_lt_asym x x E). congruence.
Qed.

Lemma argmax_from_spec (xs : list F) :
  forall (seen : list F) (best : nat * F),
    first_max best seen ->
    first_max (argmax_from (List.length seen) best xs) (seen ++ xs).
Proof.
  induction xs as [|x xs IH]; intros seen best H.
  - now rewrite app_nil_r.
  - cbn [argmax_from]. replace (seen ++ x :: xs)%list with ((seen ++ [x]) ++ xs)%list
      by now rewrite <- app_assoc.
    replace (S (List.length seen)) with (List.length (seen ++ [x])%list)
      by (rewrite length_app; simpl; lia).
    apply IH. destruct H as [Hn [Hf Hl]].
    assert (B : (fst best < List.length seen)%nat).
    { apply nth_error_Some. congruence. }
    destruct (f_lt (snd best) x) eqn:E.
    + unfold first_max. cbn [fst snd]. split; [|split].
      * rewrite nth_error_app2 by lia. now rewrite Nat.sub_diag.
      * apply Forall_app. split.
        -- eapply Forall_impl; [|exact Hf]. intros v Hv.
           exact (f_ge_trans x (snd best) v (f_lt_asym _ _ E) Hv).
        -- repeat constructor. apply f_lt_irrefl.
      * intros j v Hj Hv. rewrite nth_error_app1 in Hv by exact Hj.
        assert (Hv' : f_lt (snd best) v = false).
        { rewrite Forall_forall in Hf. apply Hf. eapply nth_error_In. exact Hv. }
        destruct (f_lt v x) eqn:V; [reflexivity|].
        pose proof (f_ge_trans (snd best) v x Hv' V). congruence.
    + split; [|split].
      * rewrite nth_error_app1 by exact B. exact Hn.
      * apply Forall_app. split; [exact Hf|].
        apply Forall_cons; [exact E | constructor].
      * intros j v Hj Hv. rewrite nth_error_app1 in Hv by lia. now apply (Hl j).
Qed.

(** X25: [predict_intent] is a nearest-neighbour choice: the similarities
    are the dot products of the examples with the embedding of the
    lower-cased text, the confidence returned is the greatest of them, and
    the label returned is the label of the first example that reaches it. *)
Theorem predict_intent_nearest (s : intent_store F) (encode : string -> result (list F))
    (text label : string) (conf : F) :
  predict_intent s encode text = Ok (label, conf) ->
  exists q idx,
    encode (Str.lower text) = Ok q
    /\ let sims := map (fun row => np_dot row q) (embeddings s) in
       nth_error (labels s) idx = Some label
       /\ nth_error sims idx = Some conf
       /\ Forall (fun v => f_lt conf v = false) sims
       /\ forall j v, (j < idx)%nat -> nth_error sims j = Some v -> f_lt v conf = true.
Proof.
  unfold predict_intent. destruct (encode (Str.lower text)) as [q|]; [|discriminate].
  destruct (matvec (embeddings s) q) as [sims|] eqn:M; [|discriminate].
  apply matvec_spec in M.
  destruct sims as [|x xs]; [discriminate|]. cbn [argmax].
  pose proof (argmax_from_spec xs [x] (0%nat, x)) as A. cbn [List.length app] in A.
  destruct (argmax_from 1 (0%nat, x) xs) as [idx c].
  destruct (nth_error (labels s) idx) as [lab|] eqn:L; [|discriminate].
  intros [= <- <-]. exists q, idx. split; [reflexivity|]. cbv zeta. rewrite <- M.
  destruct A as [A1 [A2 A3]].
  - split; [reflexivity|]. split; [repeat constructor; apply f_lt_irrefl|].
    intros j v Hj. simpl in Hj. lia.
  - cbn [fst snd] in *. repeat split; assumption.
Qed.

End Nearest.

Lemma predict_intent_nearest_witness :
  exists q idx,
    Discovered.encode (Str.lower "Show ALL") = Ok q
    /\ let sims := map (fun row => np_dot row q) (embeddings Discovered.store) in
       nth_error (labels Discovered.store) idx = Some "select"
       /\ nth_error sims idx = Some 5%Z
       /\ Forall (fun v => f_lt 5%Z v = false) sims
       /\ forall j v, (j < idx)%nat -> nth_error sims j = Some v -> f_lt v 5%Z = true.
Proof.
  apply (predict_intent_nearest Discovered.store Discovered.encode "Show ALL" "select" 5%Z).
  vm_compute. reflexivity.
Defined.

(** ** Ingestion jobs *)

Section Jobs.
Context {F : Type}.
Implicit Types (env : ingest_env F) (s : storage F) (row : dict F).

Lemma has_id_other (j j' : string) row :
  j' <> j -> has_id j' row = true -> has_id j row = false.
Proof.
  unfold has_id. destruct (Dict.get "id" row) as [[| | |x| |]|]; try discriminate.
  intros N H. apply String.eqb_eq in H. subst x. now apply String.eqb_neq.
Qed.

Lemma find_filter_none (j : string) (l : list (dict F)) :
  find (has_id j) (filter (fun row => negb (has_id j row)) l) = None.
Proof.
  induction l as [|row l IH]; [reflexivity|]. simpl.
  destruct (has_id j row) eqn:E; simpl; [exact IH | now rewrite E].
Qed.

Lemma find_filter_other (j j' : string) (l : list (dict F)) :
  j' <> j ->
  find (has_id j') (filter (fun row => negb (has_id j row)) l) = find (has_id j') l.
Proof.
  intros N. induction l as [|row l IH]; [reflexivity|]. simpl.
  destruct (has_id j' row) eqn:E'.
  - rewrite (has_id_other j j' row N E'). simpl. now rewrite E'.
  - destruct (has_id j row); simpl; [exact IH | now rewrite E'].
Qed.

Lemma find_app_none {A : Type} (p : A -> bool) (l1 l2 : list A) :
  find p l1 = None -> find p (l1 ++ l2) = find p l2.
Proof.
  induction l1 as [|x l1 IH]; [reflexivity|]. simpl.
  destruct (p x); [discriminate | exact IH].
Qed.

Lemma find_app_last {A : Type} (p : A -> bool) (l : list A) (x : A) :
  p x = false -> find p (l ++ [x]) = find p l.
Proof.
  intros H. induction l as [|y l IH]; simpl; [now rewrite H|].
  destruct (p y); [reflexivity | exact IH].
Qed.

(** The row of the job after [_insert_job]. *)
Lemma insert_job_row env (t : nat) s (j : string) (n : Z) :
  find (has_id j) (st_jobs (_insert_job env t s j n))
  = Some (job_row j "running" n 0 (clock env t) (clock env (S t)) VNone).
Proof.
  unfold _insert_job. cbn [st_jobs].
  rewrite find_app_none by apply find_filter_none.
  simpl. unfold has_id. simpl. now rewrite String.eqb_refl.
Qed.

Lemma insert_job_other env (t : nat) s (j j' : string) (n : Z) :
  j' <> j ->
  find (has_id j') (st_jobs (_insert_job env t s j n)) = find (has_id j') (st_jobs s).
Proof.
  intros N. unfold _insert_job. cbn [st_jobs]. rewrite find_app_last.
  - now apply find_filter_other.
  - unfold has_id. simpl. apply String.eqb_neq. congruence.
Qed.

(** X26: after [create_job_record] the status of the job is [running]
    with no file processed, [created_at] the first and [updated_at] the
    second of the two clock reads of the insertion, whatever was recorded
    under its id before, and the status of every other job is as it was; a
    job that was never recorded, and every job after [reset_ingestion], has
    the status [not_found]; and [reset_ingestion] leaves no document and no
    chunk. *)
Theorem job_record_round_trip env (t : nat) (s : option (storage F)) (j : string)
    (n : Z) :
  get_job_status (Some (create_job_record env t s j n)) j
  = job_status j "running" n 0 (clock env t) (clock env (S t)) VNone
  /\ (forall j', j' <> j ->
        get_job_status (Some (create_job_record env t s j n)) j' = get_job_status s j')
  /\ get_job_status (F := F) None j = [("job_id", VStr j); ("status", VStr "not_found")]
  /\ (forall j', get_job_status (Some (reset_ingestion s)) j'
                 = [("job_id", VStr j'); ("status", VStr "not_found")])
  /\ st_documents (reset_ingestion s) = []
  /\ st_chunks (reset_ingestion s) = [].
Proof.
  split; [|split; [|repeat split]].
  - unfold get_job_status, create_job_record. cbn [init_storage].
    now rewrite insert_job_row.
  - intros j' N. unfold get_job_status, create_job_record. cbn [init_storage].
    now rewrite insert_job_other.
Qed.





(** X28: [_insert_chunks] appends one row for each chunk, in order, numbered
    from 0, with the embedding of the same position, the document id and the
    dimension given; it raises, and stores nothing, exactly when there are
    fewer embeddings than chunks. *)
Theorem insert_chunks_rows s (document_id : Z) (chunks : list string)
    (embeddings : list (list Byte.byte)) (dim : Z) :
  match _insert_chunks s document_id chunks embeddings dim with
  | Ok s' =>
      (List.length chunks <= List.length embeddings)%nat
      /\ st_chunks s'
         = (st_chunks s
            ++ map (fun p =>
                      {| chunk_document := document_id;
                         chunk_index := Z.of_nat (fst (fst p));
                         chunk_text := snd (fst p);
                         chunk_embedding := snd p;
                         chunk_dim := dim |})
                 (combine (combine (seq 0 (List.length chunks)) chunks) embeddings))%list
      /\ st_documents s' = st_documents s /\ st_jobs s' = st_jobs s
  | Raise _ => (List.length embeddings < List.length chunks)%nat
  end.
Proof.
  unfold _insert_chunks.
  assert (G : forall (cs : list string) (es : list (list Byte.byte)) (i : nat),
             match chunk_rows document_id (Z.of_nat i) cs es dim with
             | Ok rows =>
                 (List.length cs <= List.length es)%nat
                 /\ rows = map (fun p =>
                                  {| chunk_document := document_id;
                                     chunk_index := Z.of_nat (fst (fst p));
                                     chunk_text := snd (fst p);
                                     chunk_embedding := snd p;
                                     chunk_dim := dim |})
                             (combine (combine (seq i (List.length cs)) cs) es)
             | Raise _ => (List.length es < List.length cs)%nat
             end).
  { induction cs as [|c cs IH]; intros es i; cbn [chunk_rows].
    - split; [simpl; lia | reflexivity].
    - destruct es as [|e es]; [simpl; lia|].
      specialize (IH es (S i)). rewrite Nat2Z.inj_succ in IH.
      replace (Z.succ (Z.of_nat i)) with (Z.of_nat i + 1)%Z in IH by lia.
      destruct (chunk_rows document_id (Z.of_nat i + 1) cs es dim) as [rows|].
      + destruct IH as [L ->]. split; [simpl; lia | reflexivity].
      + simpl. lia. }
  specialize (G chunks embeddings 0%nat). cbn [Z.of_nat] in G.
  destruct (chunk_rows document_id 0 chunks embeddings dim) as [rows|]; [|exact G].
  destruct G as [L ->]. cbn [st_chunks st_documents st_jobs]. repeat split. exact L.
Qed.

End Jobs.

Section Batches.
Context {F : Type}.

Lemma batches_spec (size : nat) :
  (1 <= size)%nat ->
  forall (fuel : nat) (chunks : list string),
    (List.length chunks <= fuel)%nat ->
    List.concat (batches fuel size chunks) = chunks
    /\ Forall (fun b => (1 <= List.length b <= size)%nat) (batches fuel size chunks).
Proof.
  intros Hs. induction fuel as [|fuel IH]; intros chunks L.
  - destruct chunks; [split; [reflexivity | constructor] | simpl in L; lia].
  - destruct chunks as [|c cs]; [split; [reflexivity | constructor]|].
    cbn [batches]. destruct (IH (skipn size (c :: cs))) as [E Hf].
    { rewrite length_skipn. cbn [List.length] in *. lia. }
    split.
    + cbn [List.concat]. rewrite E. apply firstn_skipn.
    + constructor; [|exact Hf]. rewrite length_firstn. cbn [List.length]. lia.
Qed.

Lemma embed_batches_spec (env : ingest_env F) (bs : list (list string)) :
  forall (acc : list (list Byte.byte)) (dim0 : option Z) blobs dim,
    embed_batches env bs acc dim0 = Ok (blobs, dim) ->
    exists encoded,
      Forall2 (fun b r => encode_batch env b = Ok r) bs encoded
      /\ blobs = (acc ++ List.concat (map fst encoded))%list
      /\ dim = match dim0 with
               | Some x => Some x
               | None => match encoded with
                         | [] => None
                         | r :: _ => Some (snd r)
                         end
               end.
Proof.
  induction bs as [|b bs IH]; intros acc dim0 blobs dim H; cbn [embed_batches] in H.
  - injection H as <- <-. exists []. split; [constructor|].
    split; [now rewrite app_nil_r | now destruct dim0].
  - destruct (encode_batch env b) as [[bl d]|] eqn:E; [|discriminate].
    apply IH in H. destruct H as [encoded [H1 [-> ->]]].
    exists ((bl, d) :: encoded). split; [now constructor|].
    split; [simpl; now rewrite app_assoc | now destruct dim0].
Qed.

(** X29: for a positive batch size, [_embed_chunks] encodes the chunks in
    consecutive batches of at most that size, none empty, returns the
    embeddings of the batches in order, and as dimension the one of the first
    batch, 0 when there is no chunk. *)
Theorem embed_chunks_batches (env : ingest_env F) (chunks : list string)
    (batch_size : Z) (blobs : list (list Byte.byte)) (dim : Z) :
  (0 < batch_size)%Z ->
  _embed_chunks env chunks batch_size = Ok (blobs, dim) ->
  exists parts encoded,
    List.concat parts = chunks
    /\ Forall (fun b => (1 <= Z.of_nat (List.length b) <= batch_size)%Z) parts
    /\ Forall2 (fun b r => encode_batch env b = Ok r) parts encoded
    /\ blobs = List.concat (map fst encoded)
    /\ dim = match encoded with
             | [] => 0%Z
             | r :: _ => snd r
             end.
Proof.
  intros Hb. unfold _embed_chunks.
  destruct (Z.eqb_spec batch_size 0); [lia|].
  destruct (Z.ltb_spec batch_size 0); [lia|]. cbv zeta.
  destruct (embed_batches env _ [] None) as [[all_blobs d]|] eqn:E; [|discriminate].
  intros [= <- <-]. apply embed_batches_spec in E.
  destruct E as [encoded [H1 [-> ->]]].
  destruct (batches_spec (Z.to_nat batch_size) ltac:(lia) (List.length chunks) chunks
              (le_n _)) as [C Hf].
  exists (batches (List.length chunks) (Z.to_nat batch_size) chunks), encoded.
  split; [exact C|]. split.
  - eapply Forall_impl; [|exact Hf]. intros b Hl. cbv beta in Hl. lia.
  - split; [exact H1|]. split; [reflexivity | now destruct encoded].
Qed.

End Batches.

Lemma embed_chunks_batches_witness :
  exists parts encoded,
    List.concat parts = ["a"; "b"; "c"]
    /\ Forall (fun b => (1 <= Z.of_nat (List.length b) <= 2)%Z) parts
    /\ Forall2 (fun b r => encode_batch Uploads.env b = Ok r) parts encoded
    /\ [Uploads.blob; Uploads.blob; Uploads.blob] = List.concat (map fst encoded)
    /\ 1%Z = match encoded with
             | [] => 0%Z
             | r :: _ => snd r
             end.
Proof.
  apply (embed_chunks_batches Uploads.env ["a"; "b"; "c"] 2
           [Uploads.blob; Uploads.blob; Uploads.blob] 1).
  - lia.
  - reflexivity.
Defined.

(** ** The staff dialect *)

(** Replacing puts the replacement where the pattern occurred. *)
Lemma replace_puts (p r : string) :
  p <> EmptyString ->
  forall s, occurs p s -> occurs r (Str.replace p r s).
Proof.
  intros Hp. unfold Str.replace. destruct p as [|c0 p0] eqn:Ep; [contradiction|].
  rewrite <- Ep in *. clear Hp.
  induction s as [|c s IH]; intros [a [b E]].
  - destruct a; simpl in E; [rewrite Ep in E|]; discriminate.
  - cbn [Str.replace_go]. destruct (Str.starts_with p (String c s)) eqn:S.
    + now exists EmptyString, (Str.replace_go p r (String.length p - 1) s).
    + destruct a as [|c' a].
      * simpl in E. rewrite E, starts_with_append in S. discriminate.
      * injection E as -> E. destruct IH as [x [y IH]]; [now exists a, b|].
        rewrite IH. now exists (String c' x), y.
Qed.

Section Staff.
Context {F : Type} {FO : PyFloat F}.

Lemma staff_mapping (db : database F) :
  Str.mem "employees" (db_tables db) = false ->
  Str.mem "staff" (db_tables db) = true ->
  db_columns db "staff" <> [] ->
  exists m,
    _detect_schema db = Ok m /\ e_email (emp m) = Some "email"
    /\ emp_table m = "staff".
Proof.
  intros H1 H2 H3. unfold _detect_schema. rewrite H1, H2.
  destruct (db_columns db "staff") as [|c cs]; [contradiction|].
  eexists. split; [reflexivity|]. split; reflexivity.
Qed.

Lemma email_marker_columns (e : emp_map) (where0 where1 : string) :
  marked "EMAIL_IS_MISSING" where0 ->
  resolve_columns (F := F) e where0 = inr where1 ->
  marked "EMAIL_IS_MISSING" where1.
Proof.
  intros H. apply (email_marker_basic e) in H. unfold resolve_columns.
  cbv zeta. generalize dependent (resolve_basic e where0). intros w0 H.
  destruct (Str.contains "E_EMAIL_COL" w0 && negb (truthy (e_email e)));
    [discriminate|].
  intros E. apply inr_inj in E. subst where1.
  destruct (Str.contains "E_SKILLS_COL" _); [destruct (truthy (e_skills e))|];
    repeat marked_tac; exact H.
Qed.

Lemma email_filter_resolved (e : emp_map) (col where1 where2 : string) :
  e_email e = Some col -> col <> EmptyString ->
  (forall p, In p ["NAME_IS_MISSING"; "SKILLS_IS_MISSING"; "DEPARTMENT_IS_MISSING";
                   "POSITION_IS_MISSING"; "SALARY_IS_MISSING"; "HIRE_DATE_IS_MISSING";
                   "REPORTS_TO_IS_MISSING"] ->
     left_safe p (null_or_empty col) /\ right_safe p (null_or_empty col)) ->
  marked "EMAIL_IS_MISSING" where1 ->
  resolve_markers (F := F) e where1 = inr where2 ->
  occurs (null_or_empty col) where2.
Proof.
  intros He Hc Hs H. unfold resolve_markers, resolve_missing. cbv zeta.
  rewrite He. cbn [fmt].
  assert (T : truthy (Some col) = true) by (destruct col; [contradiction | reflexivity]).
  rewrite T. cbn [negb]. rewrite andb_false_r.
  intros E. apply inr_inj in E. subst where2.
  assert (K : occurs (null_or_empty col)
                (subst "EMAIL_IS_MISSING" (null_or_empty col) where1)).
  { unfold subst. apply marked_occurs in H.
    rewrite (proj2 (contains_spec _ _) H). apply replace_puts; [discriminate | exact H]. }
  generalize dependent (subst "EMAIL_IS_MISSING" (null_or_empty col) where1).
  intros w K.
  repeat match goal with
         | |- context [if ?c then _ else _] => destruct c
         end.
  all: repeat (first [apply subst_keeps | apply replace_keeps];
               [discriminate | apply Hs; simpl; tauto | apply Hs; simpl; tauto | ]).
  all: exact K.
Qed.

(** Both statements of [build_sql] contain every part of the resolved
    filters that [D_NAME_COL] cannot overlap. *)
Lemma build_sql_both_keep (m : mapping) (t : string) :
  t <> EmptyString -> left_safe "D_NAME_COL" t -> right_safe "D_NAME_COL" t ->
  forall (qn intent : string) (limit offset : Z) (where_ : string) (p : dict F)
         (sql : string) (count_sql : option string) (ps : dict F),
    Re.found from_departments_re (base_query m) = false ->
    occurs t where_ ->
    build_sql m qn intent limit offset where_ p = (sql, count_sql, ps) ->
    occurs t sql
    /\ forall c, count_sql = Some c -> c <> EmptyString /\ occurs t c.
Proof.
  intros Ht Hl Hr qn intent limit offset where_ p sql count_sql ps Hb H B.
  split.
  - pose proof (build_sql_keeps m t Ht Hl Hr qn intent limit offset where_ p Hb H) as K.
    now rewrite B in K.
  - intros c ->. unfold build_sql in B.
    destruct (listing_or_base_keeps m t Ht Hl Hr qn limit offset where_ p H) as [K1 K2].
    destruct (listing_or_base m qn limit offset where_ p) as [[sql1 w1] p1].
    cbn [fst snd] in K1, K2.
    assert (K3 : Re.found from_departments_re sql1 = false \/ occurs t sql1).
    { destruct K2 as [->|K2]; [now left | now right]. }
    destruct (add_where_keeps m t Ht Hl Hr sql1 w1 K1 K3) as [K4 _].
    destruct (add_where m sql1 w1) as [sql2 w2]. cbn [fst] in K4.
    apply shape_count in B. destruct B as [_ ->]. split; [discriminate|].
    apply occurs_app_r, occurs_app_l. exact K4.
Qed.

(** X30: for a database of the staff dialect the mapping names an
    [email] column whether the table has one or not.  A query that asks for
    employees without e-mail is therefore never answered with the warning or
    the email-column error: unless the entity guard answers, at least one
    statement is sent to the database, and every statement sent filters on
    [e.email]. *)
Theorem staff_email_is_assumed (w : world F) (q : string) (cs : option string)
    (limit offset : Z) (intent : string) (db : database F) :
  connect w (str_or cs (default_url w)) = Ok db ->
  Str.mem "employees" (db_tables db) = false ->
  Str.mem "staff" (db_tables db) = true ->
  db_columns db "staff" <> [] ->
  wants_missing_email (_normalize_tokens q) = true ->
  (exists table,
     _run_sql w q cs limit offset intent = (Ok (missing_entity_error table), []))
  \/ (snd (_run_sql w q cs limit offset intent) <> []
      /\ Forall (occurs "(e.email IS NULL OR e.email = '')")
           (snd (_run_sql w q cs limit offset intent))).
Proof.
  intros Hc H1 H2 H3 Hw.
  destruct (staff_mapping db H1 H2 H3) as [m [Hd [He Ht]]].
  pose proof (email_marker_requested (F := F) _ Hw) as M.
  unfold _run_sql. rewrite Hc.
  destruct (_infer_filters (_normalize_tokens q)) as [where0 params]. rewrite Hd.
  cbn [fst] in M.
  destruct (missing_entity _ _) as [t|]; [left; now exists t|].
  destruct (resolve_columns (emp m) where0) as [e1|where1] eqn:E1.
  { exfalso. unfold resolve_columns in E1. cbv zeta in E1. rewrite He in E1.
    cbn [truthy negb] in E1. rewrite andb_false_r in E1. discriminate. }
  destruct (resolve_markers (emp m) where1) as [e2|where2] eqn:E2.
  { exfalso. unfold resolve_markers in E2. cbv zeta in E2. rewrite He in E2.
    cbn [truthy negb] in E2. rewrite andb_false_r in E2. discriminate. }
  pose proof (email_marker_columns (emp m) where0 where1 M E1) as M1.
  assert (S : forall p,
             In p ["D_NAME_COL"; "NAME_IS_MISSING"; "SKILLS_IS_MISSING";
                   "DEPARTMENT_IS_MISSING"; "POSITION_IS_MISSING"; "SALARY_IS_MISSING";
                   "HIRE_DATE_IS_MISSING"; "REPORTS_TO_IS_MISSING"] ->
             left_safe p (null_or_empty "email") /\ right_safe p (null_or_empty "email")).
  { intros p I. apply apart_safe. simpl in I.
    repeat destruct I as [<-|I]; try (vm_compute; reflexivity). contradiction. }
  assert (K : occurs (null_or_empty "email") where2).
  { apply (email_filter_resolved (emp m) "email" where1 where2 He); try assumption.
    - discriminate.
    - intros p I. apply S. now right. }
  destruct (build_sql m _ _ limit offset where2 params) as [[sql count_sql] ps] eqn:B.
  right.
  destruct (build_sql_both_keep m (null_or_empty "email") ltac:(discriminate)
              (proj1 (S "D_NAME_COL" ltac:(now left)))
              (proj2 (S "D_NAME_COL" ltac:(now left)))
              _ _ limit offset where2 params sql count_sql ps
              (base_not_from_departments db m Hd) K B) as [Ks Kc].
  change (null_or_empty "email") with "(e.email IS NULL OR e.email = '')" in Ks, Kc.
  unfold execute. destruct count_sql as [[|c count]|].
  - destruct (Kc EmptyString eq_refl) as [N _]. now contradiction N.
  - destruct (Kc _ eq_refl) as [_ Kc'].
    destruct (db_execute db (String c count) ps) as [counted|];
      [destruct (scalar_one counted); [destruct (db_execute db sql ps)|]|];
      cbn [snd]; (split; [discriminate|]); repeat (apply Forall_cons; [assumption|]);
      apply Forall_nil.
  - destruct (db_execute db sql ps); cbn [snd]; (split; [discriminate|]);
      (apply Forall_cons; [assumption | apply Forall_nil]).
Qed.

End Staff.

Lemma staff_email_is_assumed_witness :
  snd (_run_sql Staffed.w_staff "employees without email" None 50 0 "select") <> []
  /\ Forall (occurs "(e.email IS NULL OR e.email = '')")
       (snd (_run_sql Staffed.w_staff "employees without email" None 50 0 "select")).
Proof.
  destruct (staff_email_is_assumed Staffed.w_staff "employees without email" None 50 0
              "select" Staffed.staff_db eq_refl eq_refl eq_refl
              ltac:(discriminate) ltac:(vm_compute; reflexivity))
    as [[t Ht]|H].
  - exfalso. vm_compute in Ht. discriminate.
  - exact H.
Defined.
